(** * ATen adaptive average pooling and autograd profiler scopes

    A shallow embedding of
      - aten/src/ATen/native/AdaptiveAveragePooling.cpp
      - torch/csrc/autograd/record_function_ops.cpp
    Tensors, record-function holders and futures are C++ objects that are
    passed by reference and mutated in place; they live in explicit stores
    and the functions of both files are written in a state-and-exception
    monad over those stores. *)

From Stdlib Require Import ZArith Lia.
From stdpp Require Import base list strings.

Local Open Scope Z_scope.

(* ===================================================================== *)
(** * Exceptions *)
(* ===================================================================== *)

(** c10::ScalarType, the tag returned by [Tensor::dtype()]. *)
Inductive ScalarType :=
  | Byte | Char | Short | Int | Long | Half | Float | Double | Bool | BFloat16.

Global Instance ScalarType_eq_dec : EqDecision ScalarType.
Proof. solve_decision. Defined.

(** The text of every check of the two files, with the values that the
    message prints. *)
Inductive message :=
  (* AdaptiveAveragePooling.cpp *)
  | output_size_must_be_2
  | expected_3D_or_4D_tensor (input_sizes : list Z)
  | input_non_zero_size (input_sizes : list Z) (dimension : Z)
  | expected_dtype_for_output (expected got : ScalarType)
  | backward_grad_output_non_zero_size (grad_output_sizes : list Z) (dimension : Z)
  | backward_expected_3D_or_4D_tensor (input_sizes : list Z)
  | expected_dtype_for_grad_output (expected got : ScalarType)
  | expected_dtype_for_grad_input (expected got : ScalarType)
  | output_size_elements_must_be_nonnegative (h w : Z)
  (* record_function_ops.cpp *)
  | record_function_must_be_set_via_enter
  | undefined_RecordFunction_holder
  (* raised inside the tensor and future libraries *)
  | dimension_out_of_range (d n : Z)
  | negative_dimension (sizes : list Z)
  | required_rank_for_memory_format (required : Z)
  | unsupported_memory_format
  | undefined_object
  | future_not_completed
  | future_already_completed.

(** What a failing call throws.  [TORCH_CHECK] throws a [c10::Error] meant
    for the user, [TORCH_INTERNAL_ASSERT] an internal assertion failure,
    dimension wrapping an [IndexError]; a future may carry any other
    exception. *)
Inductive error :=
  | TorchCheck (m : message)
  | InternalAssert (m : message)
  | IndexError (m : message)
  | OtherException (what : string).

(** How a call ends: with a value or with an exception.  [OutOfFuel] is no
    outcome of the C++ code: it marks a run of the model that was given too
    little fuel, and no handler catches it. *)
Inductive res (A : Type) :=
  | Ok (a : A)
  | Err (e : error)
  | OutOfFuel.
Arguments Ok {A} a.
Arguments Err {A} e.
Arguments OutOfFuel {A}.

(* ===================================================================== *)
(** * The state-and-exception monad *)
(* ===================================================================== *)

(** A C++ exception leaves every mutation done before it in place, so the
    state is returned on both outcomes. *)
Definition M (St A : Type) : Type := St -> res A * St.

Definition ret {St A} (a : A) : M St A := fun s => (Ok a, s).

Definition bind {St A B} (m : M St A) (f : A -> M St B) : M St B :=
  fun s => match m s with
           | (Ok a, s') => f a s'
           | (Err e, s') => (Err e, s')
           | (OutOfFuel, s') => (OutOfFuel, s')
           end.

Definition throw {St A} (e : error) : M St A := fun s => (Err e, s).

Definition get_state {St} : M St St := fun s => (Ok s, s).

Definition put_state {St} (s : St) : M St unit := fun _ => (Ok tt, s).

Definition lift_res {St A} (r : res A) : M St A := fun s => (r, s).

(** [try { body } catch (std::exception&) { handler }] *)
Definition try_catch {St A} (body : M St A) (handler : error -> M St A) : M St A :=
  fun s => match body s with
           | (Ok a, s') => (Ok a, s')
           | (Err e, s') => handler e s'
           | (OutOfFuel, s') => (OutOfFuel, s')
           end.

Declare Scope monad_scope.
Delimit Scope monad_scope with monad.
Notation "'let*' x ':=' m 'in' k" := (bind m (fun x => k))
  (at level 10, x name, m at level 100, k at level 200) : monad_scope.
Notation "m ';;' k" := (bind m (fun _ => k))
  (at level 100, k at level 200, right associativity) : monad_scope.
Local Open Scope monad_scope.

(** [TORCH_CHECK(cond, msg...)]: the message is built only on failure. *)
Definition TORCH_CHECK {St} (cond : bool) (msg : M St message) : M St unit :=
  if cond then ret tt else (let* m := msg in throw (TorchCheck m)).

Definition TORCH_INTERNAL_ASSERT {St} (cond : bool) (msg : message) : M St unit :=
  if cond then ret tt else throw (InternalAssert msg).

(** A range-based [for] whose body may throw. *)
Fixpoint for_each {St A} (l : list A) (body : A -> M St unit) : M St unit :=
  match l with
  | [] => ret tt
  | x :: l' => body x ;; for_each l' body
  end.

(** [c10::irange(begin, end)]: empty when [end <= begin]. *)
Definition irange (b e : Z) : list Z := seqZ b (e - b).

(* ===================================================================== *)
(** * Tensors *)
(* ===================================================================== *)

Inductive MemoryFormat := Contiguous | Preserve | ChannelsLast | ChannelsLast3d.

Global Instance MemoryFormat_eq_dec : EqDecision MemoryFormat.
Proof. solve_decision. Defined.

Inductive DeviceType := CPU | CUDA | XPU.

Global Instance DeviceType_eq_dec : EqDecision DeviceType.
Proof. solve_decision. Defined.

Inductive Layout := Strided | Mkldnn.

Global Instance Layout_eq_dec : EqDecision Layout.
Proof. solve_decision. Defined.

(** Modelled from the spec: [at::Tensor], declared in ATen/core/Tensor.h,
    which is not among the sources.  §3 gives a tensor a shape, a dtype, a
    storage layout and a device tag; the strides are kept as well, since
    the 1x1 path rewrites them.  [data] holds the elements in storage order;
    the element type is left open, since the pooling code never looks at an
    element. *)
Record Tensor (scalar : Type) := mkTensor {
  sizes : list Z;
  strides : list Z;
  dtype : ScalarType;
  device : DeviceType;
  layout : Layout;
  quantized : bool;
  data : list scalar
}.
Arguments mkTensor {scalar}.
Arguments sizes {scalar}.
Arguments strides {scalar}.
Arguments dtype {scalar}.
Arguments device {scalar}.
Arguments layout {scalar}.
Arguments quantized {scalar}.
Arguments data {scalar}.

(** [Tensor&] and [const Tensor&]: an index into the store of tensors. *)
Definition TensorRef := nat.

Section TensorMetadata.
Context {scalar : Type}.
Implicit Types t : Tensor scalar.

Definition dim t : Z := Z.of_nat (length (sizes t)).

(** [int64_t]: the value that two's complement arithmetic leaves. *)
Definition int64_max : Z := 2 ^ 63 - 1.

Definition int64_wrap (z : Z) : Z := (z + 2 ^ 63) mod 2 ^ 64 - 2 ^ 63.

(** [Tensor::numel()] is an [int64_t], the product of the sizes
    ([c10::multiply_integers]). *)
Definition numel_of (sz : list Z) : Z :=
  foldr (fun n acc => int64_wrap (n * acc)) 1 sz.

Definition numel t : Z := numel_of (sizes t).

Definition is_mkldnn t : bool := bool_decide (layout t = Mkldnn).
Definition is_xpu t : bool := bool_decide (device t = XPU).
Definition is_quantized t : bool := quantized t.

(** Modelled from the spec: the methods of [at::Tensor] and
    [c10::TensorImpl] that AdaptiveAveragePooling.cpp calls are not among
    the sources either; the definitions of this section follow the
    behaviour that the file relies on.

    [c10::maybe_wrap_dim(d, n, /*wrap_scalar=*/false)] *)
Definition maybe_wrap_dim (d n : Z) : res Z :=
  if n <=? 0 then Err (IndexError (dimension_out_of_range d n))
  else if (- n <=? d) && (d <? n) then Ok (if d <? 0 then d + n else d)
  else Err (IndexError (dimension_out_of_range d n)).

(** [Tensor::size(d)], with Python-style negative indices. *)
Definition size t (d : Z) : res Z :=
  match maybe_wrap_dim d (dim t) with
  | Ok d' => Ok (default 0 (sizes t !! Z.to_nat d'))
  | Err e => Err e
  | OutOfFuel => OutOfFuel
  end.

(** Strides of a densely packed row-major tensor of the given sizes. *)
Fixpoint contiguous_strides (sz : list Z) : list Z :=
  match sz with
  | [] => []
  | _ :: rest =>
      let tail := contiguous_strides rest in
      match rest, tail with
      | n :: _, st :: _ => st * Z.max n 1
      | _, _ => 1
      end :: tail
  end.

(** [get_channels_last_strides_2d] *)
Definition channels_last_strides_2d (sz : list Z) : list Z :=
  match sz with
  | [n; c; h; w] => [h * (w * c); 1; w * c; c]
  | _ => contiguous_strides sz
  end.

(** [get_channels_last_strides_3d] *)
Definition channels_last_strides_3d (sz : list Z) : list Z :=
  match sz with
  | [n; c; d; h; w] => [d * (h * (w * c)); 1; h * (w * c); w * c; c]
  | _ => contiguous_strides sz
  end.

(** The stride scan behind [is_strides_like_channels_last]: the
    dimensions are visited from the fastest to the slowest one of a
    channels-last tensor. *)
Fixpoint channels_last_scan (order : list nat) (sz st : list Z) (min : Z) : bool :=
  match order with
  | [] => true
  | d :: order' =>
      let size_d := default 0 (sz !! d) in
      let stride_d := default 0 (st !! d) in
      if size_d =? 0 then false
      else if stride_d <? min then false
      else if bool_decide (d = 0%nat) && (min =? default 0 (st !! 1%nat)) then false
      else channels_last_scan order' sz st
             (if 1 <? size_d then stride_d * size_d else stride_d)
  end.

Definition is_strides_like_channels_last t : bool :=
  match length (sizes t) with
  | 4%nat =>
      if default 0 (strides t !! 1%nat) =? 0 then false
      else channels_last_scan [1; 3; 2; 0]%nat (sizes t) (strides t) 0
  | _ => false
  end.

Definition is_strides_like_channels_last_3d t : bool :=
  match length (sizes t) with
  | 5%nat =>
      if default 0 (strides t !! 1%nat) =? 0 then false
      else channels_last_scan [1; 4; 3; 2; 0]%nat (sizes t) (strides t) 0
  | _ => false
  end.

(** [Tensor::suggest_memory_format()]: the preferred layout of §4.2,
    channels-last only for rank 4. *)
Definition suggest_memory_format t : MemoryFormat :=
  if bool_decide (layout t = Strided) then
    if is_strides_like_channels_last t then ChannelsLast
    else if is_strides_like_channels_last_3d t then ChannelsLast3d
    else Contiguous
  else Contiguous.

(** The same tensor under other strides, or holding other elements. *)
Definition with_strides t (st : list Z) : Tensor scalar :=
  mkTensor (sizes t) st (dtype t) (device t) (layout t) (quantized t) (data t).

Definition with_data t (d : list scalar) : Tensor scalar :=
  mkTensor (sizes t) (strides t) (dtype t) (device t) (layout t) (quantized t) d.

(** [TensorImpl::empty_tensor_restride(memory_format)] *)
Definition empty_tensor_restride (fmt : MemoryFormat) t : res (Tensor scalar) :=
  match fmt with
  | Contiguous => Ok (with_strides t (contiguous_strides (sizes t)))
  | ChannelsLast =>
      if dim t =? 4 then Ok (with_strides t (channels_last_strides_2d (sizes t)))
      else Err (TorchCheck (required_rank_for_memory_format 4))
  | ChannelsLast3d =>
      if dim t =? 5 then Ok (with_strides t (channels_last_strides_3d (sizes t)))
      else Err (TorchCheck (required_rank_for_memory_format 5))
  | Preserve => Err (TorchCheck unsupported_memory_format)
  end.
End TensorMetadata.

(** [Tensor::options()]: what [at::empty] needs to make a tensor like
    another one. *)
Record TensorOptions := mkOptions {
  opt_dtype : ScalarType;
  opt_device : DeviceType;
  opt_layout : Layout
}.

(** Modelled from the spec: the interfaces of §6 that
    AdaptiveAveragePooling.cpp consumes and that are defined outside the
    sources: the numeric kernels behind the two dispatch stubs,
    the reduction [at::mean], the MKL-DNN primitive, and the kernels that the
    dispatcher selects for tensors that are not plain CPU tensors.  A kernel
    is given the tensors as they are when it is called and yields the
    elements it writes into its first argument. *)
Class Externals (scalar : Type) := {
  zero : scalar;
  uninitialized : scalar;
  adaptive_avg_pool2d_kernel_cpu :
    Tensor scalar -> Tensor scalar -> list Z -> list scalar;
  adaptive_avg_pool2d_backward_kernel_cpu :
    Tensor scalar -> Tensor scalar -> list scalar;
  at_mean : Tensor scalar -> list Z -> bool -> res (Tensor scalar);
  at_mkldnn_adaptive_avg_pool2d : Tensor scalar -> list Z -> res (Tensor scalar);
  adaptive_avg_pool2d_other_backend : Tensor scalar -> list Z -> res (Tensor scalar)
}.

(** One invocation of a dispatch stub, with the tensors as the kernel
    finds them. *)
Inductive KernelCall (scalar : Type) :=
  | adaptive_avg_pool2d_kernel_call
      (output input : Tensor scalar) (output_size : list Z)
  | adaptive_avg_pool2d_backward_kernel_call
      (grad_input grad_output : Tensor scalar).
Arguments adaptive_avg_pool2d_kernel_call {scalar}.
Arguments adaptive_avg_pool2d_backward_kernel_call {scalar}.

(** The store of tensors and the log of kernel invocations. *)
Record World (scalar : Type) := mkWorld {
  tensors : list (Tensor scalar);
  kernel_calls : list (KernelCall scalar)
}.
Arguments mkWorld {scalar}.
Arguments tensors {scalar}.
Arguments kernel_calls {scalar}.

(* ===================================================================== *)
(** * aten/src/ATen/native/AdaptiveAveragePooling.cpp *)
(* ===================================================================== *)

Section AdaptiveAveragePooling.
Context {scalar : Type} `{!Externals scalar}.

Local Abbreviation ATen := (M (World scalar)).

(** ** Tensor methods *)

Definition get_tensor (r : TensorRef) : ATen (Tensor scalar) :=
  fun w => match tensors w !! r with
           | Some t => (Ok t, w)
           | None => (Err (InternalAssert undefined_object), w)
           end.

Definition set_tensor (r : TensorRef) (t : Tensor scalar) : ATen unit :=
  fun w => (Ok tt, mkWorld (<[r := t]> (tensors w)) (kernel_calls w)).

Definition new_tensor (t : Tensor scalar) : ATen TensorRef :=
  fun w => (Ok (length (tensors w)), mkWorld (tensors w ++ [t]) (kernel_calls w)).

(** The destructor of a [Tensor] that is local to a function: the store
    goes back to what it held when the tensor was made. *)
Definition release_tensor (r : TensorRef) : ATen unit :=
  fun w => (Ok tt, mkWorld (take r (tensors w)) (kernel_calls w)).

(** The rest of the scope of a local [Tensor]: an exception that unwinds
    it destroys the local on its way to the caller. *)
Definition in_scope_of {A} (local : TensorRef) (rest : ATen A) : ATen A :=
  try_catch rest (fun e => release_tensor local ;; throw e).

Definition record_call (c : KernelCall scalar) : ATen unit :=
  fun w => (Ok tt, mkWorld (tensors w) (kernel_calls w ++ [c])).

Definition Tensor_dim (r : TensorRef) : ATen Z :=
  let* t := get_tensor r in ret (dim t).

Definition Tensor_sizes (r : TensorRef) : ATen (list Z) :=
  let* t := get_tensor r in ret (sizes t).

Definition Tensor_size (r : TensorRef) (d : Z) : ATen Z :=
  let* t := get_tensor r in lift_res (size t d).

Definition Tensor_dtype (r : TensorRef) : ATen ScalarType :=
  let* t := get_tensor r in ret (dtype t).

Definition Tensor_numel (r : TensorRef) : ATen Z :=
  let* t := get_tensor r in ret (numel t).

Definition Tensor_options (r : TensorRef) : ATen TensorOptions :=
  let* t := get_tensor r in ret (mkOptions (dtype t) (device t) (layout t)).

Definition Tensor_suggest_memory_format (r : TensorRef) : ATen MemoryFormat :=
  let* t := get_tensor r in ret (suggest_memory_format t).

(** The elements of a tensor after its storage was made to hold [n]
    elements: what was there stays, the rest is not initialised. *)
Definition resize_data (n : Z) (d : list scalar) : list scalar :=
  resize (Z.to_nat n) uninitialized d.

(** Modelled from the spec: [resize_], [zero_], [as_strided_], [mean] and
    [at::empty] are not among the sources; they do what §4.2, §4.3 and §6
    say of them.

    The tensor that a resize to [size] leaves: equal sizes leave the
    tensor alone, other sizes make it contiguous over a storage of
    [numel] elements. *)
Definition resized (t : Tensor scalar) (size : list Z) : Tensor scalar :=
  if bool_decide (sizes t = size) then t
  else mkTensor size (contiguous_strides size) (dtype t) (device t)
         (layout t) (quantized t) (resize_data (numel_of size) (data t)).

(** Modelled from the spec: [resize_impl_cpu_(self, size,
    /*stride=*/nullopt)], which is not among the sources.  A shape is a
    sequence of non-negative sizes (§3), and a size list with a negative
    element is refused with an error for the user (§7), before the tensor
    is touched. *)
Definition resize_impl_cpu_ (t : Tensor scalar) (size : list Z)
    : res (Tensor scalar) :=
  if forallb (fun n => 0 <=? n) size then Ok (resized t size)
  else Err (TorchCheck (negative_dimension size)).

(** [Tensor::resize_(size, optional_memory_format)]: a memory format
    restrides the resized tensor. *)
Definition Tensor_resize_ (self : TensorRef) (size : list Z)
    (optional_memory_format : option MemoryFormat) : ATen unit :=
  let* t := get_tensor self in
  let* t0 := lift_res (resize_impl_cpu_ t size) in
  set_tensor self t0 ;;
  match optional_memory_format with
  | None => ret tt
  | Some memory_format =>
      let* t1 := get_tensor self in
      let* t2 := lift_res (empty_tensor_restride memory_format t1) in
      set_tensor self t2
  end.

(** [Tensor::zero_()] *)
Definition Tensor_zero_ (self : TensorRef) : ATen unit :=
  let* t := get_tensor self in
  set_tensor self (with_data t (replicate (length (data t)) zero)).

(** [Tensor::as_strided_(size, stride)]: new metadata over the same
    elements. *)
Definition Tensor_as_strided_ (self : TensorRef) (size stride : list Z) : ATen unit :=
  let* t := get_tensor self in
  set_tensor self
    (mkTensor size stride (dtype t) (device t) (layout t) (quantized t) (data t)).

(** [Tensor::mean(dim, keepdim)]: a new tensor. *)
Definition Tensor_mean (self : TensorRef) (dims : list Z) (keepdim : bool)
    : ATen TensorRef :=
  let* t := get_tensor self in
  let* m := lift_res (at_mean t dims keepdim) in
  new_tensor m.

(** [at::empty(size, options)] *)
Definition at_empty (size : list Z) (options : TensorOptions) : ATen TensorRef :=
  new_tensor
    (mkTensor size (contiguous_strides size) (opt_dtype options)
       (opt_device options) (opt_layout options) false
       (replicate (Z.to_nat (numel_of size)) uninitialized)).

(** [at::mkldnn_adaptive_avg_pool2d(input, output_size)] *)
Definition mkldnn_adaptive_avg_pool2d (input : TensorRef) (output_size : list Z)
    : ATen TensorRef :=
  let* t := get_tensor input in
  let* r := lift_res (at_mkldnn_adaptive_avg_pool2d t output_size) in
  new_tensor r.

(** ** The dispatch stubs *)

(** [adaptive_avg_pool2d_kernel(kCPU, output, input, output_size)] *)
Definition adaptive_avg_pool2d_kernel (output input : TensorRef)
    (output_size : list Z) : ATen unit :=
  let* o := get_tensor output in
  let* i := get_tensor input in
  record_call (adaptive_avg_pool2d_kernel_call o i output_size) ;;
  set_tensor output (with_data o (adaptive_avg_pool2d_kernel_cpu o i output_size)).

(** [adaptive_avg_pool2d_backward_kernel(kCPU, grad_input, grad_output)] *)
Definition adaptive_avg_pool2d_backward_kernel (grad_input grad_output : TensorRef)
    : ATen unit :=
  let* gi := get_tensor grad_input in
  let* go := get_tensor grad_output in
  record_call (adaptive_avg_pool2d_backward_kernel_call gi go) ;;
  set_tensor grad_input
    (with_data gi (adaptive_avg_pool2d_backward_kernel_cpu gi go)).

(** ** The functions of the file *)

Definition adaptive_avg_pool2d_out_cpu_template (output input : TensorRef)
    (output_size : list Z) : ATen unit :=
  TORCH_CHECK (bool_decide (length output_size = 2%nat)) (ret output_size_must_be_2) ;;
  let* ndim := Tensor_dim input in
  TORCH_CHECK ((ndim =? 3) || (ndim =? 4))
    (let* sz := Tensor_sizes input in ret (expected_3D_or_4D_tensor sz)) ;;
  for_each [-2; -1] (fun i =>
    let* size_i := Tensor_size input i in
    TORCH_CHECK (0 <? size_i)
      (let* sz := Tensor_sizes input in ret (input_non_zero_size sz (i + ndim)))) ;;
  let* input_dtype := Tensor_dtype input in
  let* output_dtype := Tensor_dtype output in
  TORCH_CHECK (bool_decide (input_dtype = output_dtype))
    (ret (expected_dtype_for_output input_dtype output_dtype)) ;;
  let* channels := Tensor_size input (-3) in
  let output_height := default 0 (output_size !! 0%nat) in
  let output_width := default 0 (output_size !! 1%nat) in
  (if ndim =? 3 then
     Tensor_resize_ output [channels; output_height; output_width] None
   else
     let* nbatch := Tensor_size input 0 in
     let* memory_format := Tensor_suggest_memory_format input in
     Tensor_resize_ output [nbatch; channels; output_height; output_width]
       (Some memory_format)) ;;
  let* n := Tensor_numel output in
  if n =? 0 then ret tt
  else adaptive_avg_pool2d_kernel output input output_size.

Definition adaptive_avg_pool2d_backward_out_cpu_template
    (grad_input grad_output input : TensorRef) : ATen TensorRef :=
  let* ndim := Tensor_dim grad_output in
  for_each (irange 1 ndim) (fun i =>
    let* size_i := Tensor_size grad_output i in
    TORCH_CHECK (0 <? size_i)
      (let* sz := Tensor_sizes grad_output in
       ret (backward_grad_output_non_zero_size sz i))) ;;
  TORCH_CHECK ((ndim =? 3) || (ndim =? 4))
    (let* sz := Tensor_sizes input in ret (backward_expected_3D_or_4D_tensor sz)) ;;
  let* input_dtype := Tensor_dtype input in
  let* grad_output_dtype := Tensor_dtype grad_output in
  TORCH_CHECK (bool_decide (input_dtype = grad_output_dtype))
    (ret (expected_dtype_for_grad_output input_dtype grad_output_dtype)) ;;
  let* grad_input_dtype := Tensor_dtype grad_input in
  TORCH_CHECK (bool_decide (input_dtype = grad_input_dtype))
    (ret (expected_dtype_for_grad_input input_dtype grad_input_dtype)) ;;
  let* input_sizes := Tensor_sizes input in
  let* memory_format := Tensor_suggest_memory_format input in
  Tensor_resize_ grad_input input_sizes (Some memory_format) ;;
  Tensor_zero_ grad_input ;;
  adaptive_avg_pool2d_backward_kernel grad_input grad_output ;;
  ret grad_input.

Definition adaptive_avg_pool2d_out_cpu (input : TensorRef) (output_size : list Z)
    (output : TensorRef) : ATen TensorRef :=
  adaptive_avg_pool2d_out_cpu_template output input output_size ;;
  ret output.

Definition adaptive_avg_pool2d_cpu (input : TensorRef) (output_size : list Z)
    : ATen TensorRef :=
  let* options := Tensor_options input in
  let* output := at_empty [0] options in
  in_scope_of output
    (adaptive_avg_pool2d_out_cpu_template output input output_size ;;
     ret output).

(** Modelled from the spec: the dispatcher entry
    [at::_adaptive_avg_pool2d_symint], whose registration table is not
    part of AdaptiveAveragePooling.cpp.  The generic path hands the call
    to the computational kernel of the input's device and backend; for a
    plain CPU tensor that is [adaptive_avg_pool2d_cpu] of this file. *)
Definition _adaptive_avg_pool2d_symint (input : TensorRef) (output_size : list Z)
    : ATen TensorRef :=
  let* t := get_tensor input in
  if bool_decide (device t = CPU) && bool_decide (layout t = Strided)
     && negb (is_quantized t)
  then adaptive_avg_pool2d_cpu input output_size
  else
    let* r := lift_res (adaptive_avg_pool2d_other_backend t output_size) in
    new_tensor r.

(** The branch under [C10_MOBILE && USE_XNNPACK] is compiled out: this is
    the build without the mobile fast path. *)
Definition adaptive_avg_pool2d_symint (input : TensorRef) (output_size : list Z)
    : ATen TensorRef :=
  TORCH_CHECK (bool_decide (length output_size = 2%nat)) (ret output_size_must_be_2) ;;
  let output_size_0 := default 0 (output_size !! 0%nat) in
  let output_size_1 := default 0 (output_size !! 1%nat) in
  TORCH_CHECK ((0 <=? output_size_0) && (0 <=? output_size_1))
    (ret (output_size_elements_must_be_nonnegative output_size_0 output_size_1)) ;;
  let* t := get_tensor input in
  if is_mkldnn t then mkldnn_adaptive_avg_pool2d input output_size
  else if negb (is_quantized t) && (output_size_0 =? 1) && (output_size_1 =? 1)
          && negb (is_xpu t)
  then
    let* out := Tensor_mean input [-1; -2] true in
    let* memory_format := Tensor_suggest_memory_format input in
    (if bool_decide (memory_format = ChannelsLast) then
       let* n := Tensor_size input 0 in
       let* c := Tensor_size input 1 in
       Tensor_as_strided_ out [n; c; 1; 1] [c; 1; c; c]
     else ret tt) ;;
    ret out
  else _adaptive_avg_pool2d_symint input output_size.

Definition adaptive_avg_pool2d_backward_out_cpu
    (grad_input grad_output input : TensorRef) : ATen TensorRef :=
  adaptive_avg_pool2d_backward_out_cpu_template grad_input grad_output input ;;
  ret grad_input.

Definition adaptive_avg_pool2d_backward_cpu (grad_output input : TensorRef)
    : ATen TensorRef :=
  let* options := Tensor_options input in
  let* grad_input := at_empty [0] options in
  in_scope_of grad_input
    (adaptive_avg_pool2d_backward_out_cpu_template grad_input grad_output input ;;
     ret grad_input).

End AdaptiveAveragePooling.

(* ===================================================================== *)
(** * torch/csrc/autograd/record_function_ops.cpp *)
(* ===================================================================== *)

(** [at::RecordScope] *)
Inductive RecordScope :=
  | FUNCTION | BACKWARD_FUNCTION | TORCHSCRIPT_FUNCTION | USER_SCOPE.

(** Modelled from the spec: [at::RecordFunction], declared in
    ATen/record_function.h, which is not among the sources.  It is an
    instrumentation scope: [before(name)] tags the scope and begins
    measurement by running the start callbacks, [end()] ends a running scope
    by running the end callbacks, and the destructor calls [end()]. *)
Record RecordFunction := mkRecordFunction {
  scope : RecordScope;
  name : string;
  running : bool
}.

(** [RecordFunctionHolder]: its only member is
    [std::unique_ptr<at::RecordFunction> record_function_], null until
    [enter] sets it. *)
Record RecordFunctionHolder := mkHolder {
  record_function_ : option RecordFunction
}.

Definition HolderRef := nat.
Definition FutureRef := nat.

Section RecordFunctionOps.
Context {IValue TypePtr ThreadLocalState : Type}.

(** How a future was completed: [markCompleted(value)] or
    [setError(eptr)]. *)
Inductive resolution :=
  | resolved_value (v : IValue)
  | resolved_error (e : error).

(** The closure that [_call_end_callbacks_on_fut] stores in a future,
    given by what it captured: [childFut] (by [Future::then]), the
    thread-local state (by [at::wrapPropagateTLSState]) and [holder] (by
    the lambda [futureProfilingFunc]). *)
Inductive callback :=
  | then_callback (childFut : FutureRef) (tls_state : ThreadLocalState)
      (holder : option HolderRef).

(** Modelled from the spec: [c10::ivalue::Future], declared in
    ATen/core/ivalue_inl.h, which is not among the sources.  It is an
    asynchronous value: not yet resolved, or resolved with a value or with
    an error; continuations attached to it run when it resolves, at once
    if it already has. *)
Record Future := mkFuture {
  resolution_ : option resolution;
  callbacks_ : list callback;
  type_ : TypePtr
}.

(** What the profiler and the futures did, in order; the callbacks of a
    record function see the thread-local state they run under. *)
Inductive Event :=
  | start_callbacks (sc : RecordScope) (nm : string) (tls_state : ThreadLocalState)
  | end_callbacks (sc : RecordScope) (nm : string) (tls_state : ThreadLocalState)
  | future_resolved (fut : FutureRef) (r : resolution).

Record Profiler := mkProfiler {
  holders : list RecordFunctionHolder;
  futures : list Future;
  tls : ThreadLocalState;
  history : list Event
}.

Local Abbreviation Prof := (M Profiler).

Definition get_holder (r : HolderRef) : Prof RecordFunctionHolder :=
  fun p => match holders p !! r with
           | Some h => (Ok h, p)
           | None => (Err (InternalAssert undefined_object), p)
           end.

Definition set_holder (r : HolderRef) (h : RecordFunctionHolder) : Prof unit :=
  fun p => (Ok tt, mkProfiler (<[r := h]> (holders p)) (futures p) (tls p) (history p)).

Definition get_future (r : FutureRef) : Prof Future :=
  fun p => match futures p !! r with
           | Some f => (Ok f, p)
           | None => (Err (InternalAssert undefined_object), p)
           end.

Definition set_future (r : FutureRef) (f : Future) : Prof unit :=
  fun p => (Ok tt, mkProfiler (holders p) (<[r := f]> (futures p)) (tls p) (history p)).

Definition get_tls : Prof ThreadLocalState := fun p => (Ok (tls p), p).

Definition set_tls (t : ThreadLocalState) : Prof unit :=
  fun p => (Ok tt, mkProfiler (holders p) (futures p) t (history p)).

Definition emit (e : Event) : Prof unit :=
  fun p => (Ok tt, mkProfiler (holders p) (futures p) (tls p) (history p ++ [e])).

(** ** at::RecordFunction *)

Definition RecordFunction_before (rf : RecordFunction) (nm : string)
    : Prof RecordFunction :=
  let* t := get_tls in
  emit (start_callbacks (scope rf) nm t) ;;
  ret (mkRecordFunction (scope rf) nm true).

Definition RecordFunction_end (rf : RecordFunction) : Prof RecordFunction :=
  if running rf then
    let* t := get_tls in
    emit (end_callbacks (scope rf) (name rf) t) ;;
    ret (mkRecordFunction (scope rf) (name rf) false)
  else ret rf.

(** ** RecordFunctionHolder *)

(** [c10::make_intrusive<RecordFunctionHolder>()] *)
Definition make_intrusive_RecordFunctionHolder : Prof HolderRef :=
  fun p => (Ok (length (holders p)),
            mkProfiler (holders p ++ [mkHolder None]) (futures p) (tls p) (history p)).

(** [->] on an intrusive pointer. *)
Definition deref (ptr : option HolderRef) : Prof HolderRef :=
  match ptr with
  | Some r => ret r
  | None => throw (InternalAssert undefined_object)
  end.

(** Assigning the new [unique_ptr] destroys the record function that the
    holder owned before, and its destructor ends it. *)
Definition RecordFunctionHolder_enter (this : HolderRef) (nm : string) : Prof unit :=
  let* h := get_holder this in
  match record_function_ h with
  | Some old => RecordFunction_end old ;; ret tt
  | None => ret tt
  end ;;
  set_holder this (mkHolder (Some (mkRecordFunction USER_SCOPE EmptyString false))) ;;
  let* rf := RecordFunction_before (mkRecordFunction USER_SCOPE EmptyString false) nm in
  set_holder this (mkHolder (Some rf)).

Definition RecordFunctionHolder_exit (this : HolderRef) : Prof unit :=
  let* h := get_holder this in
  TORCH_CHECK (bool_decide (record_function_ h <> None))
    (ret record_function_must_be_set_via_enter) ;;
  match record_function_ h with
  | Some rf =>
      let* rf' := RecordFunction_end rf in
      set_holder this (mkHolder (Some rf'))
  | None => ret tt
  end.

Definition record_function_enter (nm : string) : Prof HolderRef :=
  let* wrapper := make_intrusive_RecordFunctionHolder in
  RecordFunctionHolder_enter wrapper nm ;;
  ret wrapper.

Definition record_function_exit (holder : option HolderRef) : Prof unit :=
  let* h := deref holder in
  RecordFunctionHolder_exit h.

(** ** c10::ivalue::Future *)

(** [Future::value()]: rethrows the error of a future that has one. *)
Definition Future_value (this : FutureRef) : Prof IValue :=
  let* f := get_future this in
  match resolution_ f with
  | None => throw (InternalAssert future_not_completed)
  | Some (resolved_value v) => ret v
  | Some (resolved_error e) => throw e
  end.

Definition Future_elementType (this : FutureRef) : Prof TypePtr :=
  let* f := get_future this in ret (type_ f).

(** [Future::createInstance(type)] *)
Definition Future_createInstance (type : TypePtr) : Prof FutureRef :=
  fun p => (Ok (length (futures p)),
            mkProfiler (holders p) (futures p ++ [mkFuture None [] type])
              (tls p) (history p)).

(** [at::ThreadLocalStateGuard]: the body runs under the captured
    thread-local state and the previous one is put back afterwards, also
    when the body throws. *)
Definition ThreadLocalStateGuard {A} (tls_state : ThreadLocalState) (body : Prof A)
    : Prof A :=
  fun p =>
    let prev_state := tls p in
    match body (mkProfiler (holders p) (futures p) tls_state (history p)) with
    | (r, p') => (r, mkProfiler (holders p') (futures p') prev_state (history p'))
    end.

(** The lambda [futureProfilingFunc] of [_call_end_callbacks_on_fut]. *)
Definition futureProfilingFunc (holder : option HolderRef) (fut : FutureRef)
    : Prof IValue :=
  TORCH_INTERNAL_ASSERT (bool_decide (holder <> None)) undefined_RecordFunction_holder ;;
  let* h := deref holder in
  RecordFunctionHolder_exit h ;;
  Future_value fut.

(** The callback that [Future::then] registers: it resolves [childFut]
    with what the wrapped function returns, or with what it throws. *)
Definition invoke_callback (complete : FutureRef -> resolution -> Prof unit)
    (cb : callback) (parentFut : FutureRef) : Prof unit :=
  match cb with
  | then_callback childFut tls_state holder =>
      try_catch
        (let* v := ThreadLocalStateGuard tls_state (futureProfilingFunc holder parentFut) in
         complete childFut (resolved_value v))
        (fun e => complete childFut (resolved_error e))
  end.

(** Resolving a future, the common part of [markCompleted] and
    [setError]: a future resolves once, and its callbacks then run in the
    order in which they were added.  A callback may resolve a further
    future; [fuel] bounds that nesting. *)
Fixpoint Future_complete (fuel : nat) (this : FutureRef) (r : resolution) : Prof unit :=
  match fuel with
  | O => fun p => (OutOfFuel, p)
  | S fuel' =>
      let* f := get_future this in
      TORCH_CHECK (bool_decide (resolution_ f = None)) (ret future_already_completed) ;;
      set_future this (mkFuture (Some r) [] (type_ f)) ;;
      emit (future_resolved this r) ;;
      for_each (callbacks_ f) (fun cb =>
        invoke_callback (Future_complete fuel') cb this)
  end.

Definition Future_markCompleted (fuel : nat) (this : FutureRef) (v : IValue) : Prof unit :=
  Future_complete fuel this (resolved_value v).

Definition Future_setError (fuel : nat) (this : FutureRef) (e : error) : Prof unit :=
  Future_complete fuel this (resolved_error e).

(** [Future::addCallback]: run now if the future is resolved, else kept
    for later. *)
Definition Future_addCallback (fuel : nat) (this : FutureRef) (cb : callback)
    : Prof unit :=
  let* f := get_future this in
  match resolution_ f with
  | Some _ => invoke_callback (Future_complete fuel) cb this
  | None => set_future this (mkFuture None (callbacks_ f ++ [cb]) (type_ f))
  end.

(** [Future::then(callback, type)], for the wrapped profiling function. *)
Definition Future_then (fuel : nat) (this : FutureRef)
    (tls_state : ThreadLocalState) (holder : option HolderRef) (type : TypePtr)
    : Prof FutureRef :=
  let* childFut := Future_createInstance type in
  Future_addCallback fuel this (then_callback childFut tls_state holder) ;;
  ret childFut.

(** ** The operator *)

Definition _call_end_callbacks_on_fut (fuel : nat) (holder : option HolderRef)
    (fut : FutureRef) : Prof FutureRef :=
  let* tls_state := get_tls in
  let* type := Future_elementType fut in
  let* profiledFut := Future_then fuel fut tls_state holder type in
  ret profiledFut.

End RecordFunctionOps.

(* ===================================================================== *)
(** * Reasoning about runs *)
(* ===================================================================== *)

(** [wp m s Q]: running [m] from [s] ends in an outcome and a state that
    satisfy [Q]. *)
Definition wp {St A} (m : M St A) (s : St) (Q : res A -> St -> Prop) : Prop :=
  Q (m s).1 (m s).2.

(** Dimension sizes are never negative (§3 of the specification). *)
Definition well_formed {scalar} (t : Tensor scalar) : Prop :=
  Forall (fun n => 0 <= n) (sizes t).

(** The storage of a tensor holds its elements. *)
Definition holds_its_elements {scalar} (t : Tensor scalar) : Prop :=
  length (data t) = Z.to_nat (numel t).

(** A shape whose element count, with every dimension taken as at least
    one, is an [int64_t]: no product of its sizes wraps around. *)
Definition fits_int64 (sz : list Z) : Prop :=
  foldr (fun n acc => Z.max n 1 * acc) 1 sz <= int64_max.

(** §3 and §4.1 of the specification, forward: what a call must satisfy
    to be accepted.  The input is a tensor and the output size a pair of
    non-negative integers (§3), and the four conditions of §4.1 hold.  It is
    compared with [adaptive_avg_pool2d_out_cpu_template] below. *)
Definition forward_contract {scalar} (input output : Tensor scalar)
    (output_size : list Z) : Prop :=
  length output_size = 2%nat /\
  (dim input = 3 \/ dim input = 4) /\
  (exists h, size input (-2) = Ok h /\ 0 < h) /\
  (exists w, size input (-1) = Ok w /\ 0 < w) /\
  dtype input = dtype output /\
  well_formed input /\
  Forall (fun n => 0 <= n) output_size.

(** §4.2 of the specification: the planned output shape. *)
Definition planned_output_shape {scalar} (input : Tensor scalar)
    (output_size : list Z) : list Z :=
  let channels := default 0 (sizes input !! Z.to_nat (dim input - 3)) in
  let batch := default 0 (sizes input !! 0%nat) in
  if dim input =? 3 then channels :: output_size
  else batch :: channels :: output_size.

(** What a backward call must satisfy to be accepted: the checks of
    [adaptive_avg_pool2d_backward_out_cpu_template], on an input that is
    a tensor (§3). *)
Definition backward_contract {scalar} (grad_input grad_output input : Tensor scalar)
    : Prop :=
  (forall i, 1 <= i < dim grad_output ->
     0 < default 0 (sizes grad_output !! Z.to_nat i)) /\
  (dim grad_output = 3 \/ dim grad_output = 4) /\
  dtype input = dtype grad_output /\
  dtype input = dtype grad_input /\
  well_formed input.

(** The check of one dimension of [grad_output] in the backward loop. *)
Definition non_empty_dim {scalar} (grad_output : Tensor scalar) (i : Z) : bool :=
  0 <? default 0 (sizes grad_output !! Z.to_nat i).

(** The strides that [empty_tensor_restride] gives to a tensor of sizes
    [sz]. *)
Definition memory_format_strides (fmt : MemoryFormat) (sz : list Z) : list Z :=
  match fmt with
  | ChannelsLast => channels_last_strides_2d sz
  | ChannelsLast3d => channels_last_strides_3d sz
  | _ => contiguous_strides sz
  end.

Section Outcomes.
Context {scalar : Type} `{!Externals scalar}.

(** What [at::empty({0}, input.options())] allocates. *)
Definition empty_like (tin : Tensor scalar) : Tensor scalar :=
  mkTensor [0] (contiguous_strides [0]) (dtype tin) (device tin) (layout tin) false
    (replicate (Z.to_nat (numel_of [0])) uninitialized).

(** The output of an accepted forward call once it is resized, and the
    store and log the call leaves. *)
Definition forward_resized (tin tout : Tensor scalar) (output_size : list Z)
    : Tensor scalar :=
  let t1 := resized tout (planned_output_shape tin output_size) in
  if dim tin =? 3 then t1
  else with_strides t1
         (memory_format_strides (suggest_memory_format tin) (sizes t1)).

Definition forward_world (w : World scalar) (input output : TensorRef)
    (tin tout : Tensor scalar) (output_size : list Z) : World scalar :=
  let out := forward_resized tin tout output_size in
  if numel out =? 0 then mkWorld (<[output := out]> (tensors w)) (kernel_calls w)
  else
    let seen := if decide (input = output) then out else tin in
    mkWorld
      (<[output := with_data out (adaptive_avg_pool2d_kernel_cpu out seen output_size)]>
         (tensors w))
      (kernel_calls w ++ [adaptive_avg_pool2d_kernel_call out seen output_size]).

(** The gradient tensor of an accepted backward call once it is resized
    and zeroed, and the store and log the call leaves. *)
Definition backward_zeroed (tin tgi : Tensor scalar) : Tensor scalar :=
  let t1 := resized tgi (sizes tin) in
  let t2 := with_strides t1
              (memory_format_strides (suggest_memory_format tin) (sizes t1)) in
  with_data t2 (replicate (length (data t2)) zero).

Definition backward_world (w : World scalar) (grad_input grad_output : TensorRef)
    (tin tgi tgo : Tensor scalar) : World scalar :=
  let z := backward_zeroed tin tgi in
  let seen := if decide (grad_output = grad_input) then z else tgo in
  mkWorld
    (<[grad_input := with_data z (adaptive_avg_pool2d_backward_kernel_cpu z seen)]>
       (tensors w))
    (kernel_calls w ++ [adaptive_avg_pool2d_backward_kernel_call z seen]).
End Outcomes.


Section ProfilerOutcomes.
Context {IValue TypePtr ThreadLocalState : Type}.
Local Abbreviation Profiler' := (@Profiler IValue TypePtr ThreadLocalState).

(** What [RecordFunction::end()] makes of a record function, and the
    callbacks it runs under the thread-local state [t]. *)
Definition ended (rf : RecordFunction) : RecordFunction :=
  mkRecordFunction (scope rf) (name rf) false.

Definition end_events (rf : RecordFunction) (t : ThreadLocalState)
    : list (@Event IValue ThreadLocalState) :=
  if running rf then [end_callbacks (scope rf) (name rf) t] else [].

(** What [Future::value()] does with a resolved future. *)
Definition outcome_of (r : @resolution IValue) : res IValue :=
  match r with
  | resolved_value v => Ok v
  | resolved_error e => Err e
  end.

(** The profiler after [enter(nm)] on a holder that owned [old]. *)
Definition after_enter (p : Profiler') (this : HolderRef)
    (old : option RecordFunction) (nm : string) : Profiler' :=
  mkProfiler
    (<[this := mkHolder (Some (mkRecordFunction USER_SCOPE nm true))]> (holders p))
    (futures p) (tls p)
    (history p ++
       match old with Some rf => end_events rf (tls p) | None => [] end ++
       [start_callbacks USER_SCOPE nm (tls p)]).

(** The profiler after [exit()] on a holder that owns [rf]. *)
Definition after_exit (p : Profiler') (this : HolderRef) (rf : RecordFunction)
    : Profiler' :=
  mkProfiler (<[this := mkHolder (Some (ended rf))]> (holders p))
    (futures p) (tls p) (history p ++ end_events rf (tls p)).

(** The profiler after the continuation of [_call_end_callbacks_on_fut]
    ran: the record function of [holder] was ended under the captured
    thread-local state [captured], then [childFut] was resolved with
    [r]. *)
Definition after_continuation (p : Profiler') (holder : HolderRef)
    (rf : RecordFunction) (captured : ThreadLocalState)
    (childFut : FutureRef) (type : TypePtr) (r : resolution) : Profiler' :=
  mkProfiler (<[holder := mkHolder (Some (ended rf))]> (holders p))
    (<[childFut := mkFuture (Some r) [] type]> (futures p))
    (tls p)
    (history p ++ end_events rf captured ++ [future_resolved childFut r]).
End ProfilerOutcomes.

(** A profiler with a holder that was never entered (0), a holder with a
    running scope (1), a future resolved with a value (0), a pending
    future (1) and a future resolved with an error (2). *)
Definition sample_profiler : @Profiler Z unit nat :=
  mkProfiler
    [ mkHolder None; mkHolder (Some (mkRecordFunction USER_SCOPE "forward" true)) ]
    [ mkFuture (Some (resolved_value 42)) [] tt;
      mkFuture None [] tt;
      mkFuture (Some (resolved_error (OtherException "rpc failed"))) [] tt ]
    0%nat
    [ start_callbacks USER_SCOPE "forward" 0%nat ].

(* ===================================================================== *)
(** * Sample data *)
(* ===================================================================== *)

(** Integer elements and kernels that fill their output with ones: enough
    to run the functions above on concrete tensors.  [mean] over the two
    trailing dimensions needs a tensor that has them. *)
Definition sample_externals : Externals Z := {|
  zero := 0;
  uninitialized := -1;
  adaptive_avg_pool2d_kernel_cpu := fun o _ _ => replicate (length (data o)) 1;
  adaptive_avg_pool2d_backward_kernel_cpu := fun gi _ => replicate (length (data gi)) 1;
  at_mean := fun t _ _ =>
    match maybe_wrap_dim (-2) (dim t) with
    | Ok _ =>
        let sz := take (length (sizes t) - 2) (sizes t) ++ [1; 1] in
        Ok (mkTensor sz (contiguous_strides sz) (dtype t) (device t) (layout t)
              (quantized t) (replicate (Z.to_nat (numel_of sz)) 0))
    | Err e => Err e
    | OutOfFuel => OutOfFuel
    end;
  at_mkldnn_adaptive_avg_pool2d := fun _ _ => Err (OtherException "mkldnn");
  adaptive_avg_pool2d_other_backend := fun _ _ => Err (OtherException "backend")
|}.

Definition sample_tensor (sz : list Z) (dt : ScalarType) : Tensor Z :=
  mkTensor sz (contiguous_strides sz) dt CPU Strided false
    (replicate (Z.to_nat (numel_of sz)) 7).

Definition sample_channels_last : Tensor Z :=
  with_strides (sample_tensor [2; 3; 4; 4] Float) (channels_last_strides_2d [2; 3; 4; 4]).

(** Tensor 0 is an input [2,3,4,4], tensor 1 an empty tensor as [at::empty]
    makes it, tensor 2 a gradient [2,3,2,2], tensor 3 a gradient with an
    empty channel dimension, tensor 4 a tensor of another dtype, tensor 5 a
    channels-last input. *)
Definition sample_world : World Z :=
  mkWorld
    [ sample_tensor [2; 3; 4; 4] Float;
      sample_tensor [0] Float;
      sample_tensor [2; 3; 2; 2] Float;
      sample_tensor [2; 0; 2; 2] Float;
      sample_tensor [5] Double;
      sample_channels_last ]
    [].

(* ===================================================================== *)
(** * What the profiler operations keep *)
(* ===================================================================== *)

Section ProfilerInvariant.
Context {IValue TypePtr ThreadLocalState : Type}.

(** [profiler_kept p p']: from [p] to [p'] the thread-local state is the
    same, every future that was resolved has the resolution it had, and
    every holder whose record function was set still has one. *)
Definition profiler_kept (p p' : @Profiler IValue TypePtr ThreadLocalState) : Prop :=
  tls p' = tls p /\
  (forall i f r,
     futures p !! i = Some f -> resolution_ f = Some r ->
     exists f', futures p' !! i = Some f' /\ resolution_ f' = Some r) /\
  (forall i h rf,
     holders p !! i = Some h -> record_function_ h = Some rf ->
     exists h' rf', holders p' !! i = Some h' /\ record_function_ h' = Some rf').

(** ** The JIT operator [profiler::_call_end_callbacks_on_jit_fut] *)

(** What the operator finds on the interpreter stack: a future, a custom
    class object holding a [RecordFunctionHolder], or any other value. *)
Inductive StackValue :=
  | sv_future (fut : FutureRef)
  | sv_holder (holder : option HolderRef)
  | sv_other (v : IValue).

(** What the operator works on: the interpreter stack, which it pops and
    pushes in place, and the profiler. *)
Record Interpreter := mkInterpreter {
  stack : list StackValue;
  profiler : @Profiler IValue TypePtr ThreadLocalState
}.

(** [jit::Stack] is a vector; its top is its last element.  [jit::pop]
    takes the last element off the caller's stack and returns it; on an
    empty stack the C++ is not defined and the model throws. *)
Definition jit_pop : M Interpreter StackValue :=
  fun s => match reverse (stack s) with
           | [] => (Err (OtherException "pop from an empty stack"), s)
           | x :: rest => (Ok x, mkInterpreter (reverse rest) (profiler s))
           end.

Definition jit_push (x : StackValue) : M Interpreter unit :=
  fun s => (Ok tt, mkInterpreter (stack s ++ [x]) (profiler s)).

(** [IValue::toFuture()] and [IValue::toCustomClass<RecordFunctionHolder>()]
    throw on a value of another kind. *)
Definition toFuture (x : StackValue) : M Interpreter FutureRef :=
  match x with
  | sv_future fut => ret fut
  | _ => throw (OtherException "Expected Future")
  end.

Definition toCustomClass_RecordFunctionHolder (x : StackValue)
    : M Interpreter (option HolderRef) :=
  match x with
  | sv_holder holder => ret holder
  | _ => throw (OtherException "Expected RecordFunctionHolder")
  end.

(** A function of this file, called from the interpreter: it does not
    see the stack. *)
Definition with_profiler {A}
    (m : M (@Profiler IValue TypePtr ThreadLocalState) A) : M Interpreter A :=
  fun s => match m (profiler s) with
           | (r, p) => (r, mkInterpreter (stack s) p)
           end.

(** The lambda registered in [reg_fut_ops]. *)
Definition _call_end_callbacks_on_jit_fut (fuel : nat) : M Interpreter unit :=
  let* top := jit_pop in
  let* fut := toFuture top in
  let* next := jit_pop in
  let* record_function_holder := toCustomClass_RecordFunctionHolder next in
  let* profiledFut :=
    with_profiler (_call_end_callbacks_on_fut fuel record_function_holder fut) in
  jit_push (sv_future profiledFut).
End ProfilerInvariant.


(** ** Further sample data *)

(** A rank-5 input [2,3,4,4,4]. *)
Definition sample_volume : Tensor Z := sample_tensor [2; 3; 4; 4; 4] Float.

(** An opaque MKL-DNN tensor [2,3,4,4]. *)
Definition sample_mkldnn : Tensor Z :=
  mkTensor [2; 3; 4; 4] (contiguous_strides [2; 3; 4; 4]) Float CPU Mkldnn false [].

(** Two holders with running scopes and one pending future. *)
Definition sample_scopes : @Profiler Z unit nat :=
  mkProfiler
    [ mkHolder (Some (mkRecordFunction USER_SCOPE "outer" true));
      mkHolder (Some (mkRecordFunction USER_SCOPE "inner" true)) ]
    [ mkFuture None [] tt ]
    0%nat
    [ start_callbacks USER_SCOPE "outer" 0%nat;
      start_callbacks USER_SCOPE "inner" 0%nat ].
(* ===================================================================== *)
(** * Proofs: the monad *)
(* ===================================================================== *)

Section MonadRules.
Context {St : Type}.

Lemma wp_run {A} (m : M St A) s Q :
  wp m s Q -> exists r s', m s = (r, s') /\ Q r s'.
Proof. unfold wp. destruct (m s) as [r s']. eauto. Qed.

Lemma wp_of_run {A} (m : M St A) s r s' (Q : res A -> St -> Prop) :
  m s = (r, s') -> Q r s' -> wp m s Q.
Proof. unfold wp. intros ->. auto. Qed.

Lemma wp_ret {A} (a : A) (s : St) Q : Q (Ok a) s -> wp (ret a) s Q.
Proof. auto. Qed.

Lemma wp_throw {A} e (s : St) (Q : res A -> St -> Prop) :
  Q (Err e) s -> wp (throw e) s Q.
Proof. auto. Qed.

Lemma wp_lift_res {A} (r : res A) (s : St) Q : Q r s -> wp (lift_res r) s Q.
Proof. auto. Qed.

Lemma wp_bind {A B} (m : M St A) (f : A -> M St B) s Q :
  wp m s (fun r s' => match r with
                      | Ok a => wp (f a) s' Q
                      | Err e => Q (Err e) s'
                      | OutOfFuel => Q OutOfFuel s'
                      end) ->
  wp (bind m f) s Q.
Proof. unfold wp, bind. destruct (m s) as [[a|e|] s']; auto. Qed.

Lemma wp_mono {A} (m : M St A) s (Q Q' : res A -> St -> Prop) :
  wp m s Q -> (forall r s', Q r s' -> Q' r s') -> wp m s Q'.
Proof. unfold wp. auto. Qed.

Lemma wp_TORCH_CHECK (cond : bool) (msg : M St message) s Q :
  (cond = true -> Q (Ok tt) s) ->
  (cond = false ->
   wp msg s (fun r s' => match r with
                         | Ok m => Q (Err (TorchCheck m)) s'
                         | Err e => Q (Err e) s'
                         | OutOfFuel => Q OutOfFuel s'
                         end)) ->
  wp (TORCH_CHECK cond msg) s Q.
Proof.
  destruct cond; intros Ht Hf; unfold TORCH_CHECK.
  - apply wp_ret; auto.
  - apply wp_bind. eapply wp_mono; [apply Hf; reflexivity|].
    intros [m|e|] s'; auto.
Qed.

(** A loop of checks that all pass leaves the state alone. *)
Lemma for_each_pass {A} (l : list A) (body : A -> M St unit) s :
  (forall x, x ∈ l -> body x s = (Ok tt, s)) ->
  for_each l body s = (Ok tt, s).
Proof.
  induction l as [|x l IH]; intros Hall; [reflexivity|].
  cbn [for_each]. unfold bind. rewrite Hall by apply list_elem_of_here.
  apply IH. intros y Hy. apply Hall. by apply list_elem_of_further.
Qed.

(** A loop of checks stops at the first one that fails. *)
Lemma for_each_stop {A} (l1 l2 : list A) x (body : A -> M St unit) s e s' :
  (forall y, y ∈ l1 -> body y s = (Ok tt, s)) ->
  body x s = (Err e, s') ->
  for_each (l1 ++ x :: l2) body s = (Err e, s').
Proof.
  induction l1 as [|y l1 IH]; intros Hall Hx; cbn [for_each app]; unfold bind.
  - by rewrite Hx.
  - rewrite Hall by apply list_elem_of_here.
    apply IH; [|done]. intros z Hz. apply Hall. by apply list_elem_of_further.
Qed.
End MonadRules.

(* ===================================================================== *)
(** * Proofs: AdaptiveAveragePooling.cpp *)
(* ===================================================================== *)

Section PoolingProofs.
Context {scalar : Type} `{!Externals scalar}.
Implicit Types (w : World scalar) (t tin tout tgi tgo : Tensor scalar).

Lemma wp_get_tensor w r t Q :
  tensors w !! r = Some t -> Q (Ok t) w -> wp (get_tensor r) w Q.
Proof. unfold wp, get_tensor. intros ->. auto. Qed.

Lemma wp_set_tensor w r t (Q : res unit -> World scalar -> Prop) :
  Q (Ok tt) (mkWorld (<[r := t]> (tensors w)) (kernel_calls w)) ->
  wp (set_tensor r t) w Q.
Proof. auto. Qed.

Lemma wp_new_tensor w t (Q : res TensorRef -> World scalar -> Prop) :
  Q (Ok (length (tensors w))) (mkWorld (tensors w ++ [t]) (kernel_calls w)) ->
  wp (new_tensor t) w Q.
Proof. auto. Qed.

Lemma wp_record_call w c (Q : res unit -> World scalar -> Prop) :
  Q (Ok tt) (mkWorld (tensors w) (kernel_calls w ++ [c])) ->
  wp (record_call c) w Q.
Proof. auto. Qed.

Lemma wp_check_pass {St} (cond : bool) (msg : M St message) s Q :
  cond = true -> Q (Ok tt) s -> wp (TORCH_CHECK cond msg) s Q.
Proof. intros ->. auto. Qed.

Lemma wp_equation {St A} (m : M St A) s r s' :
  wp m s (fun r0 s0 => r0 = r /\ s0 = s') -> m s = (r, s').
Proof. unfold wp. destruct (m s); cbn. by intros [-> ->]. Qed.

Lemma size_of_rank3 t c h wd :
  sizes t = [c; h; wd] ->
  dim t = 3 /\ size t (-3) = Ok c /\ size t (-2) = Ok h /\ size t (-1) = Ok wd.
Proof. intros E. unfold size, dim. rewrite E. cbn. auto. Qed.

Lemma size_of_rank4 t n c h wd :
  sizes t = [n; c; h; wd] ->
  dim t = 4 /\ size t 0 = Ok n /\ size t (-3) = Ok c /\
  size t (-2) = Ok h /\ size t (-1) = Ok wd.
Proof. intros E. unfold size, dim. rewrite E. cbn. auto. Qed.

Lemma rank3_sizes t : dim t = 3 -> exists c h wd, sizes t = [c; h; wd].
Proof.
  unfold dim. destruct (sizes t) as [|c [|h [|wd [|? ?]]]]; cbn; try lia. eauto.
Qed.

Lemma rank4_sizes t : dim t = 4 -> exists n c h wd, sizes t = [n; c; h; wd].
Proof.
  unfold dim. destruct (sizes t) as [|n [|c [|h [|wd [|? [|? ?]]]]]]; cbn; try lia. eauto.
Qed.

(** Channels-last is only ever suggested for rank 4, its 3-d variant for
    rank 5, and [Preserve] never. *)
Lemma suggest_memory_format_rank t :
  match suggest_memory_format t with
  | Contiguous => True
  | ChannelsLast => dim t = 4
  | ChannelsLast3d => dim t = 5
  | Preserve => False
  end.
Proof.
  unfold suggest_memory_format, is_strides_like_channels_last,
    is_strides_like_channels_last_3d, dim.
  destruct (bool_decide (layout t = Strided)); [|exact I].
  destruct (length (sizes t)) as [|[|[|[|[|[|?]]]]]]; try exact I.
  - destruct (_ =? 0); [exact I|].
    destruct (channels_last_scan _ _ _ _); [reflexivity|exact I].
  - destruct (_ =? 0); [exact I|].
    destruct (channels_last_scan _ _ _ _); [reflexivity|exact I].
Qed.

Lemma restride_suggested tin t1 :
  dim t1 = dim tin ->
  empty_tensor_restride (suggest_memory_format tin) t1 =
  Ok (with_strides t1 (memory_format_strides (suggest_memory_format tin) (sizes t1))).
Proof.
  intros E. pose proof (suggest_memory_format_rank tin) as R.
  destruct (suggest_memory_format tin); cbn; try done.
  - by rewrite E, R.
  - by rewrite E, R.
Qed.

Lemma sizes_resized t size : sizes (resized t size) = size.
Proof. unfold resized. case_bool_decide; done. Qed.

Lemma dtype_resized t size : dtype (resized t size) = dtype t.
Proof. unfold resized. case_bool_decide; done. Qed.

Lemma non_negative_sizes (size : list Z) :
  forallb (fun n => 0 <=? n) size = true <-> Forall (fun n => 0 <= n) size.
Proof.
  induction size as [|n size IH]; cbn [forallb].
  - split; [constructor|done].
  - rewrite andb_true_iff, IH, Forall_cons, Z.leb_le. tauto.
Qed.

Lemma resize_impl_accepts t size :
  Forall (fun n => 0 <= n) size -> resize_impl_cpu_ t size = Ok (resized t size).
Proof.
  intros H. unfold resize_impl_cpu_. by rewrite (proj2 (non_negative_sizes size) H).
Qed.

Lemma resize_impl_rejects t size :
  ~ Forall (fun n => 0 <= n) size ->
  resize_impl_cpu_ t size = Err (TorchCheck (negative_dimension size)).
Proof.
  intros H. unfold resize_impl_cpu_.
  destruct (forallb _ size) eqn:E; [|done]. by apply non_negative_sizes in E.
Qed.

(** ** int64 element counts *)

Lemma int64_wrap_mul_r n x : int64_wrap (n * int64_wrap x) = int64_wrap (n * x).
Proof.
  unfold int64_wrap. f_equal.
  pose proof (Z.div_mod (x + 2 ^ 63) (2 ^ 64) ltac:(lia)) as E.
  remember ((x + 2 ^ 63) / 2 ^ 64) as q eqn:Hq.
  remember ((x + 2 ^ 63) mod 2 ^ 64) as r eqn:Hr.
  assert (Hx : x = 2 ^ 64 * q + r - 2 ^ 63) by lia.
  rewrite Hx.
  replace (n * (2 ^ 64 * q + r - 2 ^ 63) + 2 ^ 63)
    with (n * (r - 2 ^ 63) + 2 ^ 63 + (n * q) * 2 ^ 64) by ring.
  by rewrite Z_mod_plus_full.
Qed.

Lemma int64_wrap_in_range z : - 2 ^ 63 <= z <= int64_max -> int64_wrap z = z.
Proof.
  unfold int64_wrap, int64_max. intros Hz. rewrite Z.mod_small by lia. lia.
Qed.

(** The element count is the product of the sizes, wrapped once. *)
Lemma numel_of_product (sz : list Z) : numel_of sz = int64_wrap (foldr Z.mul 1 sz).
Proof.
  induction sz as [|n sz IH]; [reflexivity|].
  cbn [numel_of foldr]. fold (numel_of sz). by rewrite IH, int64_wrap_mul_r.
Qed.

Lemma product_below_fits (sz : list Z) :
  Forall (fun n => 0 <= n) sz ->
  0 <= foldr Z.mul 1 sz <= foldr (fun n acc => Z.max n 1 * acc) 1 sz.
Proof.
  induction 1 as [|n sz Hn _ IH]; cbn [foldr]; [lia|]. nia.
Qed.

Lemma numel_of_fits (sz : list Z) :
  Forall (fun n => 0 <= n) sz -> fits_int64 sz -> numel_of sz = foldr Z.mul 1 sz.
Proof.
  intros Hpos Hfits. rewrite numel_of_product.
  pose proof (product_below_fits sz Hpos). unfold fits_int64 in Hfits.
  apply int64_wrap_in_range. unfold int64_max in *. lia.
Qed.

Lemma numel_of_zero (sz : list Z) : 0 ∈ sz -> numel_of sz = 0.
Proof.
  intros Hz. rewrite numel_of_product.
  enough (foldr Z.mul 1 sz = 0) as -> by reflexivity.
  induction sz as [|n sz IH]; [by apply elem_of_nil in Hz|].
  cbn [foldr]. apply elem_of_cons in Hz as [<- | Hz]; [lia|]. rewrite IH by done. lia.
Qed.

Ltac lookup_tac :=
  cbn [tensors kernel_calls];
  first
    [ eassumption
    | rewrite list_lookup_insert_eq
        by (rewrite ?length_insert; eapply lookup_lt_Some; eassumption);
      reflexivity
    | rewrite list_lookup_insert_ne by assumption; lookup_tac ].

Ltac wp_step :=
  lazymatch goal with
  | |- wp (bind _ _) _ _ => apply wp_bind
  | |- wp (ret _) _ _ => apply wp_ret
  | |- wp (throw _) _ _ => apply wp_throw
  | |- wp (lift_res _) _ _ => apply wp_lift_res
  | |- wp (get_tensor _) _ _ => eapply wp_get_tensor; [lookup_tac|]
  | |- wp (set_tensor _ _) _ _ => apply wp_set_tensor
  | |- wp (new_tensor _) _ _ => apply wp_new_tensor
  | |- wp (record_call _) _ _ => apply wp_record_call
  | |- wp (Tensor_dim _) _ _ => unfold Tensor_dim
  | |- wp (Tensor_sizes _) _ _ => unfold Tensor_sizes
  | |- wp (Tensor_size _ _) _ _ => unfold Tensor_size
  | |- wp (Tensor_dtype _) _ _ => unfold Tensor_dtype
  | |- wp (Tensor_numel _) _ _ => unfold Tensor_numel
  | |- wp (Tensor_options _) _ _ => unfold Tensor_options
  | |- wp (Tensor_suggest_memory_format _) _ _ => unfold Tensor_suggest_memory_format
  | |- wp (Tensor_zero_ _) _ _ => unfold Tensor_zero_
  | |- wp (Tensor_as_strided_ _ _ _) _ _ => unfold Tensor_as_strided_
  | |- wp (Tensor_resize_ _ _ _) _ _ => unfold Tensor_resize_
  | |- wp (adaptive_avg_pool2d_kernel _ _ _) _ _ => unfold adaptive_avg_pool2d_kernel
  | |- wp (adaptive_avg_pool2d_backward_kernel _ _) _ _ =>
      unfold adaptive_avg_pool2d_backward_kernel
  | |- wp (for_each (_ :: _) _) _ _ => cbn [for_each]
  | |- wp (for_each [] _) _ _ => cbn [for_each]
  end; cbn beta iota.

Ltac wp_steps := repeat wp_step; cbn [tensors kernel_calls].

(** A forward call that meets the contract passes every check, resizes
    the output to the planned shape and, unless that shape has no element,
    invokes the kernel once. *)
Lemma forward_accepted w input output tin tout output_size :
  tensors w !! input = Some tin ->
  tensors w !! output = Some tout ->
  forward_contract tin tout output_size ->
  adaptive_avg_pool2d_out_cpu_template output input output_size w =
  (Ok tt, forward_world w input output tin tout output_size).
Proof.
  intros Hin Hout
    (Hlen & Hrank & (h & Hh & Hhpos) & (wd & Hw & Hwpos) & Hdt & Hwf & Hsize).
  destruct output_size as [|oh [|ow [|? ?]]]; try discriminate Hlen.
  assert (0 <= oh /\ 0 <= ow) as [Hoh How].
  { apply Forall_cons in Hsize as [? Hsize]. by apply Forall_cons in Hsize as [? _]. }
  apply wp_equation. unfold adaptive_avg_pool2d_out_cpu_template.
  wp_step. apply wp_check_pass; [reflexivity|]. wp_steps.
  apply wp_check_pass; [destruct Hrank as [-> | ->]; reflexivity|]. wp_steps.
  rewrite Hh. wp_steps. apply wp_check_pass; [lia|]. wp_steps.
  rewrite Hw. wp_steps. apply wp_check_pass; [lia|]. wp_steps.
  apply wp_check_pass; [by apply bool_decide_eq_true|]. wp_steps.
  unfold forward_world, forward_resized, planned_output_shape.
  destruct Hrank as [R | R].
  - destruct (rank3_sizes _ R) as (c & h' & wd' & Hsz).
    destruct (size_of_rank3 _ _ _ _ Hsz) as (_ & H3 & _ & _).
    assert (0 <= c).
    { unfold well_formed in Hwf. rewrite Hsz in Hwf. by apply Forall_cons in Hwf as [? _]. }
    rewrite H3, R, Hsz. cbn [Z.eqb Pos.eqb]. wp_steps.
    change (default 0 ([oh; ow] !! 0%nat)) with oh.
    change (default 0 ([oh; ow] !! 1%nat)) with ow.
    change (default 0 ([c; h'; wd'] !! Z.to_nat (3 - 3))) with c.
    rewrite resize_impl_accepts by (repeat constructor; lia). wp_steps.
    set (out := resized tout [c; oh; ow]).
    destruct (numel out =? 0); wp_steps; [done|].
    destruct (decide (input = output)) as [->|Hne].
    + wp_steps. by rewrite list_insert_insert_eq.
    + assert (output <> input) by congruence.
      wp_steps. by rewrite list_insert_insert_eq.
  - destruct (rank4_sizes _ R) as (n & c & h' & wd' & Hsz).
    destruct (size_of_rank4 _ _ _ _ _ Hsz) as (_ & H0 & H3 & _ & _).
    assert (0 <= n /\ 0 <= c) as [? ?].
    { unfold well_formed in Hwf. rewrite Hsz in Hwf.
      apply Forall_cons in Hwf as [? Hwf]. by apply Forall_cons in Hwf as [? _]. }
    rewrite H3, R, Hsz. cbn [Z.eqb Pos.eqb]. wp_steps.
    rewrite H0. wp_steps.
    change (default 0 ([oh; ow] !! 0%nat)) with oh.
    change (default 0 ([oh; ow] !! 1%nat)) with ow.
    change (default 0 ([n; c; h'; wd'] !! Z.to_nat (4 - 3))) with c.
    change (default 0 ([n; c; h'; wd'] !! 0%nat)) with n.
    rewrite resize_impl_accepts by (repeat constructor; lia). wp_steps.
    set (t1 := resized tout [n; c; oh; ow]).
    rewrite restride_suggested
      by (unfold dim, t1; by rewrite sizes_resized, Hsz).
    wp_steps. rewrite list_insert_insert_eq.
    set (out := with_strides t1 _).
    destruct (numel out =? 0); wp_steps; [done|].
    destruct (decide (input = output)) as [->|Hne].
    + wp_steps. by rewrite list_insert_insert_eq.
    + assert (output <> input) by congruence.
      wp_steps. by rewrite list_insert_insert_eq.
Qed.

Lemma size_in_range t d :
  - dim t <= d < dim t ->
  size t d = Ok (default 0 (sizes t !! Z.to_nat (if d <? 0 then d + dim t else d))).
Proof.
  intros Hd. unfold size, maybe_wrap_dim.
  destruct (Z.leb_spec (dim t) 0); [lia|].
  destruct (Z.leb_spec (- dim t) d); [|lia].
  destruct (Z.ltb_spec d (dim t)); [|lia]. reflexivity.
Qed.

(** A forward call that misses the contract is stopped by one of the
    checks of the template or, when those pass, by [resize_], which
    refuses a planned shape with a negative size; nothing is written. *)
Lemma forward_rejected w input output tin tout output_size :
  tensors w !! input = Some tin ->
  tensors w !! output = Some tout ->
  ~ forward_contract tin tout output_size ->
  exists m,
    adaptive_avg_pool2d_out_cpu_template output input output_size w =
    (Err (TorchCheck m), w).
Proof.
  intros Hin Hout Hnot.
  enough (wp (adaptive_avg_pool2d_out_cpu_template output input output_size) w
            (fun r s' => (exists m, r = Err (TorchCheck m)) /\ s' = w)) as Hwp.
  { apply wp_run in Hwp as (r & s' & Hrun & (m & ->) & ->). eauto. }
  unfold adaptive_avg_pool2d_out_cpu_template.
  wp_step. apply wp_TORCH_CHECK; [intros C1|intros _; wp_steps; eauto].
  wp_steps. apply wp_TORCH_CHECK; [intros C2|intros _; wp_steps; eauto].
  assert (Hrank : dim tin = 3 \/ dim tin = 4) by lia.
  wp_steps. rewrite size_in_range by lia.
  wp_steps. apply wp_TORCH_CHECK; [intros C3|intros _; wp_steps; eauto].
  wp_steps. rewrite size_in_range by lia.
  wp_steps. apply wp_TORCH_CHECK; [intros C4|intros _; wp_steps; eauto].
  wp_steps. apply wp_TORCH_CHECK; [intros C5|intros _; wp_steps; eauto].
  apply bool_decide_eq_true in C1, C5.
  destruct output_size as [|oh [|ow [|? ?]]]; try discriminate C1.
  change (default 0 ([oh; ow] !! 0%nat)) with oh.
  change (default 0 ([oh; ow] !! 1%nat)) with ow.
  assert (Hshape : ~ Forall (fun n => 0 <= n) (planned_output_shape tin [oh; ow])).
  { intros Hall. apply Hnot. unfold forward_contract.
    rewrite !size_in_range by lia.
    split; [done|]. split; [done|]. split; [eauto with lia|]. split; [eauto with lia|].
    split; [done|]. unfold planned_output_shape in Hall.
    destruct Hrank as [R | R].
    - destruct (rank3_sizes _ R) as (c & h' & wd' & Hsz).
      rewrite R, Hsz in Hall, C3, C4. cbn in Hall, C3, C4.
      replace (Z.to_nat (3 - 3)) with 0%nat in Hall by lia.
      replace (Z.to_nat (-2 + 3)) with 1%nat in C3 by lia.
      replace (Z.to_nat (-1 + 3)) with 2%nat in C4 by lia.
      cbn in Hall, C3, C4.
      apply Forall_cons in Hall as [? Hall]. split; [|done].
      unfold well_formed. rewrite Hsz.
      repeat (apply Forall_cons; split); [lia..|constructor].
    - destruct (rank4_sizes _ R) as (n & c & h' & wd' & Hsz).
      rewrite R, Hsz in Hall, C3, C4. cbn in Hall, C3, C4.
      replace (Z.to_nat (4 - 3)) with 1%nat in Hall by lia.
      replace (Z.to_nat (-2 + 4)) with 2%nat in C3 by lia.
      replace (Z.to_nat (-1 + 4)) with 3%nat in C4 by lia.
      cbn in Hall, C3, C4.
      apply Forall_cons in Hall as [? Hall]. apply Forall_cons in Hall as [? Hall].
      split; [|done].
      unfold well_formed. rewrite Hsz.
      repeat (apply Forall_cons; split); [lia..|constructor]. }
  wp_steps. rewrite size_in_range by lia. wp_steps.
  unfold planned_output_shape in Hshape.
  destruct Hrank as [R | R]; rewrite R in Hshape |- *; cbn [Z.eqb Pos.eqb] in Hshape |- *.
  - wp_steps. rewrite resize_impl_rejects by done. eauto.
  - wp_steps. rewrite size_in_range by lia. wp_steps.
    rewrite resize_impl_rejects by done. eauto.
Qed.

(** ** The backward checks *)

(** A loop of checks over [c10::irange]: either every check passes, or the
    loop throws at the first index whose check fails. *)
Lemma for_each_irange_cases {St} (P : Z -> bool) (err : Z -> error)
    (body : Z -> M St unit) (s : St) (n : nat) (b : Z) :
  (forall k, b <= k < b + Z.of_nat n ->
     body k s = if P k then (Ok tt, s) else (Err (err k), s)) ->
  (for_each (seqZ b (Z.of_nat n)) body s = (Ok tt, s) /\
   forall k, b <= k < b + Z.of_nat n -> P k = true) \/
  (exists k, b <= k < b + Z.of_nat n /\ P k = false /\
     (forall j, b <= j < k -> P j = true) /\
     for_each (seqZ b (Z.of_nat n)) body s = (Err (err k), s)).
Proof.
  revert b. induction n as [|n IH]; intros b Hbody.
  - left. split; [reflexivity|]. intros k Hk. lia.
  - rewrite seqZ_cons by lia.
    replace (Z.pred (Z.of_nat (S n))) with (Z.of_nat n) by lia.
    cbn [for_each]. unfold bind. rewrite Hbody by lia.
    destruct (P b) eqn:Pb.
    + destruct (IH (Z.succ b)) as [[Hrun Hall] | (k & Hk & Pk & Hmin & Hrun)].
      * intros k Hk. apply Hbody. lia.
      * left. split; [done|]. intros k Hk.
        destruct (decide (k = b)) as [->|]; [done|]. apply Hall. lia.
      * right. exists k. split; [lia|]. split; [done|]. split; [|done].
        intros j Hj. destruct (decide (j = b)) as [->|]; [done|].
        apply Hmin. lia.
    + right. exists b. split; [lia|]. split; [done|]. split; [|done].
      intros j Hj. lia.
Qed.

Lemma backward_dimension_check w grad_output tgo i :
  tensors w !! grad_output = Some tgo ->
  1 <= i < dim tgo ->
  (let* size_i := Tensor_size grad_output i in
   TORCH_CHECK (0 <? size_i)
     (let* sz := Tensor_sizes grad_output in
      ret (backward_grad_output_non_zero_size sz i))) w =
  if non_empty_dim tgo i then (Ok tt, w)
  else (Err (TorchCheck (backward_grad_output_non_zero_size (sizes tgo) i)), w).
Proof.
  intros Hgo Hi. unfold non_empty_dim.
  destruct (0 <? default 0 (sizes tgo !! Z.to_nat i)) eqn:E;
    apply wp_equation; wp_steps; rewrite size_in_range by lia;
    destruct (Z.ltb_spec i 0); try lia; wp_steps; rewrite E.
  - by apply wp_check_pass.
  - apply wp_TORCH_CHECK; [done|]. intros _. wp_steps. done.
Qed.

Lemma backward_dimension_loop w grad_output tgo :
  tensors w !! grad_output = Some tgo ->
  (for_each (irange 1 (dim tgo)) (fun i =>
     let* size_i := Tensor_size grad_output i in
     TORCH_CHECK (0 <? size_i)
       (let* sz := Tensor_sizes grad_output in
        ret (backward_grad_output_non_zero_size sz i))) w = (Ok tt, w) /\
   forall k, 1 <= k < dim tgo -> non_empty_dim tgo k = true) \/
  (exists k, 1 <= k < dim tgo /\ non_empty_dim tgo k = false /\
     (forall j, 1 <= j < k -> non_empty_dim tgo j = true) /\
     for_each (irange 1 (dim tgo)) (fun i =>
       let* size_i := Tensor_size grad_output i in
       TORCH_CHECK (0 <? size_i)
         (let* sz := Tensor_sizes grad_output in
          ret (backward_grad_output_non_zero_size sz i))) w =
     (Err (TorchCheck (backward_grad_output_non_zero_size (sizes tgo) k)), w)).
Proof.
  intros Hgo. unfold irange.
  destruct (Z.le_gt_cases (dim tgo) 1) as [Hsmall|Hbig].
  - left. rewrite seqZ_nil by lia. split; [reflexivity|]. intros k Hk. lia.
  - replace (dim tgo - 1) with (Z.of_nat (Z.to_nat (dim tgo - 1))) by lia.
    destruct (for_each_irange_cases (non_empty_dim tgo)
                (fun i => TorchCheck (backward_grad_output_non_zero_size (sizes tgo) i))
                (fun i =>
                   let* size_i := Tensor_size grad_output i in
                   TORCH_CHECK (0 <? size_i)
                     (let* sz := Tensor_sizes grad_output in
                      ret (backward_grad_output_non_zero_size sz i)))
                w (Z.to_nat (dim tgo - 1)) 1)
      as [[Hrun Hall] | (k & Hk & Pk & Hmin & Hrun)].
    + intros k Hk. apply backward_dimension_check; [done|lia].
    + left. split; [done|]. intros k Hk. apply Hall. lia.
    + right. exists k. split; [lia|]. split; [done|]. split; [|done].
      intros j Hj. apply Hmin. lia.
Qed.

(** A backward call that meets the checks resizes the gradient to the
    sizes and the suggested memory format of the input, zeroes it, and
    invokes the backward kernel once. *)
Lemma backward_accepted w grad_input grad_output input tgi tgo tin :
  tensors w !! grad_input = Some tgi ->
  tensors w !! grad_output = Some tgo ->
  tensors w !! input = Some tin ->
  backward_contract tgi tgo tin ->
  adaptive_avg_pool2d_backward_out_cpu_template grad_input grad_output input w =
  (Ok grad_input, backward_world w grad_input grad_output tin tgi tgo).
Proof.
  intros Hgi Hgo Hin (Hdims & Hrank & Hdt1 & Hdt2 & Hwf).
  apply wp_equation. unfold adaptive_avg_pool2d_backward_out_cpu_template.
  wp_steps.
  destruct (backward_dimension_loop w grad_output tgo Hgo)
    as [[Hrun _] | (k & Hk & Pk & _ & _)].
  2:{ specialize (Hdims k Hk). unfold non_empty_dim in Pk. lia. }
  eapply wp_of_run; [exact Hrun|]. cbn beta iota. wp_steps.
  apply wp_check_pass; [destruct Hrank as [-> | ->]; reflexivity|]. wp_steps.
  apply wp_check_pass; [by apply bool_decide_eq_true|]. wp_steps.
  apply wp_check_pass; [by apply bool_decide_eq_true|]. wp_steps.
  rewrite resize_impl_accepts by done. wp_steps.
  rewrite restride_suggested by (unfold dim; by rewrite sizes_resized).
  wp_steps. unfold backward_world, backward_zeroed.
  set (t2 := with_strides _ _).
  destruct (decide (grad_output = grad_input)) as [->|Hne].
  - wp_steps. by rewrite !list_insert_insert_eq.
  - assert (grad_input <> grad_output) by congruence.
    wp_steps. by rewrite !list_insert_insert_eq.
Qed.

(** A backward call that misses the contract is stopped by one of the
    checks or, when those pass, by [resize_], before anything is
    written. *)
Lemma backward_rejected w grad_input grad_output input tgi tgo tin :
  tensors w !! grad_input = Some tgi ->
  tensors w !! grad_output = Some tgo ->
  tensors w !! input = Some tin ->
  ~ backward_contract tgi tgo tin ->
  exists m,
    adaptive_avg_pool2d_backward_out_cpu_template grad_input grad_output input w =
    (Err (TorchCheck m), w).
Proof.
  intros Hgi Hgo Hin Hnot.
  enough (wp (adaptive_avg_pool2d_backward_out_cpu_template grad_input grad_output input)
            w (fun r s' => (exists m, r = Err (TorchCheck m)) /\ s' = w)) as Hwp.
  { apply wp_run in Hwp as (r & s' & Hrun & (m & ->) & ->). eauto. }
  unfold adaptive_avg_pool2d_backward_out_cpu_template. wp_steps.
  destruct (backward_dimension_loop w grad_output tgo Hgo)
    as [[Hrun Hall] | (k & Hk & Pk & _ & Hrun)];
    (eapply wp_of_run; [exact Hrun|]); cbn beta iota; [|eauto].
  wp_steps. apply wp_TORCH_CHECK; [intros C1|intros _; wp_steps; eauto].
  wp_steps. apply wp_TORCH_CHECK; [intros C2|intros _; wp_steps; eauto].
  wp_steps. apply wp_TORCH_CHECK; [intros C3|intros _; wp_steps; eauto].
  apply bool_decide_eq_true in C2, C3. wp_steps.
  rewrite resize_impl_rejects; [eauto|].
  intros Hwf. apply Hnot.
  repeat split; try done; try lia.
  intros i Hi. specialize (Hall i Hi). unfold non_empty_dim in Hall. lia.
Qed.

(** ** The claims about the forward pass *)

Lemma sizes_forward_resized tin tout output_size :
  sizes (forward_resized tin tout output_size) = planned_output_shape tin output_size.
Proof.
  unfold forward_resized. destruct (dim tin =? 3); cbn; apply sizes_resized.
Qed.

Lemma forward_world_output w input output tin tout output_size :
  tensors w !! output = Some tout ->
  exists t',
    tensors (forward_world w input output tin tout output_size) !! output = Some t' /\
    sizes t' = planned_output_shape tin output_size.
Proof.
  intros Hout. apply lookup_lt_Some in Hout. unfold forward_world.
  destruct (numel _ =? 0); cbn [tensors]; rewrite list_lookup_insert_eq by done;
    eexists; (split; [reflexivity|]); cbn; apply sizes_forward_resized.
Qed.

Lemma planned_output_shape_rank3 tin c oh ow :
  dim tin = 3 -> size tin (-3) = Ok c ->
  planned_output_shape tin [oh; ow] = [c; oh; ow].
Proof.
  intros R H3. destruct (rank3_sizes _ R) as (c' & h' & wd' & Hsz).
  destruct (size_of_rank3 _ _ _ _ Hsz) as (_ & H3' & _).
  unfold planned_output_shape. rewrite R, Hsz.
  replace c with c' by congruence. reflexivity.
Qed.

Lemma planned_output_shape_rank4 tin n c oh ow :
  dim tin = 4 -> size tin 0 = Ok n -> size tin (-3) = Ok c ->
  planned_output_shape tin [oh; ow] = [n; c; oh; ow].
Proof.
  intros R H0 H3. destruct (rank4_sizes _ R) as (n' & c' & h' & wd' & Hsz).
  destruct (size_of_rank4 _ _ _ _ _ Hsz) as (_ & H0' & H3' & _).
  unfold planned_output_shape. rewrite R, Hsz.
  replace c with c' by congruence. replace n with n' by congruence. reflexivity.
Qed.

(** The planned shape, written out for the two ranks. *)
Lemma planned_output_shape_explicit tin oh ow t' :
  sizes t' = planned_output_shape tin [oh; ow] ->
  (dim tin = 3 -> exists c, size tin (-3) = Ok c /\ sizes t' = [c; oh; ow]) /\
  (dim tin = 4 -> exists n c, size tin 0 = Ok n /\ size tin (-3) = Ok c /\
                              sizes t' = [n; c; oh; ow]).
Proof.
  intros Ht'. split; intros R.
  - eexists. split; [apply size_in_range; lia|].
    rewrite Ht'. apply planned_output_shape_rank3; [done|].
    apply size_in_range; lia.
  - do 2 eexists. split; [apply size_in_range; lia|].
    split; [apply size_in_range; lia|].
    rewrite Ht'. apply planned_output_shape_rank4; [done| |];
      apply size_in_range; lia.
Qed.

(** The allocating entry point runs the template on a fresh tensor of
    the input's dtype. *)
Lemma adaptive_avg_pool2d_cpu_run w input tin output_size :
  tensors w !! input = Some tin ->
  adaptive_avg_pool2d_cpu input output_size w =
  (let w1 := mkWorld (tensors w ++ [empty_like tin]) (kernel_calls w) in
   let output := length (tensors w) in
   match adaptive_avg_pool2d_out_cpu_template output input output_size w1 with
   | (Ok _, w') => (Ok output, w')
   | (Err e, w') => (Err e, mkWorld (take output (tensors w')) (kernel_calls w'))
   | (OutOfFuel, w') => (OutOfFuel, w')
   end).
Proof.
  intros Hin. unfold adaptive_avg_pool2d_cpu, Tensor_options, at_empty, bind at 1 2.
  unfold get_tensor at 1. rewrite Hin. cbn. unfold in_scope_of, try_catch, bind.
  fold (empty_like tin).
  by destruct (adaptive_avg_pool2d_out_cpu_template _ _ _ _) as [[[]|e|] w'].
Qed.

(** What unwinding leaves of a store whose tensors are all in place but
    for the local one. *)
Lemma released_local w t :
  mkWorld (take (length (tensors w)) (tensors w ++ [t])) (kernel_calls w) = w.
Proof. rewrite take_app_length. by destruct w. Qed.

(** C1.  A valid forward call (an input tensor, which has no negative
    size, of rank 3 or 4, both trailing dimensions positive, an output size
    [outH, outW] of two non-negative elements) returns, and its output has
    shape [C, outH, outW] for a rank-3 input and [N, C, outH, outW] for a
    rank-4 input, where C = input.size(-3) and N = input.size(0).  This
    holds for the entry point that writes into a supplied output of the
    input's dtype and for the one that allocates its output. *)
Theorem adaptive_avg_pool2d_output_shape w input tin h wd oh ow :
  tensors w !! input = Some tin ->
  well_formed tin ->
  dim tin = 3 \/ dim tin = 4 ->
  size tin (-2) = Ok h -> 0 < h ->
  size tin (-1) = Ok wd -> 0 < wd ->
  0 <= oh -> 0 <= ow ->
  (forall output tout,
     tensors w !! output = Some tout -> dtype tin = dtype tout ->
     exists w' t',
       adaptive_avg_pool2d_out_cpu input [oh; ow] output w = (Ok output, w') /\
       tensors w' !! output = Some t' /\
       (dim tin = 3 -> exists c, size tin (-3) = Ok c /\ sizes t' = [c; oh; ow]) /\
       (dim tin = 4 -> exists n c, size tin 0 = Ok n /\ size tin (-3) = Ok c /\
                                   sizes t' = [n; c; oh; ow])) /\
  (exists output w' t',
     adaptive_avg_pool2d_cpu input [oh; ow] w = (Ok output, w') /\
     tensors w' !! output = Some t' /\
     (dim tin = 3 -> exists c, size tin (-3) = Ok c /\ sizes t' = [c; oh; ow]) /\
     (dim tin = 4 -> exists n c, size tin 0 = Ok n /\ size tin (-3) = Ok c /\
                                 sizes t' = [n; c; oh; ow])).
Proof.
  intros Hin Hwf Hrank Hh Hhpos Hw Hwpos Hoh How.
  assert (Hsize : Forall (fun n => 0 <= n) [oh; ow])
    by (repeat (apply Forall_cons; split); [lia..|constructor]).
  pose proof (planned_output_shape_explicit tin oh ow) as Hshape.
  split.
  - intros output tout Hout Hdt.
    assert (Hc : forward_contract tin tout [oh; ow])
      by (repeat split; eauto).
    destruct (forward_world_output w input output tin tout [oh; ow] Hout)
      as (t' & Ht' & Hsz).
    exists (forward_world w input output tin tout [oh; ow]), t'.
    split; [|split; [done|by apply Hshape]].
    unfold adaptive_avg_pool2d_out_cpu, bind.
    by rewrite (forward_accepted _ _ _ _ _ _ Hin Hout Hc).
  - set (w1 := mkWorld (tensors w ++ [empty_like tin]) (kernel_calls w)).
    set (output := length (tensors w)).
    assert (Hin1 : tensors w1 !! input = Some tin)
      by (cbn; by apply lookup_app_l_Some).
    assert (Hout1 : tensors w1 !! output = Some (empty_like tin))
      by (cbn; by apply list_lookup_middle).
    assert (Hc : forward_contract tin (empty_like tin) [oh; ow])
      by (repeat split; eauto).
    destruct (forward_world_output w1 input output tin (empty_like tin) [oh; ow] Hout1)
      as (t' & Ht' & Hsz).
    exists output, (forward_world w1 input output tin (empty_like tin) [oh; ow]), t'.
    split; [|split; [done|by apply Hshape]].
    rewrite (adaptive_avg_pool2d_cpu_run _ _ _ _ Hin). cbn zeta.
    fold w1 output. by rewrite (forward_accepted _ _ _ _ _ _ Hin1 Hout1 Hc).
Qed.

Lemma numel_planned_zero tin oh ow :
  oh = 0 \/ ow = 0 -> numel_of (planned_output_shape tin [oh; ow]) = 0.
Proof.
  intros Hz. apply numel_of_zero. unfold planned_output_shape.
  destruct (dim tin =? 3); destruct Hz; subst;
    rewrite !elem_of_cons; tauto.
Qed.

Lemma forward_world_zero w input output tin tout oh ow :
  oh = 0 \/ ow = 0 ->
  forward_world w input output tin tout [oh; ow] =
  mkWorld (<[output := forward_resized tin tout [oh; ow]]> (tensors w)) (kernel_calls w).
Proof.
  intros Hz. unfold forward_world, numel.
  by rewrite sizes_forward_resized, numel_planned_zero.
Qed.

(** C5.  A valid forward call (on an input tensor, which has no negative
    size) with outH = 0 or outW = 0 returns an output of the shape
    [C, outH, outW] or [N, C, outH, outW], which has no element, and the log
    of kernel invocations is as it was before the call: the kernel was not
    invoked. *)
Theorem adaptive_avg_pool2d_zero_size_fast_exit w input tin h wd oh ow :
  tensors w !! input = Some tin ->
  well_formed tin ->
  dim tin = 3 \/ dim tin = 4 ->
  size tin (-2) = Ok h -> 0 < h ->
  size tin (-1) = Ok wd -> 0 < wd ->
  0 <= oh -> 0 <= ow ->
  oh = 0 \/ ow = 0 ->
  (forall output tout,
     tensors w !! output = Some tout -> dtype tin = dtype tout ->
     exists w' t',
       adaptive_avg_pool2d_out_cpu input [oh; ow] output w = (Ok output, w') /\
       tensors w' !! output = Some t' /\
       ((dim tin = 3 -> exists c, size tin (-3) = Ok c /\ sizes t' = [c; oh; ow]) /\
        (dim tin = 4 -> exists n c, size tin 0 = Ok n /\ size tin (-3) = Ok c /\
                                    sizes t' = [n; c; oh; ow])) /\
       numel t' = 0 /\
       kernel_calls w' = kernel_calls w) /\
  (exists output w' t',
     adaptive_avg_pool2d_cpu input [oh; ow] w = (Ok output, w') /\
     tensors w' !! output = Some t' /\
     ((dim tin = 3 -> exists c, size tin (-3) = Ok c /\ sizes t' = [c; oh; ow]) /\
      (dim tin = 4 -> exists n c, size tin 0 = Ok n /\ size tin (-3) = Ok c /\
                                  sizes t' = [n; c; oh; ow])) /\
     numel t' = 0 /\
     kernel_calls w' = kernel_calls w).
Proof.
  intros Hin Hwf Hrank Hh Hhpos Hw Hwpos Hoh How Hz.
  assert (Hsize : Forall (fun n => 0 <= n) [oh; ow])
    by (repeat (apply Forall_cons; split); [lia..|constructor]).
  split.
  - intros output tout Hout Hdt.
    assert (Hc : forward_contract tin tout [oh; ow])
      by (repeat split; eauto).
    exists (forward_world w input output tin tout [oh; ow]),
      (forward_resized tin tout [oh; ow]).
    split.
    { unfold adaptive_avg_pool2d_out_cpu, bind.
      by rewrite (forward_accepted _ _ _ _ _ _ Hin Hout Hc). }
    rewrite forward_world_zero by done. cbn [tensors kernel_calls].
    split; [apply list_lookup_insert_eq; by eapply lookup_lt_Some|].
    split; [apply planned_output_shape_explicit, sizes_forward_resized|].
    split; [|done].
    unfold numel. rewrite sizes_forward_resized. by apply numel_planned_zero.
  - set (w1 := mkWorld (tensors w ++ [empty_like tin]) (kernel_calls w)).
    set (output := length (tensors w)).
    assert (Hin1 : tensors w1 !! input = Some tin)
      by (cbn; by apply lookup_app_l_Some).
    assert (Hout1 : tensors w1 !! output = Some (empty_like tin))
      by (cbn; by apply list_lookup_middle).
    assert (Hc : forward_contract tin (empty_like tin) [oh; ow])
      by (repeat split; eauto).
    exists output, (forward_world w1 input output tin (empty_like tin) [oh; ow]),
      (forward_resized tin (empty_like tin) [oh; ow]).
    split.
    { rewrite (adaptive_avg_pool2d_cpu_run _ _ _ _ Hin). cbn zeta.
      fold w1 output. by rewrite (forward_accepted _ _ _ _ _ _ Hin1 Hout1 Hc). }
    rewrite forward_world_zero by done. cbn [tensors kernel_calls].
    split; [apply list_lookup_insert_eq; by eapply lookup_lt_Some|].
    split; [apply planned_output_shape_explicit, sizes_forward_resized|].
    split; [|done].
    unfold numel. rewrite sizes_forward_resized. by apply numel_planned_zero.
Qed.

(** ** The claims about the backward pass *)

(** A resize leaves a storage that holds the elements of the new shape. *)
Lemma resized_holds_its_elements t size :
  holds_its_elements t -> holds_its_elements (resized t size).
Proof.
  unfold holds_its_elements, resized, numel. intros Ht.
  case_bool_decide; [done|]. cbn [data sizes]. unfold resize_data.
  apply length_resize.
Qed.

Lemma empty_like_holds_its_elements tin : holds_its_elements (empty_like tin).
Proof. unfold holds_its_elements, empty_like. cbn. by rewrite length_replicate. Qed.

Lemma backward_zeroed_facts tin tgi :
  holds_its_elements tgi ->
  sizes (backward_zeroed tin tgi) = sizes tin /\
  strides (backward_zeroed tin tgi) =
    memory_format_strides (suggest_memory_format tin) (sizes tin) /\
  data (backward_zeroed tin tgi) = replicate (Z.to_nat (numel tin)) zero.
Proof.
  intros Hgi. unfold backward_zeroed. cbn. rewrite sizes_resized.
  repeat split. f_equal.
  rewrite (resized_holds_its_elements tgi (sizes tin) Hgi).
  unfold numel. by rewrite sizes_resized.
Qed.

Lemma adaptive_avg_pool2d_backward_cpu_run w grad_output input tin :
  tensors w !! input = Some tin ->
  adaptive_avg_pool2d_backward_cpu grad_output input w =
  (let w1 := mkWorld (tensors w ++ [empty_like tin]) (kernel_calls w) in
   let grad_input := length (tensors w) in
   match adaptive_avg_pool2d_backward_out_cpu_template grad_input grad_output input w1 with
   | (Ok _, w') => (Ok grad_input, w')
   | (Err e, w') => (Err e, mkWorld (take grad_input (tensors w')) (kernel_calls w'))
   | (OutOfFuel, w') => (OutOfFuel, w')
   end).
Proof.
  intros Hin. unfold adaptive_avg_pool2d_backward_cpu, Tensor_options, at_empty,
    bind at 1 2.
  unfold get_tensor at 1. rewrite Hin. cbn. unfold in_scope_of, try_catch, bind.
  fold (empty_like tin).
  by destruct (adaptive_avg_pool2d_backward_out_cpu_template _ _ _ _) as [[?|e|] w'].
Qed.

(** C3.  A backward call that passes validation returns; the gradient
    tensor that the backward kernel is handed has exactly the sizes of the
    input and the strides of the input's suggested memory format, and its
    storage holds one zero for each element of that shape; and after the
    call the gradient tensor has the shape of the input.  This holds for the
    entry point that writes into a supplied gradient tensor and for the one
    that allocates it. *)
Theorem adaptive_avg_pool2d_backward_grad_input w grad_output input tgo tin :
  tensors w !! grad_output = Some tgo ->
  tensors w !! input = Some tin ->
  well_formed tin ->
  (forall i, 1 <= i < dim tgo -> 0 < default 0 (sizes tgo !! Z.to_nat i)) ->
  dim tgo = 3 \/ dim tgo = 4 ->
  dtype tin = dtype tgo ->
  (forall grad_input tgi,
     tensors w !! grad_input = Some tgi -> dtype tin = dtype tgi ->
     holds_its_elements tgi ->
     exists w' z seen t' tin',
       adaptive_avg_pool2d_backward_out_cpu grad_input grad_output input w =
         (Ok grad_input, w') /\
       kernel_calls w' =
         kernel_calls w ++ [adaptive_avg_pool2d_backward_kernel_call z seen] /\
       sizes z = sizes tin /\
       strides z = memory_format_strides (suggest_memory_format tin) (sizes tin) /\
       data z = replicate (Z.to_nat (numel tin)) zero /\
       tensors w' !! grad_input = Some t' /\
       sizes t' = sizes tin /\ strides t' = strides z /\
       tensors w' !! input = Some tin' /\ sizes tin' = sizes t') /\
  (exists grad_input w' z seen t' tin',
     adaptive_avg_pool2d_backward_cpu grad_output input w = (Ok grad_input, w') /\
     kernel_calls w' =
       kernel_calls w ++ [adaptive_avg_pool2d_backward_kernel_call z seen] /\
     sizes z = sizes tin /\
     strides z = memory_format_strides (suggest_memory_format tin) (sizes tin) /\
     data z = replicate (Z.to_nat (numel tin)) zero /\
     tensors w' !! grad_input = Some t' /\
     sizes t' = sizes tin /\ strides t' = strides z /\
     tensors w' !! input = Some tin' /\ sizes tin' = sizes t').
Proof.
  intros Hgo Hin Hwf Hdims Hrank Hdt.
  assert (Hpost : forall w0 grad_input tgi,
    tensors w0 !! grad_input = Some tgi ->
    tensors w0 !! input = Some tin ->
    holds_its_elements tgi ->
    exists z seen t' tin',
      kernel_calls (backward_world w0 grad_input grad_output tin tgi tgo) =
        kernel_calls w0 ++ [adaptive_avg_pool2d_backward_kernel_call z seen] /\
      sizes z = sizes tin /\
      strides z = memory_format_strides (suggest_memory_format tin) (sizes tin) /\
      data z = replicate (Z.to_nat (numel tin)) zero /\
      tensors (backward_world w0 grad_input grad_output tin tgi tgo) !! grad_input
        = Some t' /\
      sizes t' = sizes tin /\ strides t' = strides z /\
      tensors (backward_world w0 grad_input grad_output tin tgi tgo) !! input
        = Some tin' /\
      sizes tin' = sizes t').
  { intros w0 grad_input tgi Hgi Hin0 Hfits.
    destruct (backward_zeroed_facts tin tgi Hfits) as (Hs & Hst & Hz).
    unfold backward_world. cbn [tensors kernel_calls].
    set (z := backward_zeroed tin tgi) in *.
    set (seen := if decide (grad_output = grad_input) then z else tgo).
    set (t' := with_data z _).
    exists z, seen, t', (if decide (grad_input = input) then t' else tin).
    split; [done|]. split; [done|]. split; [done|]. split; [done|].
    split; [apply list_lookup_insert_eq; by eapply lookup_lt_Some|].
    split; [done|]. split; [done|].
    destruct (decide (grad_input = input)) as [->|Hne].
    - split; [|done]. apply list_lookup_insert_eq. by eapply lookup_lt_Some.
    - split; [|done]. by rewrite list_lookup_insert_ne. }
  split.
  - intros grad_input tgi Hgi Hdt2 Hfits.
    assert (Hc : backward_contract tgi tgo tin) by done.
    destruct (Hpost w grad_input tgi Hgi Hin Hfits) as (z & seen & t' & tin' & Hp).
    exists (backward_world w grad_input grad_output tin tgi tgo), z, seen, t', tin'.
    split; [|exact Hp].
    unfold adaptive_avg_pool2d_backward_out_cpu, bind.
    by rewrite (backward_accepted _ _ _ _ _ _ _ Hgi Hgo Hin Hc).
  - set (w1 := mkWorld (tensors w ++ [empty_like tin]) (kernel_calls w)).
    set (grad_input := length (tensors w)).
    assert (Hin1 : tensors w1 !! input = Some tin)
      by (cbn; by apply lookup_app_l_Some).
    assert (Hgo1 : tensors w1 !! grad_output = Some tgo)
      by (cbn; by apply lookup_app_l_Some).
    assert (Hgi1 : tensors w1 !! grad_input = Some (empty_like tin))
      by (cbn; by apply list_lookup_middle).
    assert (Hc : backward_contract (empty_like tin) tgo tin) by done.
    destruct (Hpost w1 grad_input (empty_like tin) Hgi1 Hin1
                (empty_like_holds_its_elements tin))
      as (z & seen & t' & tin' & Hp).
    exists grad_input, (backward_world w1 grad_input grad_output tin (empty_like tin) tgo),
      z, seen, t', tin'.
    split; [|exact Hp].
    rewrite (adaptive_avg_pool2d_backward_cpu_run _ _ _ _ Hin). cbn zeta.
    fold w1 grad_input.
    by rewrite (backward_accepted _ _ _ _ _ _ _ Hgi1 Hgo1 Hin1 Hc).
Qed.

(** C10.  The backward loop checks every dimension 1 .. ndim-1 of
    [grad_output] and runs before the rank check: whatever the rank, a
    zero-sized dimension among them stops the call with the
    empty-dimension message, which names the first empty dimension, and
    nothing is written. *)
Theorem adaptive_avg_pool2d_backward_empty_dimension_first
    w grad_input grad_output input tgo i :
  tensors w !! grad_output = Some tgo ->
  1 <= i < dim tgo ->
  sizes tgo !! Z.to_nat i = Some 0 ->
  exists k,
    1 <= k <= i /\
    default 0 (sizes tgo !! Z.to_nat k) <= 0 /\
    (forall j, 1 <= j < k -> 0 < default 0 (sizes tgo !! Z.to_nat j)) /\
    adaptive_avg_pool2d_backward_out_cpu grad_input grad_output input w =
    (Err (TorchCheck (backward_grad_output_non_zero_size (sizes tgo) k)), w).
Proof.
  intros Hgo Hi Hzero.
  assert (Pi : non_empty_dim tgo i = false)
    by (unfold non_empty_dim; by rewrite Hzero).
  destruct (backward_dimension_loop w grad_output tgo Hgo)
    as [[_ Hall] | (k & Hk & Pk & Hmin & Hrun)].
  { rewrite Hall in Pi by done. discriminate. }
  exists k. split.
  { destruct (Z.le_gt_cases k i); [lia|].
    rewrite Hmin in Pi by lia. discriminate. }
  split; [unfold non_empty_dim in Pk; lia|].
  split.
  { intros j Hj. specialize (Hmin j Hj). unfold non_empty_dim in Hmin. lia. }
  apply wp_equation.
  unfold adaptive_avg_pool2d_backward_out_cpu,
    adaptive_avg_pool2d_backward_out_cpu_template.
  wp_steps. eapply wp_of_run; [exact Hrun|]. done.
Qed.

(** ** When validation fails *)

Lemma well_formed_size t k : well_formed t -> 0 <= default 0 (sizes t !! k).
Proof.
  intros Hwf. destruct (sizes t !! k) as [v|] eqn:E; cbn; [|lia].
  by eapply (Forall_lookup_1 _ _ _ _ Hwf).
Qed.

Lemma forward_contract_decidable tin tout output_size :
  forward_contract tin tout output_size \/ ~ forward_contract tin tout output_size.
Proof.
  unfold forward_contract, well_formed.
  destruct (decide (length output_size = 2%nat)); [|right; tauto].
  destruct (decide (dim tin = 3 \/ dim tin = 4)); [|right; tauto].
  destruct (decide (dtype tin = dtype tout)); [|right; tauto].
  destruct (decide (Forall (fun n => 0 <= n) (sizes tin))); [|right; tauto].
  destruct (decide (Forall (fun n => 0 <= n) output_size)); [|right; tauto].
  destruct (size tin (-2)) as [h|e2|];
    [|right; intros (_ & _ & (h & Hh & _) & _); discriminate..].
  destruct (size tin (-1)) as [wd|e1|];
    [|right; intros (_ & _ & _ & (wd & Hw & _) & _); discriminate..].
  destruct (decide (0 < h));
    [|right; intros (_ & _ & (h' & Hh & ?) & _); simplify_eq; lia].
  destruct (decide (0 < wd));
    [|right; intros (_ & _ & _ & (wd' & Hw & ?) & _); simplify_eq; lia].
  left. split; [done|]. split; [done|]. eauto 10.
Qed.

Lemma backward_dimensions_decidable tgo :
  (forall i, 1 <= i < dim tgo -> 0 < default 0 (sizes tgo !! Z.to_nat i)) \/
  (exists i, 1 <= i < dim tgo /\ ~ 0 < default 0 (sizes tgo !! Z.to_nat i)).
Proof.
  destruct (decide (Forall (fun i => 0 < default 0 (sizes tgo !! Z.to_nat i))
                      (seqZ 1 (dim tgo - 1)))) as [Hall|Hnot].
  - left. intros i Hi. rewrite Forall_seqZ in Hall. apply Hall. lia.
  - right. apply not_Forall_Exists in Hnot; [|intros x; apply _].
    apply Exists_exists in Hnot as (i & Hi & Hni).
    apply elem_of_seqZ in Hi. exists i. split; [lia|exact Hni].
Qed.

Lemma backward_contract_decidable tgi tgo tin :
  backward_contract tgi tgo tin \/ ~ backward_contract tgi tgo tin.
Proof.
  unfold backward_contract, well_formed.
  destruct (decide (dim tgo = 3 \/ dim tgo = 4)); [|right; tauto].
  destruct (decide (dtype tin = dtype tgo)); [|right; tauto].
  destruct (decide (dtype tin = dtype tgi)); [|right; tauto].
  destruct (decide (Forall (fun n => 0 <= n) (sizes tin))); [|right; tauto].
  destruct (backward_dimensions_decidable tgo) as [Hall | (i & Hi & Hni)].
  - left. tauto.
  - right. intros (Hall & _). apply Hni, Hall, Hi.
Qed.

Lemma adaptive_avg_pool2d_out_cpu_run w input output_size output :
  adaptive_avg_pool2d_out_cpu input output_size output w =
  match adaptive_avg_pool2d_out_cpu_template output input output_size w with
  | (Ok _, w') => (Ok output, w')
  | (Err e, w') => (Err e, w')
  | (OutOfFuel, w') => (OutOfFuel, w')
  end.
Proof.
  unfold adaptive_avg_pool2d_out_cpu, bind, ret.
  by destruct (adaptive_avg_pool2d_out_cpu_template _ _ _ _) as [[[]|e|] w'].
Qed.

Lemma adaptive_avg_pool2d_backward_out_cpu_run w grad_input grad_output input :
  adaptive_avg_pool2d_backward_out_cpu grad_input grad_output input w =
  match adaptive_avg_pool2d_backward_out_cpu_template grad_input grad_output input w with
  | (Ok _, w') => (Ok grad_input, w')
  | (Err e, w') => (Err e, w')
  | (OutOfFuel, w') => (OutOfFuel, w')
  end.
Proof.
  unfold adaptive_avg_pool2d_backward_out_cpu, bind, ret.
  by destruct (adaptive_avg_pool2d_backward_out_cpu_template _ _ _ _) as [[?|e|] w'].
Qed.




(** C7.  A forward or backward call that ends in an exception was stopped
    by a check with an error for the user, one of the [TORCH_CHECK]s of
    the template or the refusal of [resize_], and the store of tensors and
    the log of kernel invocations are exactly as before the call: no tensor
    was resized, zeroed or written. *)
Theorem validation_failure_leaves_tensors_unchanged
    w input output grad_input grad_output tin tout tgi tgo output_size :
  tensors w !! input = Some tin ->
  tensors w !! output = Some tout ->
  tensors w !! grad_input = Some tgi ->
  tensors w !! grad_output = Some tgo ->
  (forall e w',
     adaptive_avg_pool2d_out_cpu input output_size output w = (Err e, w') ->
     w' = w /\ exists m, e = TorchCheck m) /\
  (forall e w',
     adaptive_avg_pool2d_backward_out_cpu grad_input grad_output input w = (Err e, w') ->
     w' = w /\ exists m, e = TorchCheck m).
Proof.
  intros Hin Hout Hgi Hgo. split; intros e w'.
  - rewrite adaptive_avg_pool2d_out_cpu_run.
    destruct (forward_contract_decidable tin tout output_size) as [Hc|Hnot].
    + by rewrite (forward_accepted _ _ _ _ _ _ Hin Hout Hc).
    + destruct (forward_rejected _ _ _ _ _ _ Hin Hout Hnot) as (m & ->).
      intros [= <- <-]. eauto.
  - rewrite adaptive_avg_pool2d_backward_out_cpu_run.
    destruct (backward_contract_decidable tgi tgo tin) as [Hc|Hnot].
    + by rewrite (backward_accepted _ _ _ _ _ _ _ Hgi Hgo Hin Hc).
    + destruct (backward_rejected _ _ _ _ _ _ _ Hgi Hgo Hin Hnot) as (m & ->).
      intros [= <- <-]. eauto.
Qed.

(** ** The dispatching entry point *)

(** [adaptive_avg_pool2d_symint] checks the output size before anything
    else; the entry points that run the template directly have no such
    check. *)
Lemma adaptive_avg_pool2d_symint_rejects_negative w input oh ow :
  oh < 0 \/ ow < 0 ->
  adaptive_avg_pool2d_symint input [oh; ow] w =
  (Err (TorchCheck (output_size_elements_must_be_nonnegative oh ow)), w).
Proof.
  intros Hneg. apply wp_equation. unfold adaptive_avg_pool2d_symint.
  wp_step. apply wp_check_pass; [reflexivity|]. wp_steps.
  apply wp_TORCH_CHECK; [|intros _; by wp_steps].
  change (default 0 ([oh; ow] !! 0%nat)) with oh.
  change (default 0 ([oh; ow] !! 1%nat)) with ow. lia.
Qed.

(** C2.  For an input that is not quantized, not MKL-DNN and not on XPU,
    a 1x1 request returns what [mean] over the dimensions -1 and -2 with
    keepdim returns (and fails as [mean] fails).  When the suggested
    memory format of the input is channels-last, the input has rank 4
    and the tensor that [mean] made is given the sizes [N, C, 1, 1] and
    the strides [C, 1, C, C] in place: it is the same tensor, with the same
    elements.  No pooling kernel is invoked. *)
Theorem adaptive_avg_pool2d_global_mean_fast_path w input tin :
  tensors w !! input = Some tin ->
  is_quantized tin = false ->
  is_mkldnn tin = false ->
  is_xpu tin = false ->
  (forall e, at_mean tin [-1; -2] true = Err e ->
     adaptive_avg_pool2d_symint input [1; 1] w = (Err e, w)) /\
  (forall m, at_mean tin [-1; -2] true = Ok m ->
     (suggest_memory_format tin <> ChannelsLast ->
        adaptive_avg_pool2d_symint input [1; 1] w =
        (Ok (length (tensors w)), mkWorld (tensors w ++ [m]) (kernel_calls w))) /\
     (suggest_memory_format tin = ChannelsLast ->
        exists n c h wd,
          sizes tin = [n; c; h; wd] /\
          adaptive_avg_pool2d_symint input [1; 1] w =
          (Ok (length (tensors w)),
           mkWorld
             (tensors w ++
                [mkTensor [n; c; 1; 1] [c; 1; c; c] (dtype m) (device m) (layout m)
                   (quantized m) (data m)])
             (kernel_calls w)))).
Proof.
  intros Hin Hq Hm Hx.
  assert (Hhead : forall Q,
    wp (let* out := Tensor_mean input [-1; -2] true in
        let* memory_format := Tensor_suggest_memory_format input in
        (if bool_decide (memory_format = ChannelsLast) then
           let* n := Tensor_size input 0 in
           let* c := Tensor_size input 1 in
           Tensor_as_strided_ out [n; c; 1; 1] [c; 1; c; c]
         else ret tt) ;;
        ret out) w Q ->
    wp (adaptive_avg_pool2d_symint input [1; 1]) w Q).
  { intros Q HQ. unfold adaptive_avg_pool2d_symint.
    wp_step. apply wp_check_pass; [reflexivity|]. wp_steps.
    apply wp_check_pass; [reflexivity|]. wp_steps.
    rewrite Hm, Hq, Hx. exact HQ. }
  split.
  - intros e He. apply wp_equation, Hhead. unfold Tensor_mean. wp_steps.
    rewrite He. done.
  - intros m Hmean.
    assert (Hin1 : (tensors w ++ [m]) !! input = Some tin)
      by (by apply lookup_app_l_Some).
    split.
    + intros Hfmt. apply wp_equation, Hhead. unfold Tensor_mean. wp_steps.
      rewrite Hmean. wp_steps.
      rewrite bool_decide_eq_false_2 by done. by wp_steps.
    + intros Hfmt.
      pose proof (suggest_memory_format_rank tin) as R. rewrite Hfmt in R.
      destruct (rank4_sizes _ R) as (n & c & h & wd & Hsz).
      exists n, c, h, wd. split; [done|].
      destruct (size_of_rank4 _ _ _ _ _ Hsz) as (_ & H0 & _).
      assert (H1 : size tin 1 = Ok c)
        by (rewrite size_in_range by lia; by rewrite Hsz).
      apply wp_equation, Hhead. unfold Tensor_mean. wp_steps.
      rewrite Hmean. wp_steps.
      rewrite Hfmt. rewrite bool_decide_eq_true_2 by done. wp_steps.
      rewrite H0. wp_steps. rewrite H1. wp_steps.
      eapply wp_get_tensor; [by apply list_lookup_middle|]. wp_steps.
      split; [done|]. f_equal.
      rewrite insert_app_r_alt by done. by rewrite Nat.sub_diag.
Qed.

(* ===================================================================== *)
(** ** Further properties of the forward pass *)
(* ===================================================================== *)

Lemma wp_check_fail {St} (cond : bool) (msg : M St message) s Q :
  cond = false ->
  wp msg s (fun r s' => match r with
                        | Ok m => Q (Err (TorchCheck m)) s'
                        | Err e => Q (Err e) s'
                        | OutOfFuel => Q OutOfFuel s'
                        end) ->
  wp (TORCH_CHECK cond msg) s Q.
Proof. intros -> H. apply wp_TORCH_CHECK; [discriminate|auto]. Qed.

Lemma out_cpu_of_template_error w input output output_size e :
  adaptive_avg_pool2d_out_cpu_template output input output_size w = (Err e, w) ->
  adaptive_avg_pool2d_out_cpu input output_size output w = (Err e, w).
Proof. intros H. by rewrite adaptive_avg_pool2d_out_cpu_run, H. Qed.

(** X1.  The forward checks run in a fixed order and the first one that
    fails decides the error: the length of the output size, then the rank
    (the message carries the sizes of the input), then the dimension -2 and
    the dimension -1 (the message carries the sizes and the non-negative
    index of the empty dimension), then the dtypes (the message carries
    both).  Nothing is written in any of these cases. *)
Theorem adaptive_avg_pool2d_forward_first_failure
    w input output tin tout output_size :
  tensors w !! input = Some tin ->
  tensors w !! output = Some tout ->
  (length output_size <> 2%nat ->
     adaptive_avg_pool2d_out_cpu input output_size output w =
     (Err (TorchCheck output_size_must_be_2), w)) /\
  (length output_size = 2%nat -> ~ (dim tin = 3 \/ dim tin = 4) ->
     adaptive_avg_pool2d_out_cpu input output_size output w =
     (Err (TorchCheck (expected_3D_or_4D_tensor (sizes tin))), w)) /\
  (forall h,
     length output_size = 2%nat -> dim tin = 3 \/ dim tin = 4 ->
     size tin (-2) = Ok h -> h <= 0 ->
     adaptive_avg_pool2d_out_cpu input output_size output w =
     (Err (TorchCheck (input_non_zero_size (sizes tin) (dim tin - 2))), w)) /\
  (forall h wd,
     length output_size = 2%nat -> dim tin = 3 \/ dim tin = 4 ->
     size tin (-2) = Ok h -> 0 < h ->
     size tin (-1) = Ok wd -> wd <= 0 ->
     adaptive_avg_pool2d_out_cpu input output_size output w =
     (Err (TorchCheck (input_non_zero_size (sizes tin) (dim tin - 1))), w)) /\
  (forall h wd,
     length output_size = 2%nat -> dim tin = 3 \/ dim tin = 4 ->
     size tin (-2) = Ok h -> 0 < h ->
     size tin (-1) = Ok wd -> 0 < wd ->
     dtype tin <> dtype tout ->
     adaptive_avg_pool2d_out_cpu input output_size output w =
     (Err (TorchCheck (expected_dtype_for_output (dtype tin) (dtype tout))), w)).
Proof.
  intros Hin Hout.
  assert (Hrankb : dim tin = 3 \/ dim tin = 4 -> (dim tin =? 3) || (dim tin =? 4) = true)
    by (intros [-> | ->]; reflexivity).
  split; [|split; [|split; [|split]]].
  - intros Hlen. apply out_cpu_of_template_error, wp_equation.
    unfold adaptive_avg_pool2d_out_cpu_template. wp_step.
    apply wp_check_fail; [by apply bool_decide_eq_false|]. by wp_steps.
  - intros Hlen Hrank. apply out_cpu_of_template_error, wp_equation.
    unfold adaptive_avg_pool2d_out_cpu_template. wp_step.
    apply wp_check_pass; [by apply bool_decide_eq_true|]. wp_steps.
    apply wp_check_fail; [|by wp_steps].
    destruct (Z.eqb_spec (dim tin) 3), (Z.eqb_spec (dim tin) 4); tauto.
  - intros h Hlen Hrank Hh Hneg. apply out_cpu_of_template_error, wp_equation.
    unfold adaptive_avg_pool2d_out_cpu_template. wp_step.
    apply wp_check_pass; [by apply bool_decide_eq_true|]. wp_steps.
    apply wp_check_pass; [by apply Hrankb|]. wp_steps.
    rewrite Hh. wp_steps. apply wp_check_fail; [lia|]. wp_steps.
    split; [|done]. do 3 f_equal. lia.
  - intros h wd Hlen Hrank Hh Hpos Hw Hneg.
    apply out_cpu_of_template_error, wp_equation.
    unfold adaptive_avg_pool2d_out_cpu_template. wp_step.
    apply wp_check_pass; [by apply bool_decide_eq_true|]. wp_steps.
    apply wp_check_pass; [by apply Hrankb|]. wp_steps.
    rewrite Hh. wp_steps. apply wp_check_pass; [lia|]. wp_steps.
    rewrite Hw. wp_steps. apply wp_check_fail; [lia|]. wp_steps.
    split; [|done]. do 3 f_equal. lia.
  - intros h wd Hlen Hrank Hh Hpos Hw Hwpos Hdt.
    apply out_cpu_of_template_error, wp_equation.
    unfold adaptive_avg_pool2d_out_cpu_template. wp_step.
    apply wp_check_pass; [by apply bool_decide_eq_true|]. wp_steps.
    apply wp_check_pass; [by apply Hrankb|]. wp_steps.
    rewrite Hh. wp_steps. apply wp_check_pass; [lia|]. wp_steps.
    rewrite Hw. wp_steps. apply wp_check_pass; [lia|]. wp_steps.
    apply wp_check_fail; [by apply bool_decide_eq_false|]. by wp_steps.
Qed.

(** X2.  In the backward pass, once every dimension 1 .. ndim-1 of
    [grad_output] is non-empty, the rank check comes next and its message
    carries the sizes of the input, not those of [grad_output] whose rank
    was tested; then the dtype of [grad_output] is compared with the
    input's, and last the dtype of [grad_input].  Nothing is written in any
    of these cases. *)
Theorem adaptive_avg_pool2d_backward_first_failure
    w grad_input grad_output input tgi tgo tin :
  tensors w !! grad_input = Some tgi ->
  tensors w !! grad_output = Some tgo ->
  tensors w !! input = Some tin ->
  (forall i, 1 <= i < dim tgo -> 0 < default 0 (sizes tgo !! Z.to_nat i)) ->
  (~ (dim tgo = 3 \/ dim tgo = 4) ->
     adaptive_avg_pool2d_backward_out_cpu grad_input grad_output input w =
     (Err (TorchCheck (backward_expected_3D_or_4D_tensor (sizes tin))), w)) /\
  (dim tgo = 3 \/ dim tgo = 4 -> dtype tin <> dtype tgo ->
     adaptive_avg_pool2d_backward_out_cpu grad_input grad_output input w =
     (Err (TorchCheck (expected_dtype_for_grad_output (dtype tin) (dtype tgo))), w)) /\
  (dim tgo = 3 \/ dim tgo = 4 -> dtype tin = dtype tgo -> dtype tin <> dtype tgi ->
     adaptive_avg_pool2d_backward_out_cpu grad_input grad_output input w =
     (Err (TorchCheck (expected_dtype_for_grad_input (dtype tin) (dtype tgi))), w)).
Proof.
  intros Hgi Hgo Hin Hdims.
  assert (Hloop :
    for_each (irange 1 (dim tgo)) (fun i =>
      let* size_i := Tensor_size grad_output i in
      TORCH_CHECK (0 <? size_i)
        (let* sz := Tensor_sizes grad_output in
         ret (backward_grad_output_non_zero_size sz i))) w = (Ok tt, w)).
  { destruct (backward_dimension_loop w grad_output tgo Hgo)
      as [[Hrun _] | (k & Hk & Pk & _ & _)]; [done|].
    specialize (Hdims k Hk). unfold non_empty_dim in Pk. lia. }
  assert (Hrankb : dim tgo = 3 \/ dim tgo = 4 -> (dim tgo =? 3) || (dim tgo =? 4) = true)
    by (intros [-> | ->]; reflexivity).
  assert (Hwrap : forall e,
    adaptive_avg_pool2d_backward_out_cpu_template grad_input grad_output input w = (Err e, w) ->
    adaptive_avg_pool2d_backward_out_cpu grad_input grad_output input w = (Err e, w)).
  { intros e H. by rewrite adaptive_avg_pool2d_backward_out_cpu_run, H. }
  split; [|split].
  - intros Hrank. apply Hwrap, wp_equation.
    unfold adaptive_avg_pool2d_backward_out_cpu_template. wp_steps.
    eapply wp_of_run; [exact Hloop|]. cbn beta iota. wp_steps.
    apply wp_check_fail; [|by wp_steps].
    destruct (Z.eqb_spec (dim tgo) 3), (Z.eqb_spec (dim tgo) 4); tauto.
  - intros Hrank Hdt. apply Hwrap, wp_equation.
    unfold adaptive_avg_pool2d_backward_out_cpu_template. wp_steps.
    eapply wp_of_run; [exact Hloop|]. cbn beta iota. wp_steps.
    apply wp_check_pass; [by apply Hrankb|]. wp_steps.
    apply wp_check_fail; [by apply bool_decide_eq_false|]. by wp_steps.
  - intros Hrank Hdt1 Hdt2. apply Hwrap, wp_equation.
    unfold adaptive_avg_pool2d_backward_out_cpu_template. wp_steps.
    eapply wp_of_run; [exact Hloop|]. cbn beta iota. wp_steps.
    apply wp_check_pass; [by apply Hrankb|]. wp_steps.
    apply wp_check_pass; [by apply bool_decide_eq_true|]. wp_steps.
    apply wp_check_fail; [by apply bool_decide_eq_false|]. by wp_steps.
Qed.

(** ** What a call writes *)

Lemma forward_resized_metadata tin tout output_size :
  dtype (forward_resized tin tout output_size) = dtype tout /\
  device (forward_resized tin tout output_size) = device tout /\
  layout (forward_resized tin tout output_size) = layout tout /\
  quantized (forward_resized tin tout output_size) = quantized tout.
Proof.
  unfold forward_resized, resized.
  destruct (dim tin =? 3); case_bool_decide; done.
Qed.

(** The store after an accepted forward call: the old one with one tensor
    put at [output]. *)
Lemma forward_world_store w input output tin tout output_size :
  exists t',
    tensors (forward_world w input output tin tout output_size) =
      <[output := t']> (tensors w) /\
    sizes t' = planned_output_shape tin output_size /\
    strides t' = strides (forward_resized tin tout output_size) /\
    dtype t' = dtype tout /\ device t' = device tout /\
    layout t' = layout tout /\ quantized t' = quantized tout.
Proof.
  destruct (forward_resized_metadata tin tout output_size) as (Hd & Hv & Hl & Hq).
  unfold forward_world. destruct (numel _ =? 0); cbn [tensors];
    eexists; (split; [reflexivity|]); cbn; rewrite sizes_forward_resized; done.
Qed.

Lemma forward_outcomes w input output tin tout output_size :
  tensors w !! input = Some tin ->
  tensors w !! output = Some tout ->
  (forward_contract tin tout output_size /\
   adaptive_avg_pool2d_out_cpu input output_size output w =
   (Ok output, forward_world w input output tin tout output_size)) \/
  (~ forward_contract tin tout output_size /\
   exists m, adaptive_avg_pool2d_out_cpu input output_size output w =
             (Err (TorchCheck m), w)).
Proof.
  intros Hin Hout. rewrite adaptive_avg_pool2d_out_cpu_run.
  destruct (forward_contract_decidable tin tout output_size) as [Hc|Hnot].
  - left. split; [done|]. by rewrite (forward_accepted _ _ _ _ _ _ Hin Hout Hc).
  - right. split; [done|].
    destruct (forward_rejected _ _ _ _ _ _ Hin Hout Hnot) as (m & ->). eauto.
Qed.

Lemma backward_outcomes w grad_input grad_output input tgi tgo tin :
  tensors w !! grad_input = Some tgi ->
  tensors w !! grad_output = Some tgo ->
  tensors w !! input = Some tin ->
  (backward_contract tgi tgo tin /\
   adaptive_avg_pool2d_backward_out_cpu grad_input grad_output input w =
   (Ok grad_input, backward_world w grad_input grad_output tin tgi tgo)) \/
  (~ backward_contract tgi tgo tin /\
   exists m, adaptive_avg_pool2d_backward_out_cpu grad_input grad_output input w =
             (Err (TorchCheck m), w)).
Proof.
  intros Hgi Hgo Hin. rewrite adaptive_avg_pool2d_backward_out_cpu_run.
  destruct (backward_contract_decidable tgi tgo tin) as [Hc|Hnot].
  - left. split; [done|].
    by rewrite (backward_accepted _ _ _ _ _ _ _ Hgi Hgo Hin Hc).
  - right. split; [done|].
    destruct (backward_rejected _ _ _ _ _ _ _ Hgi Hgo Hin Hnot) as (m & ->). eauto.
Qed.

(** X3.  Whatever the outcome, the forward call that writes into a
    supplied output touches no other tensor: the store keeps its length and
    every tensor but [output] is as before; in particular the input, when it
    is not the output itself. *)
Theorem adaptive_avg_pool2d_out_cpu_writes_only_output
    w input output tin tout output_size res w' :
  tensors w !! input = Some tin ->
  tensors w !! output = Some tout ->
  adaptive_avg_pool2d_out_cpu input output_size output w = (res, w') ->
  length (tensors w') = length (tensors w) /\
  (forall r, r <> output -> tensors w' !! r = tensors w !! r) /\
  (input <> output -> tensors w' !! input = Some tin).
Proof.
  intros Hin Hout Hrun.
  enough (length (tensors w') = length (tensors w) /\
          forall r, r <> output -> tensors w' !! r = tensors w !! r) as [Hl Hf].
  { split; [done|]. split; [done|]. intros Hne. by rewrite Hf. }
  destruct (forward_outcomes w input output tin tout output_size Hin Hout)
    as [[_ E] | [_ (m & E)]]; rewrite E in Hrun; injection Hrun as <- <-.
  - destruct (forward_world_store w input output tin tout output_size) as (t' & -> & _).
    split; [apply length_insert|]. intros r Hr. by apply list_lookup_insert_ne.
  - done.
Qed.

(** X4.  Whatever the outcome, the backward call that writes into a
    supplied gradient tensor touches no other tensor: the store keeps its
    length and every tensor but [grad_input] is as before; in particular
    [grad_output] and the input, when they are not [grad_input] itself. *)
Theorem adaptive_avg_pool2d_backward_out_cpu_writes_only_grad_input
    w grad_input grad_output input tgi tgo tin res w' :
  tensors w !! grad_input = Some tgi ->
  tensors w !! grad_output = Some tgo ->
  tensors w !! input = Some tin ->
  adaptive_avg_pool2d_backward_out_cpu grad_input grad_output input w = (res, w') ->
  length (tensors w') = length (tensors w) /\
  (forall r, r <> grad_input -> tensors w' !! r = tensors w !! r) /\
  (grad_output <> grad_input -> tensors w' !! grad_output = Some tgo) /\
  (input <> grad_input -> tensors w' !! input = Some tin).
Proof.
  intros Hgi Hgo Hin Hrun.
  enough (length (tensors w') = length (tensors w) /\
          forall r, r <> grad_input -> tensors w' !! r = tensors w !! r) as [Hl Hf].
  { split; [done|]. split; [done|]. split; intros Hne; by rewrite Hf. }
  destruct (backward_outcomes w grad_input grad_output input tgi tgo tin Hgi Hgo Hin)
    as [[_ E] | [_ (m & E)]]; rewrite E in Hrun; injection Hrun as <- <-.
  - unfold backward_world. cbn [tensors].
    split; [apply length_insert|]. intros r Hr. by apply list_lookup_insert_ne.
  - done.
Qed.

(** The allocating entry points, in closed form. *)
Lemma adaptive_avg_pool2d_cpu_outcomes w input tin output_size :
  tensors w !! input = Some tin ->
  let w1 := mkWorld (tensors w ++ [empty_like tin]) (kernel_calls w) in
  let output := length (tensors w) in
  (forward_contract tin (empty_like tin) output_size /\
   adaptive_avg_pool2d_cpu input output_size w =
   (Ok output, forward_world w1 input output tin (empty_like tin) output_size)) \/
  (~ forward_contract tin (empty_like tin) output_size /\
   exists m, adaptive_avg_pool2d_cpu input output_size w = (Err (TorchCheck m), w)).
Proof.
  intros Hin w1 output.
  assert (Hin1 : tensors w1 !! input = Some tin)
    by (cbn; by apply lookup_app_l_Some).
  assert (Hout1 : tensors w1 !! output = Some (empty_like tin))
    by (cbn; by apply list_lookup_middle).
  rewrite (adaptive_avg_pool2d_cpu_run _ _ _ _ Hin). cbn zeta. fold w1 output.
  destruct (forward_contract_decidable tin (empty_like tin) output_size) as [Hc|Hnot].
  - left. split; [done|]. by rewrite (forward_accepted _ _ _ _ _ _ Hin1 Hout1 Hc).
  - right. split; [done|].
    destruct (forward_rejected _ _ _ _ _ _ Hin1 Hout1 Hnot) as (m & ->).
    exists m. unfold w1, output. cbn [tensors kernel_calls].
    by rewrite released_local.
Qed.

Lemma adaptive_avg_pool2d_backward_cpu_outcomes w grad_output input tgo tin :
  tensors w !! grad_output = Some tgo ->
  tensors w !! input = Some tin ->
  let w1 := mkWorld (tensors w ++ [empty_like tin]) (kernel_calls w) in
  let grad_input := length (tensors w) in
  (backward_contract (empty_like tin) tgo tin /\
   adaptive_avg_pool2d_backward_cpu grad_output input w =
   (Ok grad_input, backward_world w1 grad_input grad_output tin (empty_like tin) tgo)) \/
  (~ backward_contract (empty_like tin) tgo tin /\
   exists m, adaptive_avg_pool2d_backward_cpu grad_output input w =
             (Err (TorchCheck m), w)).
Proof.
  intros Hgo Hin w1 grad_input.
  assert (Hin1 : tensors w1 !! input = Some tin)
    by (cbn; by apply lookup_app_l_Some).
  assert (Hgo1 : tensors w1 !! grad_output = Some tgo)
    by (cbn; by apply lookup_app_l_Some).
  assert (Hgi1 : tensors w1 !! grad_input = Some (empty_like tin))
    by (cbn; by apply list_lookup_middle).
  rewrite (adaptive_avg_pool2d_backward_cpu_run _ _ _ _ Hin). cbn zeta.
  fold w1 grad_input.
  destruct (backward_contract_decidable (empty_like tin) tgo tin) as [Hc|Hnot].
  - left. split; [done|].
    by rewrite (backward_accepted _ _ _ _ _ _ _ Hgi1 Hgo1 Hin1 Hc).
  - right. split; [done|].
    destruct (backward_rejected _ _ _ _ _ _ _ Hgi1 Hgo1 Hin1 Hnot) as (m & ->).
    exists m. unfold w1, grad_input. cbn [tensors kernel_calls].
    by rewrite released_local.
Qed.

Lemma insert_fresh {A} (l : list A) (x y : A) :
  <[length l := y]> (l ++ [x]) = l ++ [y].
Proof. rewrite insert_app_r_alt by done. by rewrite Nat.sub_diag. Qed.

(** X5.  The allocating entry points never modify a tensor that exists.
    When [adaptive_avg_pool2d_cpu] or [adaptive_avg_pool2d_backward_cpu]
    returns, the store is the store before with exactly one tensor added at
    the end, the returned one; when it throws, the tensor that [at::empty]
    allocated is destroyed with the function and the store and the log of
    kernel invocations are as before the call. *)
Theorem allocating_entry_points_add_one_tensor
    w input grad_output tin tgo output_size :
  tensors w !! input = Some tin ->
  tensors w !! grad_output = Some tgo ->
  (forall r w',
     adaptive_avg_pool2d_cpu input output_size w = (r, w') ->
     match r with
     | Ok output =>
         output = length (tensors w) /\ exists t, tensors w' = tensors w ++ [t]
     | Err e => w' = w
     | OutOfFuel => False
     end) /\
  (forall r w',
     adaptive_avg_pool2d_backward_cpu grad_output input w = (r, w') ->
     match r with
     | Ok grad_input =>
         grad_input = length (tensors w) /\ exists t, tensors w' = tensors w ++ [t]
     | Err e => w' = w
     | OutOfFuel => False
     end).
Proof.
  intros Hin Hgo. split; intros r w' Hrun.
  - destruct (adaptive_avg_pool2d_cpu_outcomes w input tin output_size Hin)
      as [[_ E] | [_ (m & E)]]; rewrite E in Hrun; injection Hrun as <- <-.
    + split; [done|].
      destruct (forward_world_store
                  (mkWorld (tensors w ++ [empty_like tin]) (kernel_calls w))
                  input (length (tensors w)) tin (empty_like tin) output_size)
        as (t' & -> & _).
      exists t'. apply insert_fresh.
    + done.
  - destruct (adaptive_avg_pool2d_backward_cpu_outcomes w grad_output input tgo tin Hgo Hin)
      as [[_ E] | [_ (m & E)]]; rewrite E in Hrun; injection Hrun as <- <-.
    + split; [done|]. unfold backward_world. cbn [tensors]. eexists. apply insert_fresh.
    + done.
Qed.

(** ** What an accepted forward call produces *)

(** X6.  On every accepted forward call the output has the dtype of the
    input.  The supplied output keeps its device, layout and quantized flag;
    the allocated output has the device and layout of the input. *)
Theorem adaptive_avg_pool2d_output_dtype w input tin output_size :
  tensors w !! input = Some tin ->
  (forall output tout,
     tensors w !! output = Some tout ->
     forward_contract tin tout output_size ->
     exists w' t',
       adaptive_avg_pool2d_out_cpu input output_size output w = (Ok output, w') /\
       tensors w' !! output = Some t' /\
       dtype t' = dtype tin /\ device t' = device tout /\
       layout t' = layout tout /\ quantized t' = quantized tout) /\
  (forward_contract tin (empty_like tin) output_size ->
   exists output w' t',
     adaptive_avg_pool2d_cpu input output_size w = (Ok output, w') /\
     tensors w' !! output = Some t' /\
     dtype t' = dtype tin /\ device t' = device tin /\ layout t' = layout tin).
Proof.
  intros Hin. split.
  - intros output tout Hout Hc.
    destruct (forward_outcomes w input output tin tout output_size Hin Hout)
      as [[_ E] | [Hnot _]]; [|done].
    destruct (forward_world_store w input output tin tout output_size)
      as (t' & Hst & _ & _ & Hd & Hv & Hl & Hq).
    exists (forward_world w input output tin tout output_size), t'.
    split; [done|]. rewrite Hst.
    split; [apply list_lookup_insert_eq; by eapply lookup_lt_Some|].
    destruct Hc as (_ & _ & _ & _ & Hdt & _). rewrite Hd, Hdt. done.
  - intros Hc.
    destruct (adaptive_avg_pool2d_cpu_outcomes w input tin output_size Hin)
      as [[_ E] | [Hnot _]]; [|done].
    destruct (forward_world_store
                (mkWorld (tensors w ++ [empty_like tin]) (kernel_calls w))
                input (length (tensors w)) tin (empty_like tin) output_size)
      as (t' & Hst & _ & _ & Hd & Hv & Hl & _).
    eexists _, _, t'. split; [exact E|]. rewrite Hst. cbn [tensors].
    rewrite insert_fresh. split; [by apply list_lookup_middle|]. done.
Qed.

(** The planned shape of an accepted call has no negative size. *)
Lemma planned_output_shape_non_negative tin tout output_size :
  forward_contract tin tout output_size ->
  Forall (fun n => 0 <= n) (planned_output_shape tin output_size).
Proof.
  intros (_ & _ & _ & _ & _ & Hwf & Hsize). unfold planned_output_shape.
  destruct (dim tin =? 3); repeat apply Forall_cons_2; try done;
    by apply well_formed_size.
Qed.

(** Where no product wraps around, a shape has no element exactly when
    one of its dimensions is empty. *)
Lemma numel_of_zero_iff (l : list Z) :
  Forall (fun n => 0 <= n) l -> fits_int64 l -> numel_of l = 0 <-> 0 ∈ l.
Proof.
  intros Hpos Hfits. rewrite numel_of_fits by done. clear Hfits.
  induction Hpos as [|x l Hx _ IH]; cbn [foldr].
  - split; [lia|]. intros H. by apply elem_of_nil in H.
  - rewrite elem_of_cons, <- IH. split; [|intros [<- | ->]; lia].
    intros H. apply Z.mul_eq_0 in H as [-> | H]; auto.
Qed.

(** Without the bound the equivalence fails: 2^32 times 2^32 is 0 in an
    [int64_t]. *)
Lemma numel_of_wraps_around :
  numel_of [2 ^ 32; 2 ^ 32] = 0 /\ (0 ∉ [2 ^ 32; 2 ^ 32]) /\ ~ fits_int64 [2 ^ 32; 2 ^ 32].
Proof.
  split; [reflexivity|]. split.
  - rewrite !elem_of_cons, elem_of_nil. intros [H | [H | []]]; discriminate H.
  - unfold fits_int64, int64_max. cbn. lia.
Qed.

(** X7.  An accepted forward call whose planned shape has an element
    count that an [int64_t] holds skips the kernel exactly when one of the
    dimensions of that shape (N, C, outH or outW) is zero; otherwise it
    invokes the kernel exactly once, after the resize, on an output that
    already has the planned shape and on the input as it is. *)
Theorem adaptive_avg_pool2d_kernel_invoked_once
    w input output tin tout output_size :
  tensors w !! input = Some tin ->
  tensors w !! output = Some tout ->
  forward_contract tin tout output_size ->
  fits_int64 (planned_output_shape tin output_size) ->
  exists w',
    adaptive_avg_pool2d_out_cpu input output_size output w = (Ok output, w') /\
    (0 ∈ planned_output_shape tin output_size ->
       kernel_calls w' = kernel_calls w) /\
    (0 ∉ planned_output_shape tin output_size ->
       exists out seen,
         kernel_calls w' =
           kernel_calls w ++ [adaptive_avg_pool2d_kernel_call out seen output_size] /\
         sizes out = planned_output_shape tin output_size /\
         (input <> output -> seen = tin)).
Proof.
  intros Hin Hout Hc Hfits.
  destruct (forward_outcomes w input output tin tout output_size Hin Hout)
    as [[_ E] | [Hnot _]]; [|done].
  eexists. split; [exact E|].
  pose proof (numel_of_zero_iff (planned_output_shape tin output_size)
                (planned_output_shape_non_negative _ _ _ Hc) Hfits) as Hz.
  unfold forward_world, numel. rewrite sizes_forward_resized.
  destruct (Z.eqb_spec (numel_of (planned_output_shape tin output_size)) 0) as [E0|N0];
    cbn [kernel_calls].
  - split; [done|]. intros Hn. by apply Hz in E0.
  - split; [intros H0; by apply Hz in H0|]. intros _.
    eexists _, _. split; [reflexivity|]. split; [apply sizes_forward_resized|].
    intros Hne. by destruct (decide (input = output)).
Qed.

(** X8.  For a rank-4 input the output of an accepted forward call is
    restrided to the memory format that the input suggests: when that is
    channels-last the output [N, C, outH, outW] has the strides
    [outH*outW*C, 1, outW*C, C]. *)
Theorem adaptive_avg_pool2d_output_memory_format
    w input output tin tout output_size :
  tensors w !! input = Some tin ->
  tensors w !! output = Some tout ->
  forward_contract tin tout output_size ->
  dim tin = 4 ->
  exists w' t',
    adaptive_avg_pool2d_out_cpu input output_size output w = (Ok output, w') /\
    tensors w' !! output = Some t' /\
    strides t' =
      memory_format_strides (suggest_memory_format tin)
        (planned_output_shape tin output_size) /\
    (suggest_memory_format tin = ChannelsLast ->
     forall n c oh ow,
       planned_output_shape tin output_size = [n; c; oh; ow] ->
       strides t' = [oh * (ow * c); 1; ow * c; c]).
Proof.
  intros Hin Hout Hc R.
  destruct (forward_outcomes w input output tin tout output_size Hin Hout)
    as [[_ E] | [Hnot _]]; [|done].
  destruct (forward_world_store w input output tin tout output_size)
    as (t' & Hst & _ & Hstr & _).
  assert (Hs : strides t' =
    memory_format_strides (suggest_memory_format tin)
      (planned_output_shape tin output_size)).
  { rewrite Hstr. unfold forward_resized. rewrite R. cbn [Z.eqb Pos.eqb strides with_strides].
    by rewrite sizes_resized. }
  exists (forward_world w input output tin tout output_size), t'.
  split; [done|]. rewrite Hst.
  split; [apply list_lookup_insert_eq; by eapply lookup_lt_Some|].
  split; [done|]. intros Hfmt n c oh ow Hp. by rewrite Hs, Hfmt, Hp.
Qed.

(** X9.  The template has no guard against passing one tensor as input and
    as output.  Such a call passes validation; the tensor is resized to the
    planned shape first, and, when that shape has elements (no dimension
    is zero, and their product is an [int64_t]), the kernel is then handed
    that resized tensor both as its output and as its input. *)
Theorem adaptive_avg_pool2d_out_cpu_in_place w self t output_size :
  tensors w !! self = Some t ->
  forward_contract t t output_size ->
  fits_int64 (planned_output_shape t output_size) ->
  0 ∉ planned_output_shape t output_size ->
  exists out,
    sizes out = planned_output_shape t output_size /\
    adaptive_avg_pool2d_out_cpu self output_size self w =
    (Ok self,
     mkWorld
       (<[self := with_data out (adaptive_avg_pool2d_kernel_cpu out out output_size)]>
          (tensors w))
       (kernel_calls w ++ [adaptive_avg_pool2d_kernel_call out out output_size])).
Proof.
  intros Ht Hc Hfits Hnz.
  destruct (forward_outcomes w self self t t output_size Ht Ht)
    as [[_ E] | [Hnot _]]; [|done].
  exists (forward_resized t t output_size).
  split; [apply sizes_forward_resized|]. rewrite E. f_equal.
  unfold forward_world, numel. rewrite sizes_forward_resized.
  destruct (Z.eqb_spec (numel_of (planned_output_shape t output_size)) 0) as [E0|N0].
  - apply numel_of_zero_iff in E0; [done| |done].
    by eapply planned_output_shape_non_negative.
  - by destruct (decide (self = self)).
Qed.

(** X10.  An accepted forward call whose output size has no negative
    element keeps shapes well formed: if no size of the input is negative,
    no size of the output is. *)
Theorem adaptive_avg_pool2d_output_well_formed
    w input output tin tout output_size :
  tensors w !! input = Some tin ->
  tensors w !! output = Some tout ->
  forward_contract tin tout output_size ->
  well_formed tin ->
  Forall (fun n => 0 <= n) output_size ->
  exists w' t',
    adaptive_avg_pool2d_out_cpu input output_size output w = (Ok output, w') /\
    tensors w' !! output = Some t' /\
    well_formed t'.
Proof.
  intros Hin Hout Hc Hwf Hos.
  destruct (forward_outcomes w input output tin tout output_size Hin Hout)
    as [[_ E] | [Hnot _]]; [|done].
  destruct (forward_world_store w input output tin tout output_size)
    as (t' & Hst & Hsz & _).
  exists (forward_world w input output tin tout output_size), t'.
  split; [done|]. rewrite Hst.
  split; [apply list_lookup_insert_eq; by eapply lookup_lt_Some|].
  unfold well_formed. rewrite Hsz. unfold planned_output_shape.
  destruct (dim tin =? 3); repeat apply Forall_cons_2; try done;
    by apply well_formed_size.
Qed.

(** ** Forward and backward together *)

Lemma backward_template_channel_dimension_empty
    w grad_input grad_output input tgo v :
  tensors w !! grad_output = Some tgo ->
  1 < dim tgo ->
  sizes tgo !! 1%nat = Some v -> v <= 0 ->
  adaptive_avg_pool2d_backward_out_cpu_template grad_input grad_output input w =
  (Err (TorchCheck (backward_grad_output_non_zero_size (sizes tgo) 1)), w).
Proof.
  intros Hgo Hdim Hv Hneg.
  assert (P1 : non_empty_dim tgo 1 = false).
  { unfold non_empty_dim. change (Z.to_nat 1) with 1%nat. rewrite Hv. cbn. lia. }
  destruct (backward_dimension_loop w grad_output tgo Hgo)
    as [[_ Hall] | (k & Hk & Pk & Hmin & Hrun)].
  { rewrite Hall in P1 by lia. discriminate. }
  assert (k = 1) as ->.
  { destruct (Z.le_gt_cases k 1); [lia|]. rewrite Hmin in P1 by lia. discriminate. }
  apply wp_equation. unfold adaptive_avg_pool2d_backward_out_cpu_template.
  wp_steps. eapply wp_of_run; [exact Hrun|]. done.
Qed.

(** X11.  Forward and backward compose: when outH and outW are positive
    (and, for a rank-4 input, the channel dimension is not empty), the
    tensor that the forward pass returns is accepted as [grad_output] by the
    backward pass for the same input, and the gradient that comes back has
    exactly the sizes of the input, which itself is left as it was. *)
Theorem adaptive_avg_pool2d_backward_accepts_forward_output w input tin oh ow :
  tensors w !! input = Some tin ->
  forward_contract tin (empty_like tin) [oh; ow] ->
  0 < oh -> 0 < ow ->
  (dim tin = 4 -> 0 < default 0 (sizes tin !! 1%nat)) ->
  exists w' t',
    (let* out := adaptive_avg_pool2d_cpu input [oh; ow] in
     adaptive_avg_pool2d_backward_cpu out input) w =
      (Ok (S (length (tensors w))), w') /\
    tensors w' !! S (length (tensors w)) = Some t' /\
    sizes t' = sizes tin /\
    tensors w' !! input = Some tin.
Proof.
  intros Hin Hc Hoh How Hch.
  set (w1 := mkWorld (tensors w ++ [empty_like tin]) (kernel_calls w)).
  set (out := length (tensors w)).
  destruct (adaptive_avg_pool2d_cpu_outcomes w input tin [oh; ow] Hin)
    as [[_ E1] | [Hnot _]]; [|done].
  fold w1 out in E1.
  set (w2 := forward_world w1 input out tin (empty_like tin) [oh; ow]) in *.
  destruct (forward_world_store w1 input out tin (empty_like tin) [oh; ow])
    as (X & Hst & Hsz & _ & Hd & _).
  fold w2 in Hst. unfold w1 in Hst. cbn [tensors] in Hst.
  unfold out in Hst. rewrite insert_fresh in Hst. fold out in Hst.
  assert (Hin2 : tensors w2 !! input = Some tin)
    by (rewrite Hst; by apply lookup_app_l_Some).
  assert (Hout2 : tensors w2 !! out = Some X)
    by (rewrite Hst; by apply list_lookup_middle).
  assert (Hlen2 : length (tensors w2) = S out)
    by (rewrite Hst, length_app; cbn; unfold out; lia).
  assert (Hbc : backward_contract (empty_like tin) X tin).
  { destruct Hc as (_ & Hrank & _ & _ & _ & Hwf & _).
    unfold backward_contract, dim. rewrite Hsz. split; [|split; [|split; [|split]]].
    - destruct Hrank as [R | R].
      + destruct (rank3_sizes _ R) as (c & h & wd & Hs).
        unfold planned_output_shape. rewrite R, Hs. cbn [Z.eqb Pos.eqb length].
        intros i Hi. assert (i = 1 \/ i = 2) as [-> | ->] by lia;
          [change (Z.to_nat 1) with 1%nat|change (Z.to_nat 2) with 2%nat]; cbn; lia.
      + destruct (rank4_sizes _ R) as (n & c & h & wd & Hs).
        specialize (Hch R). rewrite Hs in Hch. cbn in Hch.
        unfold planned_output_shape. rewrite R, Hs. cbn [Z.eqb Pos.eqb length].
        change (Z.to_nat (4 - 3)) with 1%nat.
        intros i Hi. assert (i = 1 \/ i = 2 \/ i = 3) as [-> | [-> | ->]] by lia;
          [change (Z.to_nat 1) with 1%nat|change (Z.to_nat 2) with 2%nat
          |change (Z.to_nat 3) with 3%nat]; cbn; lia.
    - unfold planned_output_shape.
      destruct Hrank as [R | R]; rewrite R; cbn; lia.
    - by rewrite Hd.
    - done.
    - done. }
  destruct (adaptive_avg_pool2d_backward_cpu_outcomes w2 out input X tin Hout2 Hin2)
    as [[_ E2] | [Hnot _]]; [|done].
  cbn zeta in E2. rewrite Hlen2 in E2.
  eexists _, _. split.
  { unfold bind. rewrite E1. exact E2. }
  unfold backward_world. cbn [tensors].
  destruct (backward_zeroed_facts tin (empty_like tin)
              (empty_like_holds_its_elements tin)) as (Hs & _).
  split; [|split].
  - rewrite <- Hlen2, insert_fresh. by apply list_lookup_middle.
  - done.
  - rewrite <- Hlen2, insert_fresh. by apply lookup_app_l_Some.
Qed.

(** X12.  The two passes do not agree on an empty channel dimension.  A
    rank-4 input [N, 0, H, W] with H and W positive is accepted by the
    forward pass for any output size without a negative element; it returns
    an output without elements and invokes no kernel.  The backward pass
    rejects that very output as [grad_output], naming dimension 1 as
    empty. *)
Theorem adaptive_avg_pool2d_empty_channels_forward_only w input tin n h wd oh ow :
  tensors w !! input = Some tin ->
  sizes tin = [n; 0; h; wd] ->
  0 <= n -> 0 < h -> 0 < wd ->
  0 <= oh -> 0 <= ow ->
  exists w1 w2,
    adaptive_avg_pool2d_cpu input [oh; ow] w = (Ok (length (tensors w)), w1) /\
    kernel_calls w1 = kernel_calls w /\
    adaptive_avg_pool2d_backward_cpu (length (tensors w)) input w1 =
      (Err (TorchCheck (backward_grad_output_non_zero_size [n; 0; oh; ow] 1)), w2).
Proof.
  intros Hin Hsz Hn Hh Hw Hoh How.
  destruct (size_of_rank4 _ _ _ _ _ Hsz) as (R & _ & _ & H2 & H1).
  assert (Hc : forward_contract tin (empty_like tin) [oh; ow]).
  { split; [done|]. split; [by right|]. split; [eauto|]. split; [eauto|].
    split; [done|]. split.
    - unfold well_formed. rewrite Hsz.
      repeat (apply Forall_cons; split); [lia..|constructor].
    - repeat (apply Forall_cons; split); [lia..|constructor]. }
  set (w1 := mkWorld (tensors w ++ [empty_like tin]) (kernel_calls w)).
  set (out := length (tensors w)).
  destruct (adaptive_avg_pool2d_cpu_outcomes w input tin [oh; ow] Hin)
    as [[_ E1] | [Hnot _]]; [|done].
  fold w1 out in E1.
  assert (Hp : planned_output_shape tin [oh; ow] = [n; 0; oh; ow])
    by (unfold planned_output_shape; by rewrite R, Hsz).
  assert (Hfw : forward_world w1 input out tin (empty_like tin) [oh; ow] =
                mkWorld (tensors w ++ [forward_resized tin (empty_like tin) [oh; ow]])
                  (kernel_calls w)).
  { unfold forward_world, numel. rewrite sizes_forward_resized, Hp.
    replace (numel_of [n; 0; oh; ow] =? 0) with true
      by (symmetry; apply Z.eqb_eq, numel_of_zero; rewrite !elem_of_cons; tauto).
    unfold w1, out. cbn [tensors kernel_calls]. by rewrite insert_fresh. }
  rewrite Hfw in E1.
  set (X := forward_resized tin (empty_like tin) [oh; ow]) in *.
  set (w2 := mkWorld (tensors w ++ [X]) (kernel_calls w)) in *.
  assert (Hin2 : tensors w2 !! input = Some tin)
    by (cbn; by apply lookup_app_l_Some).
  assert (HX : sizes X = [n; 0; oh; ow])
    by (unfold X; by rewrite sizes_forward_resized).
  eexists w2, _. split; [exact E1|]. split; [done|].
  rewrite (adaptive_avg_pool2d_backward_cpu_run _ _ _ _ Hin2). cbn zeta.
  erewrite (backward_template_channel_dimension_empty _ _ out input X 0).
  - by rewrite HX.
  - cbn. apply lookup_app_l_Some. by apply list_lookup_middle.
  - unfold dim. rewrite HX. cbn. lia.
  - by rewrite HX.
  - lia.
Qed.

(** ** The dispatching entry point, continued *)

(** X13.  [adaptive_avg_pool2d_symint] looks at the output size before it
    looks at the input: a size that does not have two elements is rejected
    with the length message, and a size of two elements with a negative one
    is rejected with the message that carries both elements; in both cases
    nothing is read or written, whatever [input] is. *)
Theorem adaptive_avg_pool2d_symint_checks_output_size_first w input :
  (forall output_size,
     length output_size <> 2%nat ->
     adaptive_avg_pool2d_symint input output_size w =
     (Err (TorchCheck output_size_must_be_2), w)) /\
  (forall oh ow,
     oh < 0 \/ ow < 0 ->
     adaptive_avg_pool2d_symint input [oh; ow] w =
     (Err (TorchCheck (output_size_elements_must_be_nonnegative oh ow)), w)).
Proof.
  split.
  - intros output_size Hlen. apply wp_equation. unfold adaptive_avg_pool2d_symint.
    wp_step. apply wp_check_fail; [by apply bool_decide_eq_false|]. by wp_steps.
  - intros oh ow Hneg. by apply adaptive_avg_pool2d_symint_rejects_negative.
Qed.

(** X14.  An MKL-DNN input is handed to [at::mkldnn_adaptive_avg_pool2d]
    whatever the (valid) output size is, 1x1 included: the result is what
    that primitive returns, its failure is the failure of the call, and
    neither [mean] nor a pooling kernel is involved. *)
Theorem adaptive_avg_pool2d_symint_mkldnn w input tin oh ow :
  tensors w !! input = Some tin ->
  is_mkldnn tin = true ->
  0 <= oh -> 0 <= ow ->
  (forall r, at_mkldnn_adaptive_avg_pool2d tin [oh; ow] = Ok r ->
     adaptive_avg_pool2d_symint input [oh; ow] w =
     (Ok (length (tensors w)), mkWorld (tensors w ++ [r]) (kernel_calls w))) /\
  (forall e, at_mkldnn_adaptive_avg_pool2d tin [oh; ow] = Err e ->
     adaptive_avg_pool2d_symint input [oh; ow] w = (Err e, w)).
Proof.
  intros Hin Hm Hoh How.
  assert (Hhead : forall Q,
    wp (mkldnn_adaptive_avg_pool2d input [oh; ow]) w Q ->
    wp (adaptive_avg_pool2d_symint input [oh; ow]) w Q).
  { intros Q HQ. unfold adaptive_avg_pool2d_symint.
    wp_step. apply wp_check_pass; [reflexivity|]. wp_steps.
    apply wp_check_pass.
    { change (default 0 ([oh; ow] !! 0%nat)) with oh.
      change (default 0 ([oh; ow] !! 1%nat)) with ow. lia. }
    wp_steps. by rewrite Hm. }
  split.
  - intros r Hr. apply wp_equation, Hhead. unfold mkldnn_adaptive_avg_pool2d.
    wp_steps. rewrite Hr. by wp_steps.
  - intros e He. apply wp_equation, Hhead. unfold mkldnn_adaptive_avg_pool2d.
    wp_steps. by rewrite He.
Qed.

(** X15.  Validation depends on the entry point.  For an input that is not
    quantized, not MKL-DNN and not on XPU, and whose rank is neither 3 nor
    4, [adaptive_avg_pool2d_cpu] rejects a 1x1 request with the rank message
    and leaves nothing behind, while [adaptive_avg_pool2d_symint] runs none
    of the checks of the template on it: it returns the tensor that [mean]
    returns, or throws what [mean] throws. *)
Theorem adaptive_avg_pool2d_symint_validation_by_path w input tin :
  tensors w !! input = Some tin ->
  is_quantized tin = false ->
  is_mkldnn tin = false ->
  is_xpu tin = false ->
  ~ (dim tin = 3 \/ dim tin = 4) ->
  adaptive_avg_pool2d_cpu input [1; 1] w =
    (Err (TorchCheck (expected_3D_or_4D_tensor (sizes tin))), w) /\
  (forall m, at_mean tin [-1; -2] true = Ok m ->
     adaptive_avg_pool2d_symint input [1; 1] w =
     (Ok (length (tensors w)), mkWorld (tensors w ++ [m]) (kernel_calls w))) /\
  (forall e, at_mean tin [-1; -2] true = Err e ->
     adaptive_avg_pool2d_symint input [1; 1] w = (Err e, w)).
Proof.
  intros Hin Hq Hm Hx Hrank.
  assert (Hhead : forall Q,
    wp (let* out := Tensor_mean input [-1; -2] true in
        let* memory_format := Tensor_suggest_memory_format input in
        (if bool_decide (memory_format = ChannelsLast) then
           let* n := Tensor_size input 0 in
           let* c := Tensor_size input 1 in
           Tensor_as_strided_ out [n; c; 1; 1] [c; 1; c; c]
         else ret tt) ;;
        ret out) w Q ->
    wp (adaptive_avg_pool2d_symint input [1; 1]) w Q).
  { intros Q HQ. unfold adaptive_avg_pool2d_symint.
    wp_step. apply wp_check_pass; [reflexivity|]. wp_steps.
    apply wp_check_pass; [reflexivity|]. wp_steps.
    rewrite Hm, Hq, Hx. exact HQ. }
  split; [|split].
  - rewrite (adaptive_avg_pool2d_cpu_run _ _ _ _ Hin). cbn zeta.
    assert (E : adaptive_avg_pool2d_out_cpu_template (length (tensors w)) input [1; 1]
                  (mkWorld (tensors w ++ [empty_like tin]) (kernel_calls w)) =
                (Err (TorchCheck (expected_3D_or_4D_tensor (sizes tin))),
                 mkWorld (tensors w ++ [empty_like tin]) (kernel_calls w))).
    { apply wp_equation. unfold adaptive_avg_pool2d_out_cpu_template. wp_step.
      apply wp_check_pass; [reflexivity|].
      assert (Hin1 : (tensors w ++ [empty_like tin]) !! input = Some tin)
        by (by apply lookup_app_l_Some).
      wp_steps. apply wp_check_fail; [|by wp_steps].
      destruct (Z.eqb_spec (dim tin) 3), (Z.eqb_spec (dim tin) 4); tauto. }
    rewrite E. cbn [tensors kernel_calls]. by rewrite released_local.
  - intros m Hmean.
    assert (Hfmt : suggest_memory_format tin <> ChannelsLast).
    { intros Hfmt. pose proof (suggest_memory_format_rank tin) as R.
      rewrite Hfmt in R. tauto. }
    assert (Hin1 : (tensors w ++ [m]) !! input = Some tin)
      by (by apply lookup_app_l_Some).
    apply wp_equation, Hhead. unfold Tensor_mean. wp_steps.
    rewrite Hmean. wp_steps.
    rewrite bool_decide_eq_false_2 by done. by wp_steps.
  - intros e He. apply wp_equation, Hhead. unfold Tensor_mean. wp_steps.
    by rewrite He.
Qed.

(** ** A negative output size *)

End PoolingProofs.

(** ** The claims on the sample store *)

Lemma adaptive_avg_pool2d_output_shape_witness :
  exists output w' t',
    @adaptive_avg_pool2d_cpu Z sample_externals 0%nat [2; 2] sample_world = (Ok output, w') /\
    tensors w' !! output = Some t' /\
    (dim (sample_tensor [2; 3; 4; 4] Float) = 3 ->
     exists c, size (sample_tensor [2; 3; 4; 4] Float) (-3) = Ok c /\ sizes t' = [c; 2; 2]) /\
    (dim (sample_tensor [2; 3; 4; 4] Float) = 4 ->
     exists n c, size (sample_tensor [2; 3; 4; 4] Float) 0 = Ok n /\
                 size (sample_tensor [2; 3; 4; 4] Float) (-3) = Ok c /\
                 sizes t' = [n; c; 2; 2]).
Proof.
  apply (@adaptive_avg_pool2d_output_shape Z sample_externals sample_world 0%nat
           (sample_tensor [2; 3; 4; 4] Float) 4 4 2 2).
  - reflexivity.
  - unfold well_formed. cbn. repeat constructor; lia.
  - right. reflexivity.
  - reflexivity.
  - lia.
  - reflexivity.
  - lia.
  - lia.
  - lia.
Defined.

Lemma adaptive_avg_pool2d_global_mean_fast_path_witness :
  exists n c h wd,
    sizes sample_channels_last = [n; c; h; wd] /\
    exists m,
      @adaptive_avg_pool2d_symint Z sample_externals 5%nat [1; 1] sample_world =
      (Ok 6%nat,
       mkWorld
         (tensors sample_world ++
            [mkTensor [n; c; 1; 1] [c; 1; c; c] (dtype m) (device m) (layout m)
               (quantized m) (data m)])
         (kernel_calls sample_world)).
Proof.
  destruct (@adaptive_avg_pool2d_global_mean_fast_path Z sample_externals sample_world
              5%nat sample_channels_last) as [_ Hmean].
  - reflexivity.
  - reflexivity.
  - reflexivity.
  - reflexivity.
  - destruct (Hmean _ eq_refl) as [_ Hcl].
    destruct Hcl as (n & c & h & wd & Hsz & Hrun); [reflexivity|].
    exists n, c, h, wd. split; [exact Hsz|]. eexists. exact Hrun.
Defined.

Lemma adaptive_avg_pool2d_backward_grad_input_witness :
  exists grad_input w' z seen t' tin',
    @adaptive_avg_pool2d_backward_cpu Z sample_externals 2%nat 0%nat sample_world =
      (Ok grad_input, w') /\
    kernel_calls w' =
      kernel_calls sample_world ++ [adaptive_avg_pool2d_backward_kernel_call z seen] /\
    sizes z = [2; 3; 4; 4] /\
    strides z = memory_format_strides
                  (suggest_memory_format (sample_tensor [2; 3; 4; 4] Float)) [2; 3; 4; 4] /\
    data z = replicate 96 0 /\
    tensors w' !! grad_input = Some t' /\
    sizes t' = [2; 3; 4; 4] /\ strides t' = strides z /\
    tensors w' !! 0%nat = Some tin' /\ sizes tin' = sizes t'.
Proof.
  apply (@adaptive_avg_pool2d_backward_grad_input Z sample_externals sample_world
           2%nat 0%nat (sample_tensor [2; 3; 2; 2] Float) (sample_tensor [2; 3; 4; 4] Float)).
  - reflexivity.
  - reflexivity.
  - unfold well_formed. cbn. repeat constructor; lia.
  - intros i Hi. change (dim (sample_tensor [2; 3; 2; 2] Float)) with 4 in Hi.
    assert (i = 1 \/ i = 2 \/ i = 3) as [-> | [-> | ->]] by lia; reflexivity.
  - right. reflexivity.
  - reflexivity.
Defined.



Lemma adaptive_avg_pool2d_zero_size_fast_exit_witness :
  exists output w' t',
    @adaptive_avg_pool2d_cpu Z sample_externals 0%nat [0; 2] sample_world = (Ok output, w') /\
    tensors w' !! output = Some t' /\
    ((dim (sample_tensor [2; 3; 4; 4] Float) = 3 ->
      exists c, size (sample_tensor [2; 3; 4; 4] Float) (-3) = Ok c /\
                sizes t' = [c; 0; 2]) /\
     (dim (sample_tensor [2; 3; 4; 4] Float) = 4 ->
      exists n c, size (sample_tensor [2; 3; 4; 4] Float) 0 = Ok n /\
                  size (sample_tensor [2; 3; 4; 4] Float) (-3) = Ok c /\
                  sizes t' = [n; c; 0; 2])) /\
    numel t' = 0 /\
    kernel_calls w' = kernel_calls sample_world.
Proof.
  apply (@adaptive_avg_pool2d_zero_size_fast_exit Z sample_externals sample_world 0%nat
           (sample_tensor [2; 3; 4; 4] Float) 4 4 0 2).
  - reflexivity.
  - unfold well_formed. cbn. repeat constructor; lia.
  - right. reflexivity.
  - reflexivity.
  - lia.
  - reflexivity.
  - lia.
  - lia.
  - lia.
  - left. reflexivity.
Defined.


Lemma validation_failure_leaves_tensors_unchanged_witness :
  exists e w',
    @adaptive_avg_pool2d_out_cpu Z sample_externals 0%nat [2; 2] 4%nat sample_world
      = (Err e, w') /\
    w' = sample_world /\ exists m, e = TorchCheck m.
Proof.
  pose proof (@validation_failure_leaves_tensors_unchanged Z sample_externals sample_world
                0%nat 4%nat 1%nat 3%nat
                (sample_tensor [2; 3; 4; 4] Float) (sample_tensor [5] Double)
                (sample_tensor [0] Float) (sample_tensor [2; 0; 2; 2] Float) [2; 2]
                eq_refl eq_refl eq_refl eq_refl) as [Hforward _].
  do 2 eexists. split; [vm_compute; reflexivity|].
  apply Hforward. vm_compute. reflexivity.
Defined.

Lemma adaptive_avg_pool2d_backward_empty_dimension_first_witness :
  exists k,
    1 <= k <= 1 /\
    default 0 (sizes (sample_tensor [2; 0; 2; 2] Float) !! Z.to_nat k) <= 0 /\
    (forall j, 1 <= j < k ->
       0 < default 0 (sizes (sample_tensor [2; 0; 2; 2] Float) !! Z.to_nat j)) /\
    @adaptive_avg_pool2d_backward_out_cpu Z sample_externals 1%nat 3%nat 0%nat sample_world =
    (Err (TorchCheck (backward_grad_output_non_zero_size
                        (sizes (sample_tensor [2; 0; 2; 2] Float)) k)), sample_world).
Proof.
  apply (@adaptive_avg_pool2d_backward_empty_dimension_first Z sample_externals
           sample_world 1%nat 3%nat 0%nat (sample_tensor [2; 0; 2; 2] Float) 1).
  - reflexivity.
  - split; [lia|reflexivity].
  - reflexivity.
Defined.

(* ===================================================================== *)
(** * Proofs: record_function_ops.cpp *)
(* ===================================================================== *)

Section RecordFunctionProofs.
Context {IValue TypePtr ThreadLocalState : Type}.
Local Abbreviation Profiler' := (@Profiler IValue TypePtr ThreadLocalState).
Implicit Types (p q : Profiler') (h : RecordFunctionHolder) (rf : RecordFunction)
  (f c : @Future IValue TypePtr ThreadLocalState).

Lemma wp_get_holder p this h Q :
  holders p !! this = Some h -> Q (Ok h) p -> wp (get_holder this) p Q.
Proof. unfold wp, get_holder. intros ->. auto. Qed.

Lemma wp_set_holder p this h (Q : res unit -> Profiler' -> Prop) :
  Q (Ok tt) (mkProfiler (<[this := h]> (holders p)) (futures p) (tls p) (history p)) ->
  wp (set_holder this h) p Q.
Proof. auto. Qed.

Lemma wp_get_future p fut f Q :
  futures p !! fut = Some f -> Q (Ok f) p -> wp (get_future fut) p Q.
Proof. unfold wp, get_future. intros ->. auto. Qed.

Lemma wp_set_future p fut f (Q : res unit -> Profiler' -> Prop) :
  Q (Ok tt) (mkProfiler (holders p) (<[fut := f]> (futures p)) (tls p) (history p)) ->
  wp (set_future fut f) p Q.
Proof. auto. Qed.

Lemma wp_get_tls p (Q : res ThreadLocalState -> Profiler' -> Prop) :
  Q (Ok (tls p)) p -> wp get_tls p Q.
Proof. auto. Qed.

Lemma wp_emit p e (Q : res unit -> Profiler' -> Prop) :
  Q (Ok tt) (mkProfiler (holders p) (futures p) (tls p) (history p ++ [e])) ->
  wp (emit e) p Q.
Proof. auto. Qed.

Lemma wp_createInstance p type (Q : res FutureRef -> Profiler' -> Prop) :
  Q (Ok (length (futures p)))
    (mkProfiler (holders p) (futures p ++ [mkFuture None [] type]) (tls p) (history p)) ->
  wp (Future_createInstance type) p Q.
Proof. auto. Qed.

Lemma wp_make_intrusive p (Q : res HolderRef -> Profiler' -> Prop) :
  Q (Ok (length (holders p)))
    (mkProfiler (holders p ++ [mkHolder None]) (futures p) (tls p) (history p)) ->
  wp make_intrusive_RecordFunctionHolder p Q.
Proof. auto. Qed.

Lemma wp_check_true {St} (cond : bool) (msg : M St message) s Q :
  cond = true -> Q (Ok tt) s -> wp (TORCH_CHECK cond msg) s Q.
Proof. intros ->. auto. Qed.

Lemma wp_eq {St A} (m : M St A) s r s' :
  wp m s (fun r0 s0 => r0 = r /\ s0 = s') -> m s = (r, s').
Proof. unfold wp. destruct (m s); cbn. by intros [-> ->]. Qed.

Ltac plookup :=
  cbn [holders futures tls history];
  first
    [ eassumption
    | rewrite list_lookup_insert_eq
        by (rewrite ?length_insert; eapply lookup_lt_Some; eassumption);
      reflexivity
    | rewrite list_lookup_insert_ne by assumption; plookup ].

Ltac pstep :=
  lazymatch goal with
  | |- wp (bind _ _) _ _ => apply wp_bind
  | |- wp (ret _) _ _ => apply wp_ret
  | |- wp (throw _) _ _ => apply wp_throw
  | |- wp (get_holder _) _ _ => eapply wp_get_holder; [plookup|]
  | |- wp (set_holder _ _) _ _ => apply wp_set_holder
  | |- wp (get_future _) _ _ => eapply wp_get_future; [plookup|]
  | |- wp (set_future _ _) _ _ => apply wp_set_future
  | |- wp get_tls _ _ => apply wp_get_tls
  | |- wp (emit _) _ _ => apply wp_emit
  | |- wp (Future_createInstance _) _ _ => apply wp_createInstance
  | |- wp (deref (Some _)) _ _ => apply wp_ret
  | |- wp (Future_elementType _) _ _ => unfold Future_elementType
  | |- wp (for_each [] _) _ _ => cbn [for_each]
  | |- wp (for_each (_ :: _) _) _ _ => cbn [for_each]
  end; cbn beta iota.

Ltac psteps := repeat pstep; cbn [holders futures tls history].

(** ** enter and exit *)

Lemma RecordFunction_end_run p rf :
  RecordFunction_end rf p =
  (Ok (ended rf),
   mkProfiler (holders p) (futures p) (tls p) (history p ++ end_events rf (tls p))).
Proof.
  unfold RecordFunction_end, end_events, ended.
  destruct rf as [sc nm [|]]; cbn [running scope name].
  - apply wp_eq. by psteps.
  - unfold ret. by rewrite app_nil_r; destruct p.
Qed.

Lemma exit_never_entered p this h :
  holders p !! this = Some h ->
  record_function_ h = None ->
  RecordFunctionHolder_exit this p =
  (Err (TorchCheck record_function_must_be_set_via_enter), p).
Proof.
  intros Hh Hnone. apply wp_eq. unfold RecordFunctionHolder_exit. psteps.
  rewrite Hnone. apply wp_TORCH_CHECK; [intros E; by apply bool_decide_eq_true in E|].
  intros _. by psteps.
Qed.

Lemma exit_entered p this h rf :
  holders p !! this = Some h ->
  record_function_ h = Some rf ->
  RecordFunctionHolder_exit this p = (Ok tt, after_exit p this rf).
Proof.
  intros Hh Hrf. apply wp_eq. unfold RecordFunctionHolder_exit. psteps.
  rewrite Hrf. apply wp_check_true; [by apply bool_decide_eq_true|].
  psteps. eapply wp_of_run; [apply RecordFunction_end_run|]. cbn beta iota.
  by psteps.
Qed.

Lemma enter_run p this h nm :
  holders p !! this = Some h ->
  RecordFunctionHolder_enter this nm p =
  (Ok tt, after_enter p this (record_function_ h) nm).
Proof.
  intros Hh. apply wp_eq. unfold RecordFunctionHolder_enter, after_enter. psteps.
  destruct (record_function_ h) as [old|].
  - pstep. eapply wp_of_run; [apply RecordFunction_end_run|]. cbn beta iota.
    unfold RecordFunction_before. psteps.
    split; [done|]. rewrite list_insert_insert_eq. by rewrite <- app_assoc.
  - unfold RecordFunction_before. psteps.
    split; [done|]. by rewrite list_insert_insert_eq.
Qed.

(** C9.  [exit()] on a holder whose record function was never set by
    [enter] throws the [TORCH_CHECK] error and changes nothing.  After
    [enter(name)], [exit()] returns, runs the end callbacks of the scope
    [name] and leaves the scope ended.  The same holds through
    [record_function_enter] and [record_function_exit]. *)
Theorem RecordFunctionHolder_exit_needs_enter p this h nm :
  holders p !! this = Some h ->
  (record_function_ h = None ->
     RecordFunctionHolder_exit this p =
     (Err (TorchCheck record_function_must_be_set_via_enter), p)) /\
  (let p1 := after_enter p this (record_function_ h) nm in
   RecordFunctionHolder_enter this nm p = (Ok tt, p1) /\
   RecordFunctionHolder_exit this p1 =
   (Ok tt,
    mkProfiler
      (<[this := mkHolder (Some (mkRecordFunction USER_SCOPE nm false))]> (holders p))
      (futures p) (tls p)
      (history p1 ++ [end_callbacks USER_SCOPE nm (tls p)]))) /\
  (let* holder := make_intrusive_RecordFunctionHolder in
   record_function_exit (Some holder)) p =
    (Err (TorchCheck record_function_must_be_set_via_enter),
     mkProfiler (holders p ++ [mkHolder None]) (futures p) (tls p) (history p)) /\
  (let* holder := record_function_enter nm in
   record_function_exit (Some holder)) p =
    (Ok tt,
     mkProfiler
       (holders p ++ [mkHolder (Some (mkRecordFunction USER_SCOPE nm false))])
       (futures p) (tls p)
       (history p ++ [start_callbacks USER_SCOPE nm (tls p);
                      end_callbacks USER_SCOPE nm (tls p)])).
Proof.
  intros Hh.
  assert (Hfresh : forall x,
    (holders p ++ [x]) !! length (holders p) = Some x)
    by (intros x; by apply list_lookup_middle).
  split; [by apply exit_never_entered|]. split; [|split].
  - split; [by apply enter_run|].
    rewrite (exit_entered _ this
               (mkHolder (Some (mkRecordFunction USER_SCOPE nm true)))
               (mkRecordFunction USER_SCOPE nm true)).
    + unfold after_exit, after_enter, ended, end_events. cbn.
      by rewrite list_insert_insert_eq.
    + unfold after_enter. cbn [holders].
      apply list_lookup_insert_eq. by eapply lookup_lt_Some.
    + reflexivity.
  - apply wp_eq. pstep. apply wp_make_intrusive. cbn beta iota.
    unfold record_function_exit. psteps.
    eapply wp_of_run; [by eapply exit_never_entered; [apply Hfresh|]|]. done.
  - apply wp_eq. unfold record_function_enter. psteps.
    apply wp_make_intrusive. cbn beta iota. pstep.
    eapply wp_of_run; [by eapply enter_run; apply Hfresh|]. cbn beta iota.
    psteps. unfold record_function_exit. psteps.
    eapply wp_of_run.
    { eapply exit_entered.
      - unfold after_enter. cbn [holders].
        apply list_lookup_insert_eq. rewrite length_app. cbn. lia.
      - reflexivity. }
    split; [done|].
    unfold after_exit, after_enter, ended, end_events. cbn.
    rewrite list_insert_insert_eq, insert_app_r_alt, Nat.sub_diag by done. cbn.
    by rewrite <- app_assoc.
Qed.

(** ** The continuation of [_call_end_callbacks_on_fut] *)

Lemma wp_try_catch {A} (body : M Profiler' A) handler p Q :
  wp body p (fun r s' => match r with
                         | Ok a => Q (Ok a) s'
                         | Err e => wp (handler e) s' Q
                         | OutOfFuel => Q OutOfFuel s'
                         end) ->
  wp (try_catch body handler) p Q.
Proof. unfold wp, try_catch. destruct (body p) as [[a|e|] s']; auto. Qed.

Lemma wp_ThreadLocalStateGuard {A} captured (body : M Profiler' A) p Q :
  wp body (mkProfiler (holders p) (futures p) captured (history p))
    (fun r s' => Q r (mkProfiler (holders s') (futures s') (tls p) (history s'))) ->
  wp (ThreadLocalStateGuard captured body) p Q.
Proof. unfold wp, ThreadLocalStateGuard. by destruct (body _) as [r s']. Qed.

(** The profiling function ends the scope of an entered holder and then
    yields what the future holds: its value, or its error rethrown. *)
Lemma futureProfilingFunc_run p holder h rf fut f r :
  holders p !! holder = Some h ->
  record_function_ h = Some rf ->
  futures p !! fut = Some f ->
  resolution_ f = Some r ->
  futureProfilingFunc (Some holder) fut p = (outcome_of r, after_exit p holder rf).
Proof.
  intros Hh Hrf Hf Hr. apply wp_eq. unfold futureProfilingFunc. pstep.
  unfold TORCH_INTERNAL_ASSERT. rewrite bool_decide_eq_true_2 by done. psteps.
  eapply wp_of_run; [by eapply exit_entered|]. cbn beta iota.
  unfold Future_value, after_exit. psteps. rewrite Hr.
  destruct r; by psteps.
Qed.

(** Resolving a pending future that has no callbacks. *)
Lemma Future_complete_pending fuel p fut c (r : @resolution IValue) :
  futures p !! fut = Some c ->
  resolution_ c = None ->
  callbacks_ c = [] ->
  Future_complete (S fuel) fut r p =
  (Ok tt,
   mkProfiler (holders p) (<[fut := mkFuture (Some r) [] (type_ c)]> (futures p))
     (tls p) (history p ++ [future_resolved fut r])).
Proof.
  intros Hc Hr Hcb. apply wp_eq. cbn [Future_complete]. psteps.
  rewrite Hr, Hcb. apply wp_check_true; [done|]. by psteps.
Qed.

Lemma continuation_run fuel q holder h rf fut f (r : @resolution IValue)
    childFut c captured :
  holders q !! holder = Some h ->
  record_function_ h = Some rf ->
  futures q !! fut = Some f ->
  resolution_ f = Some r ->
  futures q !! childFut = Some c ->
  resolution_ c = None ->
  callbacks_ c = [] ->
  invoke_callback (Future_complete (S fuel))
    (then_callback childFut captured (Some holder)) fut q =
  (Ok tt, after_continuation q holder rf captured childFut (type_ c) r).
Proof.
  intros Hh Hrf Hf Hr Hc Hcr Hcb. apply wp_eq. unfold invoke_callback.
  apply wp_try_catch. pstep. apply wp_ThreadLocalStateGuard.
  eapply wp_of_run; [by eapply futureProfilingFunc_run|].
  unfold after_exit. cbn [holders futures tls history].
  destruct r as [v|e]; cbn [outcome_of];
    (eapply wp_of_run; [by eapply Future_complete_pending|]);
    unfold after_continuation; cbn [holders futures tls history];
    by rewrite <- app_assoc.
Qed.

(** C8, amended.  For a holder that is defined and was entered, and any
    future: if the future is already resolved, the continuation runs at
    once; if it is pending, the continuation is added to its callbacks and
    runs when the future is resolved.  Whenever it runs, it first ends
    the scope of the holder, under the thread-local state captured at
    wrapping time, and then resolves the returned future with exactly
    what the wrapped future holds, a value as that value and an error as
    that error. *)
Theorem call_end_callbacks_on_fut_propagates fuel p holder h rf fut f :
  holders p !! holder = Some h ->
  record_function_ h = Some rf ->
  futures p !! fut = Some f ->
  let profiledFut := length (futures p) in
  let continuation := then_callback profiledFut (tls p) (Some holder) in
  let created :=
    mkProfiler (holders p) (futures p ++ [mkFuture None [] (type_ f)])
      (tls p) (history p) in
  let attached :=
    mkProfiler (holders p)
      (<[fut := mkFuture None (callbacks_ f ++ [continuation]) (type_ f)]>
         (futures created))
      (tls p) (history p) in
  (forall r, resolution_ f = Some r ->
     _call_end_callbacks_on_fut (S fuel) (Some holder) fut p =
     (Ok profiledFut,
      after_continuation created holder rf (tls p) profiledFut (type_ f) r)) /\
  (resolution_ f = None ->
     _call_end_callbacks_on_fut (S fuel) (Some holder) fut p =
     (Ok profiledFut, attached)) /\
  (forall q h' rf' f' r c,
     holders q !! holder = Some h' ->
     record_function_ h' = Some rf' ->
     futures q !! fut = Some f' ->
     resolution_ f' = Some r ->
     futures q !! profiledFut = Some c ->
     resolution_ c = None ->
     callbacks_ c = [] ->
     invoke_callback (Future_complete (S fuel)) continuation fut q =
     (Ok tt, after_continuation q holder rf' (tls p) profiledFut (type_ c) r)) /\
  (forall r, resolution_ f = None -> callbacks_ f = [] ->
     Future_complete (S (S fuel)) fut r attached =
     (Ok tt,
      after_continuation
        (mkProfiler (holders p)
           (<[fut := mkFuture (Some r) [] (type_ f)]> (futures created))
           (tls p) (history p ++ [future_resolved fut r]))
        holder rf (tls p) profiledFut (type_ f) r)).
Proof.
  intros Hh Hrf Hf profiledFut continuation created attached.
  assert (Hlt : (fut < length (futures p))%nat) by (by eapply lookup_lt_Some).
  assert (Hf1 : futures created !! fut = Some f)
    by (by apply lookup_app_l_Some).
  assert (Hc1 : futures created !! profiledFut = Some (mkFuture None [] (type_ f)))
    by (by apply list_lookup_middle).
  assert (Hhead : forall Q,
    wp (Future_addCallback (S fuel) fut continuation) created
       (fun r0 s' => match r0 with
                     | Ok _ => Q (Ok profiledFut) s'
                     | Err e => Q (Err e) s'
                     | OutOfFuel => Q OutOfFuel s'
                     end) ->
    wp (_call_end_callbacks_on_fut (S fuel) (Some holder) fut) p Q).
  { intros Q HQ. unfold _call_end_callbacks_on_fut, Future_then. psteps.
    eapply wp_mono; [exact HQ|]. intros [[]|e|] s'; cbn; auto. }
  split; [|split; [|split]].
  - intros r Hr. apply wp_eq, Hhead. unfold Future_addCallback. pstep.
    eapply wp_get_future; [exact Hf1|]. cbn beta iota. rewrite Hr.
    eapply wp_of_run; [by eapply continuation_run|]. done.
  - intros Hr. apply wp_eq, Hhead. unfold Future_addCallback. pstep.
    eapply wp_get_future; [exact Hf1|]. cbn beta iota. rewrite Hr. by psteps.
  - intros q h' rf' f' r c Hh' Hrf' Hf' Hr Hc Hcr Hcb.
    by eapply continuation_run.
  - intros r Hr Hcb. apply wp_eq. cbn [Future_complete]. pstep.
    eapply wp_get_future.
    { unfold attached. cbn [futures]. apply list_lookup_insert_eq.
      unfold created. cbn [futures]. rewrite length_app. lia. }
    cbn beta iota. cbn [resolution_ callbacks_ type_]. pstep.
    apply wp_check_true; [done|]. psteps. rewrite Hcb. cbn [app for_each]. pstep.
    unfold attached. cbn [holders futures tls history].
    rewrite list_insert_insert_eq.
    eapply wp_of_run.
    { apply (continuation_run fuel _ holder h rf fut
               (mkFuture (Some r) [] (type_ f)) r profiledFut
               (mkFuture None [] (type_ f)) (tls p));
        cbn [holders futures tls history]; try done.
      - apply list_lookup_insert_eq. unfold created. cbn [futures].
        rewrite length_app. lia.
      - rewrite list_lookup_insert_ne by (unfold profiledFut; lia). exact Hc1. }
    cbn beta iota. by psteps.
Qed.

(* ===================================================================== *)
(** ** Further properties of the profiler scopes *)
(* ===================================================================== *)

Lemma insert_app_r_alt_fresh {A} (l : list A) (x y : A) :
  <[length l := y]> (l ++ [x]) = l ++ [y].
Proof. rewrite insert_app_r_alt by done. by rewrite Nat.sub_diag. Qed.

(** X16.  [exit()] does not unset the record function, so a second
    [exit()] on an entered holder does not throw; it finds the scope ended
    and runs no callback: two exits leave what one exit leaves. *)
Theorem RecordFunctionHolder_exit_twice p this h rf :
  holders p !! this = Some h ->
  record_function_ h = Some rf ->
  (RecordFunctionHolder_exit this ;; RecordFunctionHolder_exit this) p =
  (Ok tt, after_exit p this rf) /\
  RecordFunctionHolder_exit this p = (Ok tt, after_exit p this rf).
Proof.
  intros Hh Hrf. split; [|by eapply exit_entered].
  unfold bind. erewrite exit_entered by done.
  rewrite (exit_entered _ this (mkHolder (Some (ended rf))) (ended rf)).
  - f_equal. unfold after_exit, ended, end_events. cbn.
    by rewrite list_insert_insert_eq, app_nil_r.
  - unfold after_exit. cbn [holders]. apply list_lookup_insert_eq.
    by eapply lookup_lt_Some.
  - reflexivity.
Qed.

(** X17.  [enter] on a holder that already owns a record function destroys
    it, which ends its scope: entering [a] and then [b] on one holder runs
    start [a], end [a], start [b] in this order, and leaves the holder with
    the running scope [b]. *)
Theorem RecordFunctionHolder_enter_twice p this h a b :
  holders p !! this = Some h ->
  (RecordFunctionHolder_enter this a ;; RecordFunctionHolder_enter this b) p =
  (Ok tt,
   mkProfiler
     (<[this := mkHolder (Some (mkRecordFunction USER_SCOPE b true))]> (holders p))
     (futures p) (tls p)
     (history (after_enter p this (record_function_ h) a) ++
        [end_callbacks USER_SCOPE a (tls p); start_callbacks USER_SCOPE b (tls p)])).
Proof.
  intros Hh. unfold bind. rewrite (enter_run _ _ _ _ Hh).
  rewrite (enter_run _ this (mkHolder (Some (mkRecordFunction USER_SCOPE a true)))).
  - f_equal. unfold after_enter, end_events. cbn.
    by rewrite list_insert_insert_eq.
  - unfold after_enter. cbn [holders]. apply list_lookup_insert_eq.
    by eapply lookup_lt_Some.
Qed.

(** ** The continuation on a holder without a scope *)

Lemma call_end_callbacks_head fuel p holder fut f Q :
  futures p !! fut = Some f ->
  wp (Future_addCallback fuel fut
        (then_callback (length (futures p)) (tls p) holder))
     (mkProfiler (holders p) (futures p ++ [mkFuture None [] (type_ f)])
        (tls p) (history p))
     (fun r0 s' => match r0 with
                   | Ok _ => Q (Ok (length (futures p))) s'
                   | Err e => Q (Err e) s'
                   | OutOfFuel => Q OutOfFuel s'
                   end) ->
  wp (_call_end_callbacks_on_fut fuel holder fut) p Q.
Proof.
  intros Hf HQ. unfold _call_end_callbacks_on_fut, Future_then. psteps.
  eapply wp_mono; [exact HQ|]. intros [[]|e|] s'; cbn; auto.
Qed.

(** X18.  Wrapping a future that is still pending runs nothing, whatever
    the holder is (entered, never entered or undefined) and whatever the
    fuel: no [exit()], no callback, no profiler event.  The wrapped future
    stays pending with the continuation added after the callbacks it had,
    and the returned future is new and pending. *)
Theorem call_end_callbacks_on_fut_pending fuel p holder fut f :
  futures p !! fut = Some f ->
  resolution_ f = None ->
  _call_end_callbacks_on_fut fuel holder fut p =
  (Ok (length (futures p)),
   mkProfiler (holders p)
     (<[fut := mkFuture None
                 (callbacks_ f ++ [then_callback (length (futures p)) (tls p) holder])
                 (type_ f)]>
        (futures p ++ [mkFuture None [] (type_ f)]))
     (tls p) (history p)).
Proof.
  intros Hf Hr. apply wp_eq. eapply call_end_callbacks_head; [exact Hf|].
  unfold Future_addCallback. pstep.
  eapply wp_get_future; [cbn; by apply lookup_app_l_Some|]. cbn beta iota.
  rewrite Hr. by psteps.
Qed.

(** The continuation when the profiling function throws [e] before it
    reads the future: the returned future gets [e]. *)
Lemma continuation_throws fuel q holder fut childFut c captured e :
  futureProfilingFunc holder fut
    (mkProfiler (holders q) (futures q) captured (history q)) =
    (Err e, mkProfiler (holders q) (futures q) captured (history q)) ->
  futures q !! childFut = Some c ->
  resolution_ c = None ->
  callbacks_ c = [] ->
  invoke_callback (Future_complete (S fuel)) (then_callback childFut captured holder) fut q =
  (Ok tt,
   mkProfiler (holders q)
     (<[childFut := mkFuture (Some (resolved_error e)) [] (type_ c)]> (futures q))
     (tls q) (history q ++ [future_resolved childFut (resolved_error e)])).
Proof.
  intros Hthrow Hc Hcr Hcb. apply wp_eq. unfold invoke_callback.
  apply wp_try_catch. pstep. apply wp_ThreadLocalStateGuard.
  eapply wp_of_run; [exact Hthrow|]. cbn [holders futures tls history].
  eapply wp_of_run; [by eapply Future_complete_pending|]. done.
Qed.

(** X19.  With an undefined holder the continuation stops at the internal
    assertion, and with a holder that was never entered it stops at the
    check of [exit()]: in both cases, when the wrapped future is already
    resolved, with a value or with an error, the returned future is resolved
    with the error of the continuation instead, no end callback runs, and
    the holders are as they were. *)
Theorem call_end_callbacks_on_fut_without_scope fuel p fut f (r : @resolution IValue) :
  futures p !! fut = Some f ->
  resolution_ f = Some r ->
  let profiledFut := length (futures p) in
  let result e :=
    (Ok profiledFut,
     mkProfiler (holders p)
       (futures p ++ [mkFuture (Some (resolved_error e)) [] (type_ f)])
       (tls p) (history p ++ [future_resolved profiledFut (resolved_error e)])) in
  _call_end_callbacks_on_fut (S fuel) None fut p =
    result (InternalAssert undefined_RecordFunction_holder) /\
  (forall holder h,
     holders p !! holder = Some h -> record_function_ h = None ->
     _call_end_callbacks_on_fut (S fuel) (Some holder) fut p =
       result (TorchCheck record_function_must_be_set_via_enter)).
Proof.
  intros Hf Hr profiledFut result.
  assert (Hrun : forall holder e,
    (forall q : Profiler',
       holders q = holders p ->
       futureProfilingFunc holder fut q = (Err e, q)) ->
    _call_end_callbacks_on_fut (S fuel) holder fut p = result e).
  { intros holder e Hthrow. apply wp_eq.
    eapply call_end_callbacks_head; [exact Hf|].
    unfold Future_addCallback. pstep.
    eapply wp_get_future; [cbn; by apply lookup_app_l_Some|]. cbn beta iota.
    rewrite Hr. eapply wp_of_run.
    { eapply (continuation_throws fuel _ holder fut (length (futures p))
                (mkFuture None [] (type_ f)) (tls p) e); cbn [futures]; try done.
      - by apply Hthrow.
      - by apply list_lookup_middle. }
    cbn [holders futures tls history]. split; [done|].
    unfold result. do 2 f_equal. apply insert_app_r_alt_fresh. }
  split.
  - apply Hrun. intros q _. reflexivity.
  - intros holder h Hh Hnone. apply Hrun. intros q Hq.
    apply wp_eq. unfold futureProfilingFunc. pstep.
    unfold TORCH_INTERNAL_ASSERT. rewrite bool_decide_eq_true_2 by done. psteps.
    eapply wp_of_run; [eapply exit_never_entered; [|exact Hnone]; by rewrite Hq|].
    done.
Qed.

(** ** What every operation keeps *)

Lemma kept_refl p : profiler_kept p p.
Proof. split; [done|]. split; eauto. Qed.

Lemma kept_trans p1 p2 p3 :
  profiler_kept p1 p2 -> profiler_kept p2 p3 -> profiler_kept p1 p3.
Proof.
  intros (T1 & F1 & H1) (T2 & F2 & H2). split; [congruence|]. split.
  - intros i f r Hf Hr. destruct (F1 i f r Hf Hr) as (f' & Hf' & Hr'). eauto.
  - intros i h rf Hh Hrf. destruct (H1 i h rf Hh Hrf) as (h' & rf' & Hh' & Hrf'). eauto.
Qed.

Lemma kept_history p hist :
  profiler_kept p (mkProfiler (holders p) (futures p) (tls p) hist).
Proof. split; [done|]. split; eauto. Qed.

(** Setting a record function keeps every holder that had one. *)
Lemma kept_set_holder p this rf hist :
  profiler_kept p
    (mkProfiler (<[this := mkHolder (Some rf)]> (holders p)) (futures p) (tls p) hist).
Proof.
  split; [done|]. split; [eauto|]. intros i h rf0 Hh Hrf0. cbn [holders].
  destruct (decide (this = i)) as [->|Hne].
  - exists (mkHolder (Some rf)), rf. split; [|done].
    apply list_lookup_insert_eq. by eapply lookup_lt_Some.
  - exists h, rf0. by rewrite list_lookup_insert_ne.
Qed.

(** Writing a future that was pending, or adding a future, keeps every
    resolved one. *)
Lemma kept_set_pending p this f f' hist :
  futures p !! this = Some f ->
  resolution_ f = None ->
  profiler_kept p
    (mkProfiler (holders p) (<[this := f']> (futures p)) (tls p) hist).
Proof.
  intros Hf Hr. split; [done|]. split; [|eauto]. intros i f0 r Hf0 Hr0. cbn [futures].
  destruct (decide (this = i)) as [->|Hne]; [congruence|].
  exists f0. by rewrite list_lookup_insert_ne.
Qed.

Lemma kept_new_future p f :
  profiler_kept p (mkProfiler (holders p) (futures p ++ [f]) (tls p) (history p)).
Proof.
  split; [done|]. split; [|eauto]. intros i f0 r Hf0 Hr0.
  exists f0. split; [by apply lookup_app_l_Some|done].
Qed.

Lemma kept_bind {A B} (m : M Profiler' A) (k : A -> M Profiler' B) p :
  profiler_kept p (m p).2 ->
  (forall a, (m p).1 = Ok a -> profiler_kept (m p).2 (k a (m p).2).2) ->
  profiler_kept p (bind m k p).2.
Proof.
  intros Hm Hk. unfold bind. destruct (m p) as [[a|e|] p1]; cbn in *; [|done..].
  eapply kept_trans; [exact Hm|]. by apply Hk.
Qed.

Lemma exit_kept this p : profiler_kept p (RecordFunctionHolder_exit this p).2.
Proof.
  unfold RecordFunctionHolder_exit, bind, get_holder.
  destruct (holders p !! this) as [h|] eqn:Hh; [|apply kept_refl].
  destruct (record_function_ h) as [rf|] eqn:Hrf; cbn; [|apply kept_refl].
  rewrite RecordFunction_end_run. cbn. apply kept_set_holder.
Qed.

Lemma enter_kept this nm p : profiler_kept p (RecordFunctionHolder_enter this nm p).2.
Proof.
  destruct (holders p !! this) as [h|] eqn:Hh.
  - rewrite (enter_run p this h nm Hh). unfold after_enter. cbn [snd].
    apply (kept_set_holder p).
  - unfold RecordFunctionHolder_enter, bind, get_holder. rewrite Hh. apply kept_refl.
Qed.

Lemma profiling_func_kept holder fut p :
  profiler_kept p (futureProfilingFunc holder fut p).2.
Proof.
  unfold futureProfilingFunc. destruct holder as [this|]; [|apply kept_refl].
  unfold TORCH_INTERNAL_ASSERT. rewrite bool_decide_eq_true_2 by done.
  apply kept_bind; [apply kept_refl|]. intros _ _. cbn [ret fst snd].
  apply kept_bind; [apply kept_refl|]. intros this' _. cbn [deref ret fst snd].
  apply kept_bind; [apply exit_kept|]. intros _ _.
  unfold Future_value, bind, get_future.
  destruct (futures _ !! fut) as [f|]; [|apply kept_refl].
  destruct (resolution_ f) as [[v|e]|]; apply kept_refl.
Qed.

(** The guard puts the thread-local state back whatever its body did
    with it. *)
Lemma guard_kept {A} captured (body : M Profiler' A) p :
  (forall q, profiler_kept q (body q).2) ->
  profiler_kept p (ThreadLocalStateGuard captured body p).2.
Proof.
  intros Hbody. unfold ThreadLocalStateGuard.
  specialize (Hbody (mkProfiler (holders p) (futures p) captured (history p))).
  destruct (body _) as [r p1]. destruct Hbody as (_ & F & H). cbn in *.
  split; [done|]. split; eauto.
Qed.

Lemma invoke_kept (complete : FutureRef -> @resolution IValue -> M Profiler' unit)
    cb parent p :
  (forall fut r q, profiler_kept q (complete fut r q).2) ->
  profiler_kept p (invoke_callback complete cb parent p).2.
Proof.
  intros Hcomplete. destruct cb as [childFut captured holder].
  unfold invoke_callback, try_catch, bind.
  pose proof (guard_kept captured (futureProfilingFunc holder parent) p
                (profiling_func_kept holder parent)) as Hg.
  destruct (ThreadLocalStateGuard _ _ p) as [[v|e|] p1]; cbn in Hg |- *.
  - pose proof (Hcomplete childFut (resolved_value v) p1) as Hc1.
    destruct (complete childFut (resolved_value v) p1) as [[[]|e'|] p2]; cbn in Hc1 |- *.
    + by eapply kept_trans.
    + eapply kept_trans; [exact Hg|]. eapply kept_trans; [exact Hc1|]. apply Hcomplete.
    + by eapply kept_trans.
  - eapply kept_trans; [exact Hg|]. apply Hcomplete.
  - exact Hg.
Qed.

Lemma for_each_kept {A} (l : list A) (body : A -> M Profiler' unit) p :
  (forall x q, profiler_kept q (body x q).2) ->
  profiler_kept p (for_each l body p).2.
Proof.
  intros Hbody. revert p. induction l as [|x l IH]; intros p; cbn [for_each].
  - apply kept_refl.
  - apply kept_bind; [apply Hbody|]. intros _ _. apply IH.
Qed.

Lemma complete_kept fuel : forall this (r : @resolution IValue) p,
  profiler_kept p (Future_complete fuel this r p).2.
Proof.
  induction fuel as [|fuel IH]; intros this r p; cbn [Future_complete].
  - apply kept_refl.
  - unfold bind at 1, get_future.
    destruct (futures p !! this) as [f|] eqn:Hf; [|apply kept_refl].
    destruct (resolution_ f) as [r0|] eqn:Hr.
    + unfold TORCH_CHECK, bind, ret, throw. cbn. apply kept_refl.
    + rewrite bool_decide_eq_true_2 by done.
      apply kept_bind; [apply kept_refl|]. intros _ _. cbn [TORCH_CHECK ret fst snd].
      apply kept_bind; [by eapply kept_set_pending|]. intros _ _. cbn [set_future fst snd].
      apply kept_bind; [apply kept_history|]. intros _ _. cbn [emit fst snd].
      apply for_each_kept. intros cb q. by apply invoke_kept.
Qed.

Lemma call_end_callbacks_kept fuel holder fut p :
  profiler_kept p (_call_end_callbacks_on_fut fuel holder fut p).2.
Proof.
  unfold _call_end_callbacks_on_fut.
  apply kept_bind; [apply kept_refl|]. intros captured _. cbn [get_tls fst snd].
  apply kept_bind.
  { unfold Future_elementType, bind, get_future.
    destruct (futures p !! fut); apply kept_refl. }
  intros type Htype.
  assert (Hsame : (Future_elementType fut p).2 = p).
  { unfold Future_elementType, bind, get_future. by destruct (futures p !! fut). }
  rewrite Hsame.
  apply kept_bind; [|intros; apply kept_refl].
  unfold Future_then.
  apply kept_bind; [apply kept_new_future|]. intros childFut _.
  cbn [Future_createInstance fst snd].
  apply kept_bind; [|intros; apply kept_refl].
  unfold Future_addCallback, bind, get_future.
  destruct (futures _ !! fut) as [f|] eqn:Hf; [|apply kept_refl].
  destruct (resolution_ f) as [r|] eqn:Hr.
  - apply invoke_kept. intros. apply complete_kept.
  - by eapply kept_set_pending.
Qed.

(** X20.  Every operation of the file keeps the thread-local state: after
    [enter], [exit], completing a future, and wrapping a future (with all
    the continuations that this runs), whatever the outcome, an exception
    included, the thread-local state is the one the caller had, although
    the end callbacks ran under the state captured at wrapping time. *)
Theorem profiler_operations_restore_thread_local_state fuel p :
  (forall this nm, tls (RecordFunctionHolder_enter this nm p).2 = tls p) /\
  (forall this, tls (RecordFunctionHolder_exit this p).2 = tls p) /\
  (forall fut (r : @resolution IValue), tls (Future_complete fuel fut r p).2 = tls p) /\
  (forall holder fut, tls (_call_end_callbacks_on_fut fuel holder fut p).2 = tls p).
Proof.
  split; [|split; [|split]]; intros.
  - apply enter_kept.
  - apply exit_kept.
  - apply complete_kept.
  - apply call_end_callbacks_kept.
Qed.

(** X21.  A future resolves once.  Completing any future, or wrapping any
    future with any holder, never changes the resolution of a future that
    is already resolved, whatever the outcome of the operation: the
    instrumentation cannot alter the value or the error that the wrapped
    future itself holds. *)
Theorem resolved_futures_keep_their_resolution fuel p i f (r : @resolution IValue) :
  futures p !! i = Some f ->
  resolution_ f = Some r ->
  (forall fut r', exists f',
     futures (Future_complete fuel fut r' p).2 !! i = Some f' /\
     resolution_ f' = Some r) /\
  (forall holder fut, exists f',
     futures (_call_end_callbacks_on_fut fuel holder fut p).2 !! i = Some f' /\
     resolution_ f' = Some r).
Proof.
  intros Hf Hr. split; intros.
  - destruct (complete_kept fuel fut r' p) as (_ & F & _). eauto.
  - destruct (call_end_callbacks_kept fuel holder fut p) as (_ & F & _). eauto.
Qed.

(** X22.  [enter] is never undone.  The record function of a holder is
    assigned by [enter] only, so a holder that was entered still owns a
    record function after any [enter], [exit], completion or wrapping:
    [exit()] on it can no longer fail its check. *)
Theorem entered_holders_stay_entered fuel p i h rf :
  holders p !! i = Some h ->
  record_function_ h = Some rf ->
  (forall this nm, exists h' rf',
     holders (RecordFunctionHolder_enter this nm p).2 !! i = Some h' /\
     record_function_ h' = Some rf') /\
  (forall this, exists h' rf',
     holders (RecordFunctionHolder_exit this p).2 !! i = Some h' /\
     record_function_ h' = Some rf') /\
  (forall holder fut, exists h' rf',
     holders (_call_end_callbacks_on_fut fuel holder fut p).2 !! i = Some h' /\
     record_function_ h' = Some rf') /\
  (forall holder fut profiledFut p',
     _call_end_callbacks_on_fut fuel holder fut p = (Ok profiledFut, p') ->
     exists p'', RecordFunctionHolder_exit i p' = (Ok tt, p'')).
Proof.
  intros Hh Hrf.
  assert (Hexit : forall q', profiler_kept p q' ->
            exists h' rf', holders q' !! i = Some h' /\ record_function_ h' = Some rf')
    by (intros q' (_ & _ & H); eauto).
  split; [|split; [|split]]; intros.
  - apply Hexit, enter_kept.
  - apply Hexit, exit_kept.
  - apply Hexit, call_end_callbacks_kept.
  - destruct (Hexit _ (call_end_callbacks_kept fuel holder fut p)) as (h' & rf' & Hh' & Hrf').
    rewrite H in Hh'. cbn in Hh'. eexists. by eapply exit_entered.
Qed.

(** ** A chain of wrapped futures *)

Lemma Future_complete_S fuel this (r : @resolution IValue) :
  Future_complete (S fuel) this r =
  (let* f := get_future this in
   TORCH_CHECK (bool_decide (resolution_ f = None)) (ret future_already_completed) ;;
   set_future this (mkFuture (Some r) [] (type_ f)) ;;
   emit (future_resolved this r) ;;
   for_each (callbacks_ f) (fun cb =>
     invoke_callback (Future_complete fuel) cb this) : M Profiler' unit).
Proof. reflexivity. Qed.

(** The continuation on an entered holder, whatever resolving the
    returned future goes on to run. *)
Lemma continuation_run_nested
    (complete : FutureRef -> @resolution IValue -> M Profiler' unit)
    q holder h rf fut f (r : @resolution IValue) childFut captured q' :
  holders q !! holder = Some h ->
  record_function_ h = Some rf ->
  futures q !! fut = Some f ->
  resolution_ f = Some r ->
  complete childFut r
    (mkProfiler (<[holder := mkHolder (Some (ended rf))]> (holders q)) (futures q)
       (tls q) (history q ++ end_events rf captured)) = (Ok tt, q') ->
  invoke_callback complete (then_callback childFut captured (Some holder)) fut q =
  (Ok tt, q').
Proof.
  intros Hh Hrf Hf Hr Hcomplete. apply wp_eq. unfold invoke_callback.
  apply wp_try_catch. pstep. apply wp_ThreadLocalStateGuard.
  eapply wp_of_run; [by eapply futureProfilingFunc_run|].
  unfold after_exit. cbn [holders futures tls history].
  destruct r as [v|e]; cbn [outcome_of];
    (eapply wp_of_run; [exact Hcomplete|]); done.
Qed.

(** X23.  A chain of two wrappings.  A pending future is wrapped with an
    entered holder, and the future this returns is wrapped with another
    entered holder.  Nothing runs until the first future is resolved;
    resolving it then runs both continuations, the inner one first: the
    scope of the first holder ends, the first returned future takes the
    resolution, then the scope of the second holder ends and the second
    returned future takes the same resolution, a value as that value and
    an error as that error. *)
Theorem call_end_callbacks_on_fut_chain fuel p (this1 this2 : HolderRef) hd1 hd2 rf1 rf2 fut f
    (r : @resolution IValue) :
  this1 <> this2 ->
  holders p !! this1 = Some hd1 -> record_function_ hd1 = Some rf1 ->
  holders p !! this2 = Some hd2 -> record_function_ hd2 = Some rf2 ->
  futures p !! fut = Some f -> resolution_ f = None -> callbacks_ f = [] ->
  let n := length (futures p) in
  let wrapped1 := _call_end_callbacks_on_fut fuel (Some this1) fut p in
  let wrapped2 := _call_end_callbacks_on_fut fuel (Some this2) n wrapped1.2 in
  let resolved := mkFuture (Some r) [] (type_ f) in
  wrapped1.1 = Ok n /\
  wrapped2.1 = Ok (S n) /\
  history wrapped2.2 = history p /\
  Future_complete (S (S (S fuel))) fut r wrapped2.2 =
  (Ok tt,
   mkProfiler
     (<[this2 := mkHolder (Some (ended rf2))]>
        (<[this1 := mkHolder (Some (ended rf1))]> (holders p)))
     (<[fut := resolved]> (futures p) ++ [resolved; resolved])
     (tls p)
     (history p ++ [future_resolved fut r] ++
        end_events rf1 (tls p) ++ [future_resolved n r] ++
        end_events rf2 (tls p) ++ [future_resolved (S n) r])).
Proof.
  intros Hne Hh1 Hrf1 Hh2 Hrf2 Hf Hr Hcb n wrapped1 wrapped2 resolved.
  assert (Hlt : (fut < n)%nat) by (by eapply lookup_lt_Some).
  assert (Hpending : forall q holder g fg,
    futures q !! g = Some fg -> resolution_ fg = None ->
    _call_end_callbacks_on_fut fuel holder g q =
    (Ok (length (futures q)),
     mkProfiler (holders q)
       (<[g := mkFuture None
                 (callbacks_ fg ++ [then_callback (length (futures q)) (tls q) holder])
                 (type_ fg)]>
          (futures q ++ [mkFuture None [] (type_ fg)]))
       (tls q) (history q))).
  { intros q holder g fg Hg Hgr. apply wp_eq.
    eapply call_end_callbacks_head; [exact Hg|].
    unfold Future_addCallback. pstep.
    eapply wp_get_future; [cbn; by apply lookup_app_l_Some|]. cbn beta iota.
    rewrite Hgr. by psteps. }
  pose (pending := mkFuture (IValue:=IValue) (TypePtr:=TypePtr)
                     (ThreadLocalState:=ThreadLocalState) None [] (type_ f)).
  pose (cb1 := then_callback (ThreadLocalState:=ThreadLocalState) n (tls p) (Some this1)).
  pose (cb2 := then_callback (ThreadLocalState:=ThreadLocalState) (S n) (tls p) (Some this2)).
  assert (H1 : wrapped1 =
    (Ok n, mkProfiler (holders p)
             (<[fut := mkFuture None [cb1] (type_ f)]> (futures p) ++ [pending])
             (tls p) (history p))).
  { unfold wrapped1. rewrite (Hpending p (Some this1) fut f Hf Hr), Hcb.
    by rewrite insert_app_l by done. }
  assert (H2 : wrapped2 =
    (Ok (S n), mkProfiler (holders p)
       (<[fut := mkFuture None [cb1] (type_ f)]> (futures p) ++
          [mkFuture None [cb2] (type_ f); pending])
       (tls p) (history p))).
  { unfold wrapped2. rewrite H1. cbn [snd].
    erewrite (Hpending _ (Some this2) n pending); cycle 1.
    { cbn [futures]. apply list_lookup_middle. by rewrite length_insert. }
    { done. }
    cbn [holders futures tls history callbacks_ type_ pending app].
    rewrite length_app, length_insert. cbn [length].
    replace (length (futures p) + 1)%nat with (S n) by (unfold n; lia).
    do 2 f_equal. rewrite <- app_assoc. cbn [app].
    rewrite insert_app_r_alt by (rewrite length_insert; unfold n; lia).
    rewrite length_insert. replace (n - length (futures p))%nat with 0%nat by (unfold n; lia).
    done. }
  rewrite H1, H2. cbn [fst snd history]. do 3 (split; [done|]).
  set (L := <[fut := mkFuture None [cb1] (type_ f)]> (futures p)).
  assert (HL : length L = n) by (unfold L; by rewrite length_insert).
  assert (HLfut : L !! fut = Some (mkFuture None [cb1] (type_ f))).
  { unfold L. apply list_lookup_insert_eq. exact Hlt. }
  set (A := mkFuture None [cb2] (type_ f)).
  assert (Hins1 : <[fut := resolved]> (L ++ [A; pending]) =
                  <[fut := resolved]> (futures p) ++ [A; pending]).
  { rewrite insert_app_l by lia. unfold L. by rewrite list_insert_insert_eq. }
  set (L' := <[fut := resolved]> (futures p)) in *.
  assert (HL' : length L' = n) by (unfold L'; by rewrite length_insert).
  assert (HLfut' : L' !! fut = Some resolved).
  { unfold L'. apply list_lookup_insert_eq. exact Hlt. }
  assert (Hins2 : <[(n : FutureRef) := resolved]> (L' ++ [A; pending]) = L' ++ [resolved; pending]).
  { rewrite insert_app_r_alt by lia. by replace (n - length L')%nat with 0%nat by lia. }
  assert (Hins3 : <[(S n : FutureRef) := resolved]> (L' ++ [resolved; pending]) =
                  L' ++ [resolved; resolved]).
  { rewrite insert_app_r_alt by lia. by replace (S n - length L')%nat with 1%nat by lia. }
  assert (Hn : forall x y, (L' ++ [x; y]) !! n = Some x).
  { intros x y. rewrite lookup_app_r by lia.
    by replace (n - length L')%nat with 0%nat by lia. }
  assert (HSn : forall x y, (L' ++ [x; y]) !! S n = Some y).
  { intros x y. rewrite lookup_app_r by lia.
    by replace (S n - length L')%nat with 1%nat by lia. }
  apply wp_eq. rewrite Future_complete_S. pstep.
  eapply wp_get_future; [cbn [futures]; by apply lookup_app_l_Some|].
  cbn beta iota. cbn [resolution_ callbacks_ type_]. pstep.
  apply wp_check_true; [done|]. psteps. fold resolved A. rewrite Hins1.
  eapply wp_of_run.
  { eapply (continuation_run_nested (Future_complete (S (S fuel))) _ this1 hd1 rf1
              fut resolved r n (tls p)); cbn [holders futures tls history]; try done.
    - by apply lookup_app_l_Some.
    - apply wp_eq. rewrite Future_complete_S. pstep.
      eapply wp_get_future; [cbn [futures]; apply Hn|].
      cbn beta iota. cbn [resolution_ callbacks_ type_ A]. pstep.
      apply wp_check_true; [done|]. psteps. fold resolved. rewrite Hins2.
      eapply wp_of_run.
      { eapply (continuation_run fuel _ this2 hd2 rf2 n resolved r (S n) pending (tls p));
          cbn [holders futures tls history];
          first [done | by rewrite list_lookup_insert_ne | apply Hn | apply HSn]. }
      unfold after_continuation. cbn [holders futures tls history pending type_].
      cbn beta iota. psteps. split; reflexivity. }
  cbn beta iota. psteps. split; [done|]. fold resolved.
  rewrite Hins3. f_equal. rewrite <- !app_assoc. done.
Qed.

(** ** The JIT operator *)

Lemma jit_pop_top (rest : list (StackValue (IValue:=IValue))) x (p : Profiler') :
  jit_pop (mkInterpreter (rest ++ [x]) p) = (Ok x, mkInterpreter rest p).
Proof.
  unfold jit_pop. cbn [stack profiler]. rewrite reverse_app, reverse_singleton.
  cbn [app]. by rewrite reverse_involutive.
Qed.

(** X24.  The JIT operator takes its two arguments off the top of the
    interpreter stack in place, the future above the holder, as the schema
    orders them, and pushes the future that [_call_end_callbacks_on_fut]
    returns onto what is left; its effect on the profiler and its
    exceptions are those of [_call_end_callbacks_on_fut].  A value that was
    popped is gone from the stack when the call throws: with another kind
    of value on top the stack has lost that value, and with another kind
    of value below a future, or when [_call_end_callbacks_on_fut] throws,
    it has lost both.  The profiler is untouched when a conversion
    throws. *)
Theorem call_end_callbacks_on_jit_fut_stack fuel p
    (rest : list (StackValue (IValue:=IValue))) holder fut :
  let call := _call_end_callbacks_on_fut fuel holder fut p in
  _call_end_callbacks_on_jit_fut fuel
    (mkInterpreter (rest ++ [sv_holder holder; sv_future fut]) p) =
    match call.1 with
    | Ok profiledFut =>
        (Ok tt, mkInterpreter (rest ++ [sv_future profiledFut]) call.2)
    | Err e => (Err e, mkInterpreter rest call.2)
    | OutOfFuel => (OutOfFuel, mkInterpreter rest call.2)
    end /\
  (forall x other,
     _call_end_callbacks_on_jit_fut fuel
       (mkInterpreter (rest ++ [x; sv_holder other]) p) =
       (Err (OtherException "Expected Future"), mkInterpreter (rest ++ [x]) p)) /\
  (forall x v,
     _call_end_callbacks_on_jit_fut fuel
       (mkInterpreter (rest ++ [x; sv_other v]) p) =
       (Err (OtherException "Expected Future"), mkInterpreter (rest ++ [x]) p)) /\
  (forall other,
     _call_end_callbacks_on_jit_fut fuel
       (mkInterpreter (rest ++ [sv_future other; sv_future fut]) p) =
       (Err (OtherException "Expected RecordFunctionHolder"), mkInterpreter rest p)) /\
  (forall v,
     _call_end_callbacks_on_jit_fut fuel
       (mkInterpreter (rest ++ [sv_other v; sv_future fut]) p) =
       (Err (OtherException "Expected RecordFunctionHolder"), mkInterpreter rest p)).
Proof.
  intros call.
  assert (Hpop : forall x y,
    _call_end_callbacks_on_jit_fut fuel (mkInterpreter (rest ++ [x; y]) p) =
    (let* fut := toFuture y in
     let* next := jit_pop in
     let* record_function_holder := toCustomClass_RecordFunctionHolder next in
     let* profiledFut :=
       with_profiler (_call_end_callbacks_on_fut fuel record_function_holder fut) in
     jit_push (sv_future profiledFut)) (mkInterpreter (rest ++ [x]) p)).
  { intros x y. unfold _call_end_callbacks_on_jit_fut.
    change (rest ++ [x; y]) with (rest ++ [x] ++ [y]). rewrite app_assoc.
    unfold bind at 1. by rewrite jit_pop_top. }
  split; [|split; [|split; [|split]]]; intros; rewrite Hpop; try reflexivity;
    cbn [toFuture]; unfold bind at 1, ret; unfold bind at 1; rewrite jit_pop_top;
    try reflexivity.
  cbn [toCustomClass_RecordFunctionHolder]. unfold bind, ret, with_profiler, jit_push.
  cbn [stack profiler]. fold call. by destruct call as [[pf|e|] p'].
Qed.

(** ** Scopes of several holders *)

(** X25.  Every [record_function_enter] makes a holder of its own, so
    scopes of different holders do not interfere and the file imposes no
    order on their ends: two scopes that are opened one after the other
    can be closed innermost first or outermost first, and the end
    callbacks run in the order of the [record_function_exit] calls. *)
Theorem record_function_scopes_end_in_call_order p a b :
  let opened k : M Profiler' unit :=
    let* outer := record_function_enter a in
    let* inner := record_function_enter b in
    k outer inner in
  let closed first second :=
    (Ok tt,
     mkProfiler
       (holders p ++ [mkHolder (Some (mkRecordFunction USER_SCOPE a false));
                      mkHolder (Some (mkRecordFunction USER_SCOPE b false))])
       (futures p) (tls p)
       (history p ++ [start_callbacks USER_SCOPE a (tls p);
                      start_callbacks USER_SCOPE b (tls p);
                      end_callbacks USER_SCOPE first (tls p);
                      end_callbacks USER_SCOPE second (tls p)])) in
  opened (fun outer inner =>
            record_function_exit (Some inner) ;; record_function_exit (Some outer)) p =
    closed b a /\
  opened (fun outer inner =>
            record_function_exit (Some outer) ;; record_function_exit (Some inner)) p =
    closed a b.
Proof.
  intros opened closed.
  set (n := length (holders p)).
  set (running nm := mkHolder (Some (mkRecordFunction USER_SCOPE nm true))).
  assert (Hopened : forall k Q,
    wp (k n (S n))
       (mkProfiler (holders p ++ [running a; running b]) (futures p) (tls p)
          (history p ++ [start_callbacks USER_SCOPE a (tls p);
                         start_callbacks USER_SCOPE b (tls p)])) Q ->
    wp (opened k) p Q).
  { intros k Q HQ. unfold opened, record_function_enter. pstep. pstep.
    apply wp_make_intrusive. pstep.
    eapply wp_of_run.
    { apply (enter_run _ _ (mkHolder None)). cbn [holders]. by apply list_lookup_middle. }
    cbn beta iota. pstep. pstep. pstep. unfold after_enter.
    cbn [holders futures tls history record_function_ app].
    apply wp_make_intrusive. pstep.
    eapply wp_of_run.
    { apply (enter_run _ _ (mkHolder None)). cbn [holders]. apply list_lookup_middle.
      by rewrite length_insert, length_app. }
    cbn beta iota. pstep. unfold after_enter.
    cbn [holders futures tls history record_function_ app].
    rewrite length_insert, length_app. cbn [length].
    replace (length (holders p) + 1)%nat with (S n) by (unfold n; lia).
    fold n. fold (running a) (running b).
    replace (<[S n:=running b]> (<[n:=running a]> (holders p ++ [mkHolder None]) ++
                                   [mkHolder None]))
      with (holders p ++ [running a; running b]); cycle 1.
    { rewrite (insert_app_r_alt (holders p)) by (unfold n; lia).
      replace (n - length (holders p))%nat with 0%nat by (unfold n; lia).
      rewrite <- app_assoc. cbn [app list_insert insert].
      rewrite insert_app_r_alt by (unfold n; lia).
      by replace (S n - length (holders p))%nat with 1%nat by (unfold n; lia). }
    rewrite <- app_assoc. exact HQ. }
  assert (Hn : forall x y, (holders p ++ [x; y]) !! n = Some x).
  { intros x y. rewrite lookup_app_r by (unfold n; lia).
    by replace (n - length (holders p))%nat with 0%nat by (unfold n; lia). }
  assert (HSn : forall x y, (holders p ++ [x; y]) !! S n = Some y).
  { intros x y. rewrite lookup_app_r by (unfold n; lia).
    by replace (S n - length (holders p))%nat with 1%nat by (unfold n; lia). }
  assert (Hinsn : forall x y z, <[n := z]> (holders p ++ [x; y]) = holders p ++ [z; y]).
  { intros x y z. rewrite insert_app_r_alt by (unfold n; lia).
    by replace (n - length (holders p))%nat with 0%nat by (unfold n; lia). }
  assert (HinsSn : forall x y z, <[S n := z]> (holders p ++ [x; y]) = holders p ++ [x; z]).
  { intros x y z. rewrite insert_app_r_alt by (unfold n; lia).
    by replace (S n - length (holders p))%nat with 1%nat by (unfold n; lia). }
  split; apply wp_eq, Hopened; unfold record_function_exit; psteps.
  - eapply wp_of_run.
    { eapply (exit_entered _ (S n) (running b)); [apply HSn|reflexivity]. }
    cbn beta iota. psteps.
    unfold after_exit. cbn [holders futures tls history]. rewrite HinsSn.
    eapply wp_of_run.
    { eapply (exit_entered _ n (running a)); [apply Hn|reflexivity]. }
    unfold after_exit, ended, end_events.
    cbn [holders futures tls history running scope name]. rewrite Hinsn.
    split; [done|]. unfold closed. f_equal. by rewrite <- !app_assoc.
  - eapply wp_of_run.
    { eapply (exit_entered _ n (running a)); [apply Hn|reflexivity]. }
    cbn beta iota. psteps.
    unfold after_exit. cbn [holders futures tls history]. rewrite Hinsn.
    eapply wp_of_run.
    { eapply (exit_entered _ (S n) (running b)); [apply HSn|reflexivity]. }
    unfold after_exit, ended, end_events.
    cbn [holders futures tls history running scope name]. rewrite HinsSn.
    split; [done|]. unfold closed. f_equal. by rewrite <- !app_assoc.
Qed.
End RecordFunctionProofs.

(** ** The claims on the sample profiler *)

Lemma RecordFunctionHolder_exit_needs_enter_witness :
  RecordFunctionHolder_exit 0%nat sample_profiler =
  (Err (TorchCheck record_function_must_be_set_via_enter), sample_profiler).
Proof.
  apply (proj1 (@RecordFunctionHolder_exit_needs_enter Z unit nat sample_profiler
                  0%nat (mkHolder None) "step" eq_refl)).
  reflexivity.
Defined.

Lemma call_end_callbacks_on_fut_propagates_witness :
  exists p',
    _call_end_callbacks_on_fut 1 (Some 1%nat) 2%nat sample_profiler = (Ok 3%nat, p') /\
    futures p' !! 3%nat =
      Some (mkFuture (Some (resolved_error (OtherException "rpc failed"))) [] tt) /\
    history p' =
      history sample_profiler ++
      [end_callbacks USER_SCOPE "forward" 0%nat;
       future_resolved 3%nat (resolved_error (OtherException "rpc failed"))].
Proof.
  eexists. split.
  - apply (proj1 (@call_end_callbacks_on_fut_propagates Z unit nat 0%nat sample_profiler
                    1%nat (mkHolder (Some (mkRecordFunction USER_SCOPE "forward" true)))
                    (mkRecordFunction USER_SCOPE "forward" true) 2%nat
                    (mkFuture (Some (resolved_error (OtherException "rpc failed"))) [] tt)
                    eq_refl eq_refl eq_refl)).
    reflexivity.
  - split; reflexivity.
Defined.

(** C8 as the specification states it, for every handle, fails on a
    holder that was never entered: the wrapped future holds the value 42,
    but [exit()] throws inside the continuation and the returned future is
    resolved with that error instead. *)
Lemma call_end_callbacks_on_fut_unentered_holder :
  exists p' c,
    _call_end_callbacks_on_fut 1 (Some 0%nat) 0%nat sample_profiler = (Ok 3%nat, p') /\
    futures sample_profiler !! 0%nat = Some (mkFuture (Some (resolved_value 42)) [] tt) /\
    futures p' !! 3%nat = Some c /\
    resolution_ c =
      Some (resolved_error (TorchCheck record_function_must_be_set_via_enter)) /\
    resolution_ c <> Some (resolved_value 42).
Proof.
  do 2 eexists. split; [vm_compute; reflexivity|].
  split; [reflexivity|]. split; [reflexivity|]. split; [reflexivity|]. discriminate.
Qed.

(* ===================================================================== *)
(** * The further properties on the sample data *)
(* ===================================================================== *)

(** ** Pooling *)

Ltac sample_shape :=
  first [ by vm_compute
        | unfold well_formed; cbn; repeat constructor; lia ].

Ltac sample_contract :=
  split; [reflexivity|]; split; [right; reflexivity|];
  split; [exists 4; split; [reflexivity|lia]|];
  split; [exists 4; split; [reflexivity|lia]|];
  split; [reflexivity|]; split; sample_shape.

Lemma adaptive_avg_pool2d_forward_first_failure_witness :
  @adaptive_avg_pool2d_out_cpu Z sample_externals 0%nat [2; 2] 4%nat sample_world =
  (Err (TorchCheck (expected_dtype_for_output Float Double)), sample_world).
Proof.
  pose proof (@adaptive_avg_pool2d_forward_first_failure Z sample_externals sample_world
                0%nat 4%nat (sample_tensor [2; 3; 4; 4] Float) (sample_tensor [5] Double)
                [2; 2] eq_refl eq_refl) as (_ & _ & _ & _ & Hdtype).
  apply (Hdtype 4 4).
  - reflexivity.
  - right. reflexivity.
  - reflexivity.
  - lia.
  - reflexivity.
  - lia.
  - discriminate.
Defined.

Lemma adaptive_avg_pool2d_backward_first_failure_witness :
  @adaptive_avg_pool2d_backward_out_cpu Z sample_externals 1%nat 4%nat 0%nat sample_world =
  (Err (TorchCheck (backward_expected_3D_or_4D_tensor [2; 3; 4; 4])), sample_world).
Proof.
  apply (proj1 (@adaptive_avg_pool2d_backward_first_failure Z sample_externals sample_world
                  1%nat 4%nat 0%nat (sample_tensor [0] Float) (sample_tensor [5] Double)
                  (sample_tensor [2; 3; 4; 4] Float) eq_refl eq_refl eq_refl
                  ltac:(intros i Hi; change (dim (sample_tensor [5] Double)) with 1 in Hi;
                        lia))).
  change (dim (sample_tensor [5] Double)) with 1. lia.
Defined.

Lemma adaptive_avg_pool2d_out_cpu_writes_only_output_witness :
  tensors (@adaptive_avg_pool2d_out_cpu Z sample_externals 0%nat [2; 2] 1%nat
             sample_world).2 !! 0%nat =
  Some (sample_tensor [2; 3; 4; 4] Float).
Proof.
  pose proof (@adaptive_avg_pool2d_out_cpu_writes_only_output Z sample_externals
                sample_world 0%nat 1%nat (sample_tensor [2; 3; 4; 4] Float)
                (sample_tensor [0] Float) [2; 2] _ _ eq_refl eq_refl
                (surjective_pairing _)) as (_ & _ & Hinput).
  apply Hinput. lia.
Defined.

Lemma adaptive_avg_pool2d_backward_out_cpu_writes_only_grad_input_witness :
  tensors (@adaptive_avg_pool2d_backward_out_cpu Z sample_externals 1%nat 2%nat 0%nat
             sample_world).2 !! 2%nat =
  Some (sample_tensor [2; 3; 2; 2] Float).
Proof.
  pose proof (@adaptive_avg_pool2d_backward_out_cpu_writes_only_grad_input Z
                sample_externals sample_world 1%nat 2%nat 0%nat (sample_tensor [0] Float)
                (sample_tensor [2; 3; 2; 2] Float) (sample_tensor [2; 3; 4; 4] Float)
                _ _ eq_refl eq_refl eq_refl (surjective_pairing _))
    as (_ & _ & Hgrad_output & _).
  apply Hgrad_output. lia.
Defined.

Lemma allocating_entry_points_add_one_tensor_witness :
  (@adaptive_avg_pool2d_backward_cpu Z sample_externals 3%nat 0%nat sample_world).2 =
  sample_world.
Proof.
  pose proof (proj2 (@allocating_entry_points_add_one_tensor Z sample_externals
                       sample_world 0%nat 3%nat (sample_tensor [2; 3; 4; 4] Float)
                       (sample_tensor [2; 0; 2; 2] Float) [2; 2] eq_refl eq_refl)
                _ _ (surjective_pairing _)) as Hleft.
  exact Hleft.
Defined.

Lemma adaptive_avg_pool2d_output_dtype_witness :
  exists output w' t',
    @adaptive_avg_pool2d_cpu Z sample_externals 0%nat [2; 2] sample_world =
      (Ok output, w') /\
    tensors w' !! output = Some t' /\
    dtype t' = Float /\ device t' = CPU /\ layout t' = Strided.
Proof.
  apply (proj2 (@adaptive_avg_pool2d_output_dtype Z sample_externals sample_world
                  0%nat (sample_tensor [2; 3; 4; 4] Float) [2; 2] eq_refl)).
  sample_contract.
Defined.

Lemma adaptive_avg_pool2d_kernel_invoked_once_witness :
  exists w',
    @adaptive_avg_pool2d_out_cpu Z sample_externals 0%nat [2; 2] 1%nat sample_world =
      (Ok 1%nat, w') /\
    length (kernel_calls w') = 1%nat.
Proof.
  destruct (@adaptive_avg_pool2d_kernel_invoked_once Z sample_externals sample_world
              0%nat 1%nat (sample_tensor [2; 3; 4; 4] Float) (sample_tensor [0] Float)
              [2; 2] eq_refl eq_refl) as (w' & Hrun & _ & Hcalled).
  - sample_contract.
  - by vm_compute.
  - exists w'. split; [exact Hrun|].
    destruct Hcalled as (out & seen & -> & _); [|reflexivity].
    apply (bool_decide_unpack _). vm_compute. exact I.
Defined.

Lemma adaptive_avg_pool2d_output_memory_format_witness :
  exists w' t',
    @adaptive_avg_pool2d_out_cpu Z sample_externals 5%nat [2; 2] 1%nat sample_world =
      (Ok 1%nat, w') /\
    tensors w' !! 1%nat = Some t' /\
    strides t' = [12; 1; 6; 3].
Proof.
  destruct (@adaptive_avg_pool2d_output_memory_format Z sample_externals sample_world
              5%nat 1%nat sample_channels_last (sample_tensor [0] Float)
              [2; 2] eq_refl eq_refl) as (w' & t' & Hrun & Hout & _ & Hlast).
  - sample_contract.
  - reflexivity.
  - exists w', t'. split; [exact Hrun|]. split; [exact Hout|].
    apply (Hlast eq_refl 2 3 2 2). reflexivity.
Defined.

Lemma adaptive_avg_pool2d_out_cpu_in_place_witness :
  exists out w',
    @adaptive_avg_pool2d_out_cpu Z sample_externals 0%nat [2; 2] 0%nat sample_world =
      (Ok 0%nat, w') /\
    sizes out = [2; 3; 2; 2] /\
    kernel_calls w' = [adaptive_avg_pool2d_kernel_call out out [2; 2]].
Proof.
  destruct (@adaptive_avg_pool2d_out_cpu_in_place Z sample_externals sample_world
              0%nat (sample_tensor [2; 3; 4; 4] Float) [2; 2] eq_refl)
    as (out & Hsizes & Hrun).
  - sample_contract.
  - by vm_compute.
  - apply (bool_decide_unpack _). vm_compute. exact I.
  - exists out. eexists. split; [exact Hrun|]. split; [exact Hsizes|reflexivity].
Defined.

Lemma adaptive_avg_pool2d_output_well_formed_witness :
  exists w' t',
    @adaptive_avg_pool2d_out_cpu Z sample_externals 0%nat [2; 0] 1%nat sample_world =
      (Ok 1%nat, w') /\
    tensors w' !! 1%nat = Some t' /\
    well_formed t'.
Proof.
  apply (@adaptive_avg_pool2d_output_well_formed Z sample_externals sample_world
           0%nat 1%nat (sample_tensor [2; 3; 4; 4] Float) (sample_tensor [0] Float)
           [2; 0] eq_refl eq_refl).
  - sample_contract.
  - unfold well_formed. cbn. repeat constructor; lia.
  - repeat constructor; lia.
Defined.

Lemma adaptive_avg_pool2d_backward_accepts_forward_output_witness :
  exists w' t',
    (let* out := @adaptive_avg_pool2d_cpu Z sample_externals 0%nat [2; 2] in
     @adaptive_avg_pool2d_backward_cpu Z sample_externals out 0%nat) sample_world =
      (Ok 7%nat, w') /\
    tensors w' !! 7%nat = Some t' /\
    sizes t' = [2; 3; 4; 4] /\
    tensors w' !! 0%nat = Some (sample_tensor [2; 3; 4; 4] Float).
Proof.
  apply (@adaptive_avg_pool2d_backward_accepts_forward_output Z sample_externals
           sample_world 0%nat (sample_tensor [2; 3; 4; 4] Float) 2 2 eq_refl).
  - sample_contract.
  - lia.
  - lia.
  - intros _. cbn. lia.
Defined.

Lemma adaptive_avg_pool2d_empty_channels_forward_only_witness :
  exists w1 w2,
    @adaptive_avg_pool2d_cpu Z sample_externals 3%nat [2; 2] sample_world =
      (Ok 6%nat, w1) /\
    kernel_calls w1 = [] /\
    @adaptive_avg_pool2d_backward_cpu Z sample_externals 6%nat 3%nat w1 =
      (Err (TorchCheck (backward_grad_output_non_zero_size [2; 0; 2; 2] 1)), w2).
Proof.
  apply (@adaptive_avg_pool2d_empty_channels_forward_only Z sample_externals sample_world
           3%nat (sample_tensor [2; 0; 2; 2] Float) 2 2 2 2 2 eq_refl eq_refl); lia.
Defined.

Lemma adaptive_avg_pool2d_symint_checks_output_size_first_witness :
  @adaptive_avg_pool2d_symint Z sample_externals 0%nat [-1; 2] sample_world =
  (Err (TorchCheck (output_size_elements_must_be_nonnegative (-1) 2)), sample_world).
Proof.
  apply (proj2 (@adaptive_avg_pool2d_symint_checks_output_size_first Z sample_externals
                  sample_world 0%nat)).
  left. lia.
Defined.

Lemma adaptive_avg_pool2d_symint_mkldnn_witness :
  @adaptive_avg_pool2d_symint Z sample_externals 0%nat [1; 1]
    (mkWorld [sample_mkldnn] []) =
  (Err (OtherException "mkldnn"), mkWorld [sample_mkldnn] []).
Proof.
  apply (proj2 (@adaptive_avg_pool2d_symint_mkldnn Z sample_externals
                  (mkWorld [sample_mkldnn] []) 0%nat sample_mkldnn 1 1 eq_refl eq_refl
                  ltac:(lia) ltac:(lia))).
  reflexivity.
Defined.

Lemma adaptive_avg_pool2d_symint_validation_by_path_witness :
  @adaptive_avg_pool2d_cpu Z sample_externals 0%nat [1; 1] (mkWorld [sample_volume] []) =
    (Err (TorchCheck (expected_3D_or_4D_tensor [2; 3; 4; 4; 4])),
     mkWorld [sample_volume] []) /\
  exists m,
    sizes m = [2; 3; 4; 1; 1] /\
    @adaptive_avg_pool2d_symint Z sample_externals 0%nat [1; 1]
      (mkWorld [sample_volume] []) =
    (Ok 1%nat, mkWorld [sample_volume; m] []).
Proof.
  destruct (@adaptive_avg_pool2d_symint_validation_by_path Z sample_externals
              (mkWorld [sample_volume] []) 0%nat sample_volume
              eq_refl eq_refl eq_refl eq_refl)
    as (Hcpu & Hmean & _).
  - change (dim sample_volume) with 5. lia.
  - split; [exact Hcpu|].
    eexists. split; [|apply Hmean; reflexivity]. reflexivity.
Defined.

(** ** Profiler scopes *)

Lemma RecordFunctionHolder_exit_twice_witness :
  (RecordFunctionHolder_exit 1%nat ;; RecordFunctionHolder_exit 1%nat) sample_profiler =
  (Ok tt,
   after_exit sample_profiler 1%nat (mkRecordFunction USER_SCOPE "forward" true)).
Proof.
  apply (proj1 (@RecordFunctionHolder_exit_twice Z unit nat sample_profiler 1%nat
                  (mkHolder (Some (mkRecordFunction USER_SCOPE "forward" true)))
                  (mkRecordFunction USER_SCOPE "forward" true) eq_refl eq_refl)).
Defined.

Lemma RecordFunctionHolder_enter_twice_witness :
  (RecordFunctionHolder_enter 0%nat "a" ;; RecordFunctionHolder_enter 0%nat "b")
    sample_profiler =
  (Ok tt,
   mkProfiler
     [ mkHolder (Some (mkRecordFunction USER_SCOPE "b" true));
       mkHolder (Some (mkRecordFunction USER_SCOPE "forward" true)) ]
     (futures sample_profiler) 0%nat
     (history sample_profiler ++
        [start_callbacks USER_SCOPE "a" 0%nat; end_callbacks USER_SCOPE "a" 0%nat;
         start_callbacks USER_SCOPE "b" 0%nat])).
Proof.
  apply (@RecordFunctionHolder_enter_twice Z unit nat sample_profiler 0%nat
           (mkHolder None) "a" "b" eq_refl).
Defined.

Lemma call_end_callbacks_on_fut_pending_witness :
  _call_end_callbacks_on_fut 0 (Some 0%nat) 1%nat sample_profiler =
  (Ok 3%nat,
   mkProfiler (holders sample_profiler)
     [ mkFuture (Some (resolved_value 42)) [] tt;
       mkFuture None [then_callback 3%nat 0%nat (Some 0%nat)] tt;
       mkFuture (Some (resolved_error (OtherException "rpc failed"))) [] tt;
       mkFuture None [] tt ]
     0%nat (history sample_profiler)).
Proof.
  apply (@call_end_callbacks_on_fut_pending Z unit nat 0%nat sample_profiler
           (Some 0%nat) 1%nat (mkFuture None [] tt) eq_refl eq_refl).
Defined.

Lemma call_end_callbacks_on_fut_without_scope_witness :
  _call_end_callbacks_on_fut 1 None 0%nat sample_profiler =
  (Ok 3%nat,
   mkProfiler (holders sample_profiler)
     (futures sample_profiler ++
        [mkFuture (Some (resolved_error (InternalAssert undefined_RecordFunction_holder)))
           [] tt])
     0%nat
     (history sample_profiler ++
        [future_resolved 3%nat
           (resolved_error (InternalAssert undefined_RecordFunction_holder))])).
Proof.
  apply (proj1 (@call_end_callbacks_on_fut_without_scope Z unit nat 0%nat sample_profiler
                  0%nat (mkFuture (Some (resolved_value 42)) [] tt) (resolved_value 42)
                  eq_refl eq_refl)).
Defined.

Lemma resolved_futures_keep_their_resolution_witness :
  exists f',
    futures (_call_end_callbacks_on_fut 2 (Some 0%nat) 0%nat sample_profiler).2 !! 0%nat =
      Some f' /\
    resolution_ f' = Some (resolved_value 42).
Proof.
  apply (proj2 (@resolved_futures_keep_their_resolution Z unit nat 2%nat sample_profiler
                  0%nat (mkFuture (Some (resolved_value 42)) [] tt) (resolved_value 42)
                  eq_refl eq_refl)).
Defined.

Lemma entered_holders_stay_entered_witness :
  exists h' rf',
    holders (_call_end_callbacks_on_fut 2 (Some 1%nat) 2%nat sample_profiler).2 !! 1%nat =
      Some h' /\
    record_function_ h' = Some rf'.
Proof.
  pose proof (@entered_holders_stay_entered Z unit nat 2%nat sample_profiler 1%nat
                (mkHolder (Some (mkRecordFunction USER_SCOPE "forward" true)))
                (mkRecordFunction USER_SCOPE "forward" true) eq_refl eq_refl)
    as (_ & _ & Hwrap & _).
  apply Hwrap.
Defined.

Lemma call_end_callbacks_on_fut_chain_witness :
  let wrapped1 := _call_end_callbacks_on_fut 0 (Some 0%nat) 0%nat sample_scopes in
  let wrapped2 := _call_end_callbacks_on_fut 0 (Some 1%nat) 1%nat wrapped1.2 in
  history (Future_complete 3 0%nat (resolved_value 7) wrapped2.2).2 =
  history sample_scopes ++
  [ future_resolved 0%nat (resolved_value 7);
    end_callbacks USER_SCOPE "outer" 0%nat;
    future_resolved 1%nat (resolved_value 7);
    end_callbacks USER_SCOPE "inner" 0%nat;
    future_resolved 2%nat (resolved_value 7) ].
Proof.
  intros wrapped1 wrapped2.
  pose proof (@call_end_callbacks_on_fut_chain Z unit nat 0%nat sample_scopes
                0%nat 1%nat
                (mkHolder (Some (mkRecordFunction USER_SCOPE "outer" true)))
                (mkHolder (Some (mkRecordFunction USER_SCOPE "inner" true)))
                (mkRecordFunction USER_SCOPE "outer" true)
                (mkRecordFunction USER_SCOPE "inner" true)
                0%nat (mkFuture None [] tt) (resolved_value 7)
                ltac:(lia) eq_refl eq_refl eq_refl eq_refl eq_refl eq_refl eq_refl)
    as (_ & _ & _ & Hcomplete).
  exact (f_equal (fun run => history run.2) Hcomplete).
Defined.
